(** * ArcaneOS: intent routing, payload safety, worker registry and event bus

    A shallow embedding of the Python sources

    - [ArcaneOS/core/event_bus.py]     (module [EventBus])
    - [ArcaneOS/core/safety.py]        (module [Safety])
    - [app/services/raindrop_client.py] and
      [app/services/daemon_registry.py] (module [Registry])
    - [app/services/spell_parser.py]   (module [SpellParser])
    - [ArcaneOS/core/archon_router.py] (module [Router])

    and the properties of them that the specification states.

    Conventions.  A Python [str] is a Rocq [string] whose characters are
    read as the code points U+0000..U+00FF; the character predicates below
    ([is_space], [is_word], [lower_char], ...) are the Python ones on that
    range.  A Python [float] that only carries a duration or a score is a
    rational ([Q]).  Mutable objects live in one [World] record that every
    operation threads; an operation returns the new world together with
    either its value or the exception it raised. *)

From Stdlib Require Import Ascii QArith Qminmax Qabs.
From stdpp Require Import base gmap strings list pretty.


(** ** Python text operations *)

Module Text.

Definition code (c : ascii) : N := N_of_ascii c.

Definition in_range (lo hi : N) (c : ascii) : bool :=
  ((lo <=? code c) && (code c <=? hi))%N.

(** [str.isspace] on one character, which is also the class [\s] of [re]. *)
Definition is_space (c : ascii) : bool :=
  in_range 9 13 c || in_range 28 32 c || (code c =? 133)%N || (code c =? 160)%N.

Definition is_ascii_upper (c : ascii) : bool := in_range 65 90 c.
Definition is_ascii_lower (c : ascii) : bool := in_range 97 122 c.
Definition is_ascii_letter (c : ascii) : bool := is_ascii_upper c || is_ascii_lower c.
Definition is_decimal (c : ascii) : bool := in_range 48 57 c.

(** [str.isdigit] on one character: the decimal digits and the superscripts
    U+00B2, U+00B3, U+00B9. *)
Definition is_digit (c : ascii) : bool :=
  is_decimal c || (code c =? 178)%N || (code c =? 179)%N || (code c =? 185)%N.

(** The class [\w] of [re] on str patterns: alphanumeric or underscore. *)
Definition is_word (c : ascii) : bool :=
  is_ascii_letter c || is_digit c || (code c =? 95)%N
  || (code c =? 170)%N || (code c =? 181)%N || (code c =? 186)%N
  || in_range 188 190 c || in_range 192 214 c || in_range 216 246 c
  || in_range 248 255 c.

Definition shift (c : ascii) (d : Z) : ascii :=
  ascii_of_N (Z.to_N (Z.of_N (code c) + d)).

Definition lower_char (c : ascii) : ascii :=
  if is_ascii_upper c || in_range 192 214 c || in_range 216 222 c
  then shift c 32 else c.

(** [str.upper] on one character; exact on ASCII and on the Latin-1 letters
    whose capital is one Latin-1 character. *)
Definition upper_char (c : ascii) : ascii :=
  if is_ascii_lower c || in_range 224 246 c || in_range 248 254 c
  then shift c (-32) else c.

Fixpoint map_chars (f : ascii -> ascii) (s : string) : string :=
  match s with
  | EmptyString => EmptyString
  | String c t => String (f c) (map_chars f t)
  end.

Definition lower (s : string) : string := map_chars lower_char s.

(** [s.upper()]: the sharp s (U+00DF) becomes "SS".  The micro sign and the
    y with diaeresis, whose capitals lie beyond U+00FF, stay as they are. *)
Fixpoint upper (s : string) : string :=
  match s with
  | EmptyString => EmptyString
  | String c t =>
      if (code c =? 223)%N then String "S" (String "S" (upper t))
      else String (upper_char c) (upper t)
  end.

Fixpoint all_chars (p : ascii -> bool) (s : string) : bool :=
  match s with
  | EmptyString => true
  | String c t => p c && all_chars p t
  end.

(** [s.isdigit()]: non-empty and every character a digit. *)
Definition isdigit (s : string) : bool :=
  match s with
  | EmptyString => false
  | _ => all_chars is_digit s
  end.

(** Truthiness of a str. *)
Definition truthy (s : string) : bool :=
  match s with EmptyString => false | _ => true end.

Fixpoint lstrip_by (p : ascii -> bool) (s : string) : string :=
  match s with
  | EmptyString => EmptyString
  | String c t => if p c then lstrip_by p t else s
  end.

Fixpoint rstrip_by (p : ascii -> bool) (s : string) : string :=
  match s with
  | EmptyString => EmptyString
  | String c t =>
      match rstrip_by p t with
      | EmptyString => if p c then EmptyString else String c EmptyString
      | r => String c r
      end
  end.

Definition strip_by (p : ascii -> bool) (s : string) : string :=
  rstrip_by p (lstrip_by p s).

(** [s.strip()] *)
Definition strip (s : string) : string := strip_by is_space s.

Fixpoint mem_char (c : ascii) (chars : string) : bool :=
  match chars with
  | EmptyString => false
  | String d t => Ascii.eqb c d || mem_char c t
  end.

(** [s.strip(chars)] *)
Definition strip_chars (chars s : string) : string :=
  strip_by (fun c => mem_char c chars) s.

(** [needle in hay] for two strs. *)
Fixpoint str_in (needle hay : string) : bool :=
  String.prefix needle hay ||
  match hay with
  | EmptyString => false
  | String _ t => str_in needle t
  end.

Fixpoint drop_chars (n : nat) (s : string) : string :=
  match n, s with
  | O, _ => s
  | S _, EmptyString => EmptyString
  | S n, String _ t => drop_chars n t
  end.

Fixpoint take_chars (n : nat) (s : string) : string :=
  match n, s with
  | O, _ => EmptyString
  | S _, EmptyString => EmptyString
  | S n, String c t => String c (take_chars n t)
  end.

(** [s.replace(old, "")] for a non-empty [old]: every occurrence, leftmost
    first, without rescanning what was produced.  The counter [skip] is the
    number of characters of the current occurrence still to drop. *)
Fixpoint remove_from (old : string) (skip : nat) (s : string) : string :=
  match s with
  | EmptyString => EmptyString
  | String c t =>
      match skip with
      | S n => remove_from old n t
      | O =>
          if String.prefix old s
          then remove_from old (String.length old - 1) t
          else String c (remove_from old O t)
      end
  end.

Definition remove_all (old s : string) : string :=
  match old with
  | EmptyString => s
  | _ => remove_from old O s
  end.

Fixpoint join (sep : string) (l : list string) : string :=
  match l with
  | [] => EmptyString
  | [x] => x
  | x :: rest => x +:+ sep +:+ join sep rest
  end.

Fixpoint digits_value (acc : Z) (s : string) : option Z :=
  match s with
  | EmptyString => Some acc
  | String c t =>
      if is_decimal c
      then digits_value (acc * 10 + (Z.of_N (code c) - 48))%Z t
      else None
  end.

(** [int(s)] for a str of digits: the superscript digits pass [isdigit] but
    are no digits for [int], which raises [ValueError] ([None] here). *)
Definition py_int (s : string) : option Z :=
  match s with
  | EmptyString => None
  | _ => digits_value 0 s
  end.

End Text.

(** ** Untyped Python values: JSON-like payloads, parameters, metadata *)

#[warnings="-register-all"] Inductive Any : Type :=
| ANone
| ABool (b : bool)
| AInt (z : Z)
| AFloat (q : Q)
| AStr (s : string)
| AList (l : list Any)
| ADict (d : list (string * Any)).

(** A [dict] with str keys keeps insertion order; writing an existing key
    keeps its place. *)
Module Dict.

Definition t : Type := list (string * Any).

Fixpoint get (k : string) (d : t) : option Any :=
  match d with
  | [] => None
  | (k', v) :: rest => if String.eqb k k' then Some v else get k rest
  end.

Fixpoint set (k : string) (v : Any) (d : t) : t :=
  match d with
  | [] => [(k, v)]
  | (k', v') :: rest =>
      if String.eqb k k' then (k, v) :: rest else (k', v') :: set k v rest
  end.

Definition setdefault (k : string) (v : Any) (d : t) : t :=
  match get k d with
  | Some _ => d
  | None => set k v d
  end.

Definition update (new d : t) : t :=
  fold_left (fun acc kv => set (fst kv) (snd kv) acc) new d.

Definition opt_str (o : option string) : Any :=
  match o with Some s => AStr s | None => ANone end.

End Dict.

(** ** Enumerations shared by the modules *)

(** [class DaemonType(str, Enum)] *)
Inductive DaemonType : Type := CLAUDE | GEMINI | LIQUIDMETAL.

Definition DaemonType_value (d : DaemonType) : string :=
  match d with
  | CLAUDE => "claude"
  | GEMINI => "gemini"
  | LIQUIDMETAL => "liquidmetal"
  end.

(** [DaemonType(value)]: the member with that value, or [ValueError]. *)
Definition DaemonType_of_value (s : string) : option DaemonType :=
  if String.eqb s "claude" then Some CLAUDE
  else if String.eqb s "gemini" then Some GEMINI
  else if String.eqb s "liquidmetal" then Some LIQUIDMETAL
  else None.

#[global] Instance DaemonType_eq_dec : EqDecision DaemonType.
Proof. solve_decision. Defined.

#[global] Instance DaemonType_countable : Countable DaemonType.
Proof.
  refine (inj_countable'
    (fun d => match d with CLAUDE => 0 | GEMINI => 1 | LIQUIDMETAL => 2 end)
    (fun n => match n with 0 => CLAUDE | 1 => GEMINI | _ => LIQUIDMETAL end) _).
  intros []; reflexivity.
Defined.

(** [class SpellType(str, Enum)] of the event bus *)
Inductive SpellType : Type :=
  SUMMON | INVOKE | BANISH | REVEAL | PARSE | VOICE | ROUTE.

Definition SpellType_value (s : SpellType) : string :=
  match s with
  | SUMMON => "summon" | INVOKE => "invoke" | BANISH => "banish"
  | REVEAL => "reveal" | PARSE => "parse" | VOICE => "voice"
  | ROUTE => "route"
  end.

(** ** Exceptions and outcomes *)

(** The [detail] of an [HTTPException], by raise site. *)
Inductive Detail : Type :=
| unknown_to_this_realm (name : DaemonType)
| already_walks_among_us (name : DaemonType)
| slumbers_in_the_void (name : DaemonType)
| not_registered_with_MCP (name : DaemonType)
| not_present_in_this_realm (name : DaemonType)
| failed_to_register (name : DaemonType)
| invocation_failed (why : string)
| detail_text (s : string)
| detail_plan (plan : list string).

Inductive Exc : Type :=
| HTTPException (status_code : Z) (detail : Detail)
| ValueError (msg : string)
| KeyError (key : string)
| RuntimeError (msg : string)
| RecursionError
| ParseError (msg : string)
| OtherError (msg : string).

(** [isinstance(e, RuntimeError)]: [RecursionError] is a subclass. *)
Definition is_RuntimeError (e : Exc) : bool :=
  match e with
  | RuntimeError _ | RecursionError => true
  | _ => false
  end.

Definition is_HTTPException (e : Exc) : bool :=
  match e with HTTPException _ _ => true | _ => false end.

(** [format(member)] of a member of the enum [DaemonType(str, Enum)], as
    an f-string writes it: since CPython 3.11 that is [str(member)], the
    names of the class and of the member (earlier versions wrote the
    value). *)
Definition DaemonType_format (d : DaemonType) : string :=
  match d with
  | CLAUDE => "DaemonType.CLAUDE"
  | GEMINI => "DaemonType.GEMINI"
  | LIQUIDMETAL => "DaemonType.LIQUIDMETAL"
  end.

(** The text of a [detail]; the raise sites format the member itself, not
    its value. *)
Definition Detail_str (d : Detail) : string :=
  match d with
  | unknown_to_this_realm n =>
      "The daemon '" +:+ DaemonType_format n +:+ "' is unknown to this realm"
  | already_walks_among_us n =>
      "The daemon " +:+ DaemonType_format n +:+ " already walks among us"
  | slumbers_in_the_void n =>
      "The daemon " +:+ DaemonType_format n +:+ " slumbers in the void. Summon it first."
  | not_registered_with_MCP n =>
      "The daemon " +:+ DaemonType_format n +:+ " is not registered with MCP. "
      +:+ "This should not happen - try re-summoning."
  | not_present_in_this_realm n =>
      "The daemon " +:+ DaemonType_format n +:+ " is not present in this realm"
  | failed_to_register n =>
      "Failed to register daemon '" +:+ DaemonType_format n +:+ "' with Raindrop MCP"
  | invocation_failed why => "Invocation failed: " +:+ why
  | detail_text s => s
  | detail_plan plan => Text.join ", " plan
  end.

(** [str(exc)]: Starlette prints an [HTTPException] as its status and
    detail, and [KeyError] prints the key quoted. *)
Definition Exc_str (e : Exc) : string :=
  match e with
  | HTTPException status_code detail =>
      pretty status_code +:+ ": " +:+ Detail_str detail
  | KeyError key => "'" +:+ key +:+ "'"
  | ValueError m | RuntimeError m | ParseError m | OtherError m => m
  | RecursionError => "maximum recursion depth exceeded"
  end.

Inductive Outcome (A : Type) : Type :=
| Returned (a : A)
| Raised (e : Exc).
Arguments Returned {A} a.
Arguments Raised {A} e.

(** ** The event bus ([ArcaneOS/core/event_bus.py]) *)

Module EventBus.

(** Truth value of a Python object, as [if x:] tests it. *)
Definition Any_truthy (v : Any) : bool :=
  match v with
  | ANone => false
  | ABool b => b
  | AInt z => negb (z =? 0)%Z
  | AFloat q => negb (Qeq_bool q 0)
  | AStr s => Text.truthy s
  | AList l => match l with [] => false | _ => true end
  | ADict d => match d with [] => false | _ => true end
  end.

(** [class ArcaneEvent]; [timestamp] is the instant [datetime.utcnow()]
    returned when the event was built, in seconds. *)
Record ArcaneEvent : Type := {
  spell_name : SpellType;
  daemon_name : option string;
  success : bool;
  description : string;
  timestamp : Q;
  metadata : Dict.t
}.

(** [to_dict].  Under "timestamp" the code writes [timestamp.isoformat()],
    a str; the entry here holds the instant itself. *)
Definition to_dict (e : ArcaneEvent) : Dict.t :=
  [ ("spell_name", AStr (SpellType_value (spell_name e)));
    ("daemon_name", Dict.opt_str (daemon_name e));
    ("timestamp", AFloat (timestamp e));
    ("success", ABool (success e));
    ("description", AStr (description e));
    ("metadata", ADict (metadata e)) ].

(** [class ArcaneEventBus].  A subscriber is an unbounded [asyncio.Queue],
    held here with the events put on it and not yet taken. *)
Record ArcaneEventBus : Type := {
  _subscribers : gmap nat (list ArcaneEvent);
  _event_history : list ArcaneEvent;
  _max_history : nat
}.

(** [__init__] *)
Definition init : ArcaneEventBus :=
  {| _subscribers := ∅; _event_history := []; _max_history := 100 |}.

(** [subscribe]: a new queue joins the set; its handle is returned. *)
Definition subscribe (bus : ArcaneEventBus) : ArcaneEventBus * nat :=
  let q := fresh (dom (_subscribers bus)) in
  ({| _subscribers := <[q := []]> (_subscribers bus);
      _event_history := _event_history bus;
      _max_history := _max_history bus |}, q).

(** [unsubscribe] *)
Definition unsubscribe (q : nat) (bus : ArcaneEventBus) : ArcaneEventBus :=
  {| _subscribers := delete q (_subscribers bus);
     _event_history := _event_history bus;
     _max_history := _max_history bus |}.

(** [list.pop(0)] on a non-empty list, keeping the list. *)
Definition pop0 {A} (l : list A) : list A := tail l.

(** [emit]: append to the history, drop the oldest entry when the history
    is over its bound, then put the event on every subscriber queue
    ([Queue.put] on an unbounded queue does not raise, so [dead] stays
    empty). *)
Definition emit (event : ArcaneEvent) (bus : ArcaneEventBus) : ArcaneEventBus :=
  let history := _event_history bus ++ [event] in
  let history :=
    if (_max_history bus <? length history)%nat then pop0 history else history in
  {| _subscribers := (fun q => q ++ [event]) <$> _subscribers bus;
     _event_history := history;
     _max_history := _max_history bus |}.

(** [lst[start:]] for an int [start]. *)
Definition slice_from {A} (start : Z) (l : list A) : list A :=
  let len := Z.of_nat (length l) in
  let start := if (start <? 0)%Z then Z.max 0 (len + start) else Z.min start len in
  drop (Z.to_nat start) l.

(** [get_recent_events]: [self._event_history[-count:]], each as a dict. *)
Definition get_recent_events (count : Z) (bus : ArcaneEventBus) : list Dict.t :=
  to_dict <$> slice_from (- count) (_event_history bus).

Definition get_subscriber_count (bus : ArcaneEventBus) : nat :=
  size (_subscribers bus).

(** [_build_sync_directives]; [fantasy] is [is_fantasy_mode()]. *)
Definition _build_sync_directives (fantasy : bool) (success : bool)
    (failure_phrase : option Any) : Dict.t :=
  let phrase_set :=
    match failure_phrase with Some v => Any_truthy v | None => false end in
  let phrase := default ANone failure_phrase in
  if negb fantasy then
    let directives :=
      [ ("mode", AStr "developer"); ("deadline_ms", AInt 50);
        ("animation", ANone); ("particles", AStr "halt");
        ("audio", ANone); ("invert", ABool false) ] in
    if phrase_set then Dict.set "failure" phrase directives else directives
  else
    let directives := [ ("mode", AStr "fantasy"); ("deadline_ms", AInt 200) ] in
    if success then
      Dict.update
        [ ("animation", AStr "pulse"); ("particles", AStr "fade_to_idle");
          ("audio", AStr "success"); ("invert", ABool false) ] directives
    else
      let directives :=
        Dict.update
          [ ("animation", AStr "invert"); ("particles", AStr "halt");
            ("audio", AStr "error"); ("invert", ABool true);
            ("text_color", AStr "#ff1744") ] directives in
      if phrase_set then Dict.set "display_text" phrase directives
      else directives.

Definition with_sync (fantasy success : bool) (metadata : Dict.t) : Dict.t :=
  Dict.setdefault "sync"
    (ADict (_build_sync_directives fantasy success (Dict.get "failure_phrase" metadata)))
    metadata.

Definition sparkle : string := "✨".

(** [emit_route] *)
Definition emit_route (fantasy : bool) (now : Q) (daemon : string)
    (success : bool) (metadata : Dict.t) (bus : ArcaneEventBus) : ArcaneEventBus :=
  emit {| spell_name := ROUTE; daemon_name := Some daemon; success := success;
          description := "Route decision emitted"; timestamp := now;
          metadata := with_sync fantasy success metadata |} bus.

(** [emit_summon] with [description=None] *)
Definition emit_summon (fantasy : bool) (now : Q) (daemon : string)
    (success : bool) (metadata : Dict.t) (bus : ArcaneEventBus) : ArcaneEventBus :=
  let description :=
    if success
    then sparkle +:+ " The runes pulse as " +:+ Text.upper daemon +:+ " materializes."
    else sparkle +:+ " " +:+ Text.upper daemon +:+ " resists the call." in
  emit {| spell_name := SUMMON; daemon_name := Some daemon; success := success;
          description := description; timestamp := now;
          metadata := with_sync fantasy success metadata |} bus.

Definition opt_float (o : option Q) : Any :=
  match o with Some q => AFloat q | None => ANone end.

(** [emit_invoke] with [description=None] *)
Definition emit_invoke (fantasy : bool) (now : Q) (daemon task : string)
    (success : bool) (execution_time : option Q) (metadata : Dict.t)
    (bus : ArcaneEventBus) : ArcaneEventBus :=
  let metadata := with_sync fantasy success metadata in
  let metadata := Dict.set "task" (AStr task) metadata in
  let metadata := Dict.set "execution_time" (opt_float execution_time) metadata in
  let description :=
    if success
    then sparkle +:+ " " +:+ Text.upper daemon +:+ " completes '" +:+ task +:+ "'."
    else sparkle +:+ " " +:+ Text.upper daemon +:+ " falters on '" +:+ task +:+ "'." in
  emit {| spell_name := INVOKE; daemon_name := Some daemon; success := success;
          description := description; timestamp := now;
          metadata := metadata |} bus.

(** [emit_banish] with [description=None] *)
Definition emit_banish (fantasy : bool) (now : Q) (daemon : string)
    (invocation_count : Z) (total_time : Q) (success : bool)
    (metadata : Dict.t) (bus : ArcaneEventBus) : ArcaneEventBus :=
  let metadata := with_sync fantasy success metadata in
  let metadata := Dict.set "invocation_count" (AInt invocation_count) metadata in
  let metadata := Dict.set "total_time" (AFloat total_time) metadata in
  let description :=
    if success
    then sparkle +:+ " " +:+ Text.upper daemon +:+ " returns to the ethereal void."
    else sparkle +:+ " " +:+ Text.upper daemon +:+ " resists banishment." in
  emit {| spell_name := BANISH; daemon_name := Some daemon; success := success;
          description := description; timestamp := now;
          metadata := metadata |} bus.

(** [emit_reveal]; the argument [is_active] is accepted and not used. *)
Definition emit_reveal (fantasy : bool) (now : Q) (daemon : option string)
    (is_active : bool) (description : option string) (metadata : Dict.t)
    (bus : ArcaneEventBus) : ArcaneEventBus :=
  let metadata := with_sync fantasy true metadata in
  let description :=
    default (sparkle +:+ " The veil parts, revealing the current realm state. "
             +:+ sparkle) description in
  emit {| spell_name := REVEAL; daemon_name := daemon; success := true;
          description := description; timestamp := now;
          metadata := metadata |} bus.

(** [emit_parse]; [parsed_action] is formatted as [str] formats it. *)
Definition emit_parse (fantasy : bool) (now : Q) (spell_text : string)
    (success : bool) (parsed_action : option string) (daemon : option string)
    (description : option string) (metadata : Dict.t)
    (bus : ArcaneEventBus) : ArcaneEventBus :=
  let metadata := with_sync fantasy success metadata in
  let metadata := Dict.set "spell_text" (AStr spell_text) metadata in
  let metadata := Dict.set "parsed_action" (Dict.opt_str parsed_action) metadata in
  let description :=
    default
      (if success
       then sparkle +:+ " Runes clarify '" +:+ spell_text +:+ "' → "
            +:+ default "None" parsed_action +:+ ". " +:+ sparkle
       else sparkle +:+ " '" +:+ spell_text +:+ "' defies translation. " +:+ sparkle)
      description in
  emit {| spell_name := PARSE; daemon_name := daemon; success := success;
          description := description; timestamp := now;
          metadata := metadata |} bus.

(** [emit_voice] *)
Definition emit_voice (fantasy : bool) (now : Q) (daemon : string)
    (success : bool) (description : option string) (metadata : Dict.t)
    (bus : ArcaneEventBus) : ArcaneEventBus :=
  let metadata := with_sync fantasy success metadata in
  let description :=
    default
      (if success
       then sparkle +:+ " " +:+ Text.upper daemon +:+ " shares an utterance."
       else sparkle +:+ " " +:+ Text.upper daemon +:+ " falls silent.")
      description in
  emit {| spell_name := VOICE; daemon_name := Some daemon; success := success;
          description := description; timestamp := now;
          metadata := metadata |} bus.

End EventBus.

(** ** Regular expressions

    The fragment of Python's [re] that the sources use, with the search
    order of a backtracking matcher: alternatives left to right, greedy
    repetition that gives back one character at a time.  Repetition is over
    character classes only, as in every pattern of the sources. *)

Module Re.

Inductive regex : Type :=
| Eps
| Chr (c : ascii)
| Cls (p : ascii -> bool)
| Cat (r1 r2 : regex)
| Alt (r1 r2 : regex)
| Opt (r : regex)
| Star (p : ascii -> bool)
| Plus (p : ascii -> bool)
| Grp (n : nat) (r : regex)
| Bol.

(** A literal word *)
Fixpoint lit (s : string) : regex :=
  match s with
  | EmptyString => Eps
  | String c EmptyString => Chr c
  | String c t => Cat (Chr c) (lit t)
  end.

Fixpoint seq (rs : list regex) : regex :=
  match rs with
  | [] => Eps
  | [r] => r
  | r :: rest => Cat r (seq rest)
  end.

(** [\s], [\S], [\w], [.] and negated one-character sets *)
Definition space : ascii -> bool := Text.is_space.
Definition nonspace (c : ascii) : bool := negb (Text.is_space c).
Definition word : ascii -> bool := Text.is_word.
Definition dot (c : ascii) : bool := negb (Text.code c =? 10)%N.
Definition other_than (d : ascii) (c : ascii) : bool := negb (Ascii.eqb c d).

(** The matcher's position: characters consumed so far, what is left of the
    subject, and the groups closed so far. *)
Record state : Type := {
  pos : nat;
  rest : string;
  groups : list (nat * string)
}.

Definition advance (s : state) (t : string) : state :=
  {| pos := S (pos s); rest := t; groups := groups s |}.

Fixpoint set_group (n : nat) (v : string) (gs : list (nat * string))
    : list (nat * string) :=
  match gs with
  | [] => [(n, v)]
  | (m, w) :: r => if (n =? m)%nat then (n, v) :: r else (m, w) :: set_group n v r
  end.

Fixpoint get_group (n : nat) (gs : list (nat * string)) : option string :=
  match gs with
  | [] => None
  | (m, w) :: r => if (n =? m)%nat then Some w else get_group n r
  end.

Definition close_group (n : nat) (opened closed : state) : state :=
  {| pos := pos closed; rest := rest closed;
     groups := set_group n (Text.take_chars (pos closed - pos opened) (rest opened))
                 (groups closed) |}.

(** Character comparison, under [re.IGNORECASE] when [ic] is set. *)
Definition same_char (ic : bool) (c d : ascii) : bool :=
  if ic then Ascii.eqb (Text.lower_char c) (Text.lower_char d)
  else Ascii.eqb c d.

(** Greedy repetition of a class: take one more character if possible, and
    only when the rest of the pattern fails after that, stop here. *)
Fixpoint many (p : ascii -> bool) (k : state -> option state)
    (n : nat) (gs : list (nat * string)) (s : string) : option state :=
  match s with
  | String c t =>
      if p c then
        match many p k (S n) gs t with
        | Some m => Some m
        | None => k {| pos := n; rest := s; groups := gs |}
        end
      else k {| pos := n; rest := s; groups := gs |}
  | EmptyString => k {| pos := n; rest := s; groups := gs |}
  end.

(** [run ic r s k]: match [r] at [s], then the rest of the pattern [k]. *)
Fixpoint run (ic : bool) (r : regex) (s : state) (k : state -> option state)
    : option state :=
  match r with
  | Eps => k s
  | Chr c =>
      match rest s with
      | String d t => if same_char ic c d then k (advance s t) else None
      | EmptyString => None
      end
  | Cls p =>
      match rest s with
      | String d t => if p d then k (advance s t) else None
      | EmptyString => None
      end
  | Cat r1 r2 => run ic r1 s (fun s' => run ic r2 s' k)
  | Alt r1 r2 =>
      match run ic r1 s k with
      | Some m => Some m
      | None => run ic r2 s k
      end
  | Opt r1 =>
      match run ic r1 s k with
      | Some m => Some m
      | None => k s
      end
  | Star p => many p k (pos s) (groups s) (rest s)
  | Plus p =>
      match rest s with
      | String d t => if p d then many p k (S (pos s)) (groups s) t else None
      | EmptyString => None
      end
  | Grp n r1 => run ic r1 s (fun s' => k (close_group n s s'))
  | Bol => if (pos s =? 0)%nat then k s else None
  end.

(** A match object: [m.start()], [m.end()], [m.group(0)] and the groups that
    took part. *)
Record Match : Type := {
  m_start : nat;
  m_end : nat;
  m_text : string;
  m_groups : list (nat * string)
}.

(** The match that starts at position [n], where [s] is the subject from
    there on. *)
Definition match_at (ic : bool) (r : regex) (n : nat) (s : string) : option Match :=
  match run ic r {| pos := n; rest := s; groups := [] |} Some with
  | Some e =>
      Some {| m_start := n; m_end := pos e;
              m_text := Text.take_chars (pos e - n) s;
              m_groups := groups e |}
  | None => None
  end.

(** [pattern.search(text)]: the leftmost match. *)
Fixpoint search_from (ic : bool) (r : regex) (n : nat) (s : string) : option Match :=
  match match_at ic r n s with
  | Some m => Some m
  | None =>
      match s with
      | EmptyString => None
      | String _ t => search_from ic r (S n) t
      end
  end.

Definition search (ic : bool) (r : regex) (text : string) : option Match :=
  search_from ic r 0 text.

Definition m_length (m : Match) : nat := m_end m - m_start m.

(** [pattern.finditer(text)]: the matches left to right, each search
    starting where the previous match ended.  [skip] counts the characters
    of the current match still to pass.  (After an empty match the scan moves
    one character on; no pattern of the sources matches the empty string.) *)
Fixpoint finditer_from (ic : bool) (r : regex) (skip n : nat) (s : string)
    : list Match :=
  match s with
  | EmptyString =>
      match skip with
      | O => match match_at ic r n s with Some m => [m] | None => [] end
      | S _ => []
      end
  | String _ t =>
      match skip with
      | S k => finditer_from ic r k (S n) t
      | O =>
          match match_at ic r n s with
          | Some m => m :: finditer_from ic r (m_length m - 1) (S n) t
          | None => finditer_from ic r O (S n) t
          end
      end
  end.

Definition finditer (ic : bool) (r : regex) (text : string) : list Match :=
  finditer_from ic r 0 0 text.

(** [pattern.sub(repl, text)] for a literal [repl]: every match, left to
    right, is replaced; what lies between matches is kept. *)
Fixpoint sub_from (ic : bool) (r : regex) (repl : string) (skip n : nat)
    (s : string) : string :=
  match s with
  | EmptyString =>
      match skip with
      | O => match match_at ic r n s with Some _ => repl | None => EmptyString end
      | S _ => EmptyString
      end
  | String c t =>
      match skip with
      | S k => sub_from ic r repl k (S n) t
      | O =>
          match match_at ic r n s with
          | Some m =>
              match m_length m with
              | O => repl +:+ String c (sub_from ic r repl O (S n) t)
              | S k => repl +:+ sub_from ic r repl k (S n) t
              end
          | None => String c (sub_from ic r repl O (S n) t)
          end
      end
  end.

Definition sub (ic : bool) (r : regex) (repl text : string) : string :=
  sub_from ic r repl 0 0 text.

End Re.

(** ** The directive schema ([ArcaneOS/core/safety.py]) *)

(** [class SafetySettings(BaseModel)] *)
Record SafetySettings : Type := {
  allow_shell : bool;
  allow_net : bool
}.

(** [Literal["archon", "claude", "gemini"]] *)
Inductive Voice : Type := voice_archon | voice_claude | voice_gemini.

Definition Voice_value (v : Voice) : string :=
  match v with
  | voice_archon => "archon" | voice_claude => "claude" | voice_gemini => "gemini"
  end.

(** [class StyleSettings(BaseModel)] *)
Record StyleSettings : Type := {
  fantasy : bool;
  voice : Voice
}.

(** [Literal["summon", "invoke", "banish", "reveal"]] *)
Inductive Intent : Type :=
  intent_summon | intent_invoke | intent_banish | intent_reveal.

Definition Intent_value (i : Intent) : string :=
  match i with
  | intent_summon => "summon" | intent_invoke => "invoke"
  | intent_banish => "banish" | intent_reveal => "reveal"
  end.

(** [Literal["claude", "gemini", "liquidmetal", "none"]] *)
Inductive DaemonChoice : Type :=
  choose_claude | choose_gemini | choose_liquidmetal | choose_none.

Definition DaemonChoice_value (d : DaemonChoice) : string :=
  match d with
  | choose_claude => "claude" | choose_gemini => "gemini"
  | choose_liquidmetal => "liquidmetal" | choose_none => "none"
  end.

(** [class ArchonDirective(BaseModel)] *)
Record ArchonDirective : Type := {
  intent : Intent;
  daemon : DaemonChoice;
  task : string;
  safety : SafetySettings;
  style : StyleSettings;
  parameters : option Dict.t;
  plan : list string
}.

(** [class Settings(BaseSettings)], the fields the router reads *)
Record Settings : Type := {
  archon_enabled : bool;
  archon_model_id : string;
  archon_tool_name : string;
  archon_role_name : string;
  archon_base_narration : string;
  archon_system_prompt : string
}.

(** ** The shared world and the monad of operations *)

(** [class Daemon(BaseModel)] *)
Record Daemon : Type := {
  name : DaemonType;
  role : string;
  color_code : string;
  is_summoned : bool;
  invocation_count : Z;
  metadata : option Dict.t
}.

(** One entry of [DaemonState.invocation_history] *)
Record InvocationRecord : Type := {
  rec_task : string;
  rec_timestamp : Q;
  rec_execution_time : Q;
  rec_success : bool;
  rec_result_summary : string
}.

(** [class DaemonState]; its [daemon] attribute is the object stored under
    the same key of [_daemons]. *)
Record DaemonState : Type := {
  summoned_at : option Q;
  last_invoked_at : option Q;
  invocation_history : list InvocationRecord;
  total_execution_time : Q;
  mcp_registered : bool
}.

(** [class ModelProvider(str, Enum)] *)
Inductive ModelProvider : Type := ANTHROPIC | GOOGLE | CUSTOM.

Definition ModelProvider_value (p : ModelProvider) : string :=
  match p with
  | ANTHROPIC => "anthropic" | GOOGLE => "google" | CUSTOM => "custom"
  end.

(** The [tool_config] dict of [RaindropMCPClient.register_tool] *)
Record ToolConfig : Type := {
  tool_name : string;
  model : string;
  provider : string;
  capabilities : list string;
  tool_metadata : Dict.t;
  registered_at : Q
}.

(** [class MCPToolResult] *)
Record MCPToolResult : Type := {
  mcp_success : bool;
  mcp_result : Any;
  mcp_execution_time : Q;
  mcp_metadata : Dict.t;
  mcp_timestamp : Q
}.

(** [class VoiceEvent(str, Enum)] *)
Inductive VoiceEvent : Type :=
  VOICE_SUMMON | VOICE_INVOKE | VOICE_BANISH | VOICE_FAILURE.

(** A coroutine object: the call of an [async def] which has not run yet. *)
Inductive Coroutine : Type :=
| co_emit_summon (daemon : string) (success : bool) (metadata : Dict.t)
| co_emit_invoke (daemon task : string) (success : bool)
    (execution_time : option Q) (metadata : Dict.t)
| co_emit_banish (daemon : string) (invocation_count : Z) (total_time : Q)
    (success : bool) (metadata : Dict.t)
| co_emit_route (daemon : string) (success : bool) (metadata : Dict.t)
| co_play_voice_line (daemon : DaemonType) (event : VoiceEvent)
    (override_text : option string).

(** A line of the spell records file, written by [Grimoire.record_spell] *)
Record GrimoireEntry : Type := {
  g_spell_name : string;
  g_command : Dict.t;
  g_result : Dict.t;
  g_spell_type : option string;
  g_daemon_name : option string;
  g_success : bool;
  g_execution_time : option Q
}.

(** A line appended to [GRIMOIRE_FILE] by [safety._log_rejection] *)
Record RejectionLine : Type := {
  log_event : string;
  log_reason : string;
  log_payload : Any
}.

(** Every mutable object the modelled code shares.  [running_loop] is
    [None] when no asyncio event loop is running, and otherwise holds the
    tasks created on the loop, oldest first.  [clock] is the time in
    seconds. *)
Record World : Type := {
  _daemons : gmap DaemonType Daemon;
  _daemon_states : gmap DaemonType DaemonState;
  _registered_tools : gmap string ToolConfig;
  event_bus : EventBus.ArcaneEventBus;
  running_loop : option (list Coroutine);
  spell_records : list GrimoireEntry;
  grimoire_file : list RejectionLine;
  veil_enabled : bool;
  clock : Q
}.

(** What the interpreter and the external collaborators provide. *)
Class Env : Type := {
  (** frames the interpreter still allows below a registry method *)
  recursion_limit : nat;
  (** the builtin [float(s)], [None] standing for [ValueError] *)
  py_float : string -> option Q;
  (** the builtin [str(x)] *)
  py_str : Any -> string;
  (** [json.loads(s)], [None] standing for [JSONDecodeError] *)
  json_loads : string -> option Any;
  (** pydantic's [ArchonDirective.parse_obj(payload)], [None] standing for
      [ValidationError] *)
  parse_obj : Any -> option ArchonDirective;
  (** [app.config.settings] *)
  settings : Settings;
  (** the call behind [RaindropMCPClient.invoke_tool], the worker's backing
      capability: what it returns or raises, and the seconds it takes *)
  backing_call : string -> string -> option Dict.t -> ToolConfig -> Outcome Any;
  backing_seconds : string -> string -> Q
}.

Definition M (A : Type) : Type := World -> World * Outcome A.

Definition ret {A} (a : A) : M A := fun w => (w, Returned a).

Definition bind {A B} (c : M A) (k : A -> M B) : M B :=
  fun w =>
    match c w with
    | (w', Returned a) => k a w'
    | (w', Raised e) => (w', Raised e)
    end.

Definition raise {A} (e : Exc) : M A := fun w => (w, Raised e).

(** [try: body / except ...: handler]; a handler that does not apply
    re-raises. *)
Definition try_except {A} (body : M A) (handler : Exc -> M A) : M A :=
  fun w =>
    match body w with
    | (w', Returned a) => (w', Returned a)
    | (w', Raised e) => handler e w'
    end.

Definition gets {A} (f : World -> A) : M A := fun w => (w, Returned (f w)).
Definition modify (f : World -> World) : M unit := fun w => (f w, Returned tt).
Definition lift {A} (o : Outcome A) : M A := fun w => (w, o).

Declare Scope py_scope.
Delimit Scope py_scope with py.
Notation "x <- c ;; k" := (bind c (fun x => k))
  (at level 100, c at next level, right associativity) : py_scope.
Notation "c ;; k" := (bind c (fun _ => k))
  (at level 100, right associativity) : py_scope.
Local Open Scope py_scope.

Definition set_daemons (f : gmap DaemonType Daemon -> gmap DaemonType Daemon)
    (w : World) : World :=
  {| _daemons := f (_daemons w); _daemon_states := _daemon_states w;
     _registered_tools := _registered_tools w; event_bus := event_bus w;
     running_loop := running_loop w; spell_records := spell_records w;
     grimoire_file := grimoire_file w; veil_enabled := veil_enabled w;
     clock := clock w |}.

Definition set_daemon_states
    (f : gmap DaemonType DaemonState -> gmap DaemonType DaemonState)
    (w : World) : World :=
  {| _daemons := _daemons w; _daemon_states := f (_daemon_states w);
     _registered_tools := _registered_tools w; event_bus := event_bus w;
     running_loop := running_loop w; spell_records := spell_records w;
     grimoire_file := grimoire_file w; veil_enabled := veil_enabled w;
     clock := clock w |}.

Definition set_registered_tools
    (f : gmap string ToolConfig -> gmap string ToolConfig) (w : World) : World :=
  {| _daemons := _daemons w; _daemon_states := _daemon_states w;
     _registered_tools := f (_registered_tools w); event_bus := event_bus w;
     running_loop := running_loop w; spell_records := spell_records w;
     grimoire_file := grimoire_file w; veil_enabled := veil_enabled w;
     clock := clock w |}.

Definition set_event_bus
    (f : EventBus.ArcaneEventBus -> EventBus.ArcaneEventBus) (w : World) : World :=
  {| _daemons := _daemons w; _daemon_states := _daemon_states w;
     _registered_tools := _registered_tools w; event_bus := f (event_bus w);
     running_loop := running_loop w; spell_records := spell_records w;
     grimoire_file := grimoire_file w; veil_enabled := veil_enabled w;
     clock := clock w |}.

Definition set_running_loop
    (f : option (list Coroutine) -> option (list Coroutine)) (w : World) : World :=
  {| _daemons := _daemons w; _daemon_states := _daemon_states w;
     _registered_tools := _registered_tools w; event_bus := event_bus w;
     running_loop := f (running_loop w); spell_records := spell_records w;
     grimoire_file := grimoire_file w; veil_enabled := veil_enabled w;
     clock := clock w |}.

Definition set_spell_records
    (f : list GrimoireEntry -> list GrimoireEntry) (w : World) : World :=
  {| _daemons := _daemons w; _daemon_states := _daemon_states w;
     _registered_tools := _registered_tools w; event_bus := event_bus w;
     running_loop := running_loop w; spell_records := f (spell_records w);
     grimoire_file := grimoire_file w; veil_enabled := veil_enabled w;
     clock := clock w |}.

Definition set_grimoire_file
    (f : list RejectionLine -> list RejectionLine) (w : World) : World :=
  {| _daemons := _daemons w; _daemon_states := _daemon_states w;
     _registered_tools := _registered_tools w; event_bus := event_bus w;
     running_loop := running_loop w; spell_records := spell_records w;
     grimoire_file := f (grimoire_file w); veil_enabled := veil_enabled w;
     clock := clock w |}.

Definition set_clock (f : Q -> Q) (w : World) : World :=
  {| _daemons := _daemons w; _daemon_states := _daemon_states w;
     _registered_tools := _registered_tools w; event_bus := event_bus w;
     running_loop := running_loop w; spell_records := spell_records w;
     grimoire_file := grimoire_file w; veil_enabled := veil_enabled w;
     clock := f (clock w) |}.

Definition set_veil_enabled (f : bool -> bool) (w : World) : World :=
  {| _daemons := _daemons w; _daemon_states := _daemon_states w;
     _registered_tools := _registered_tools w; event_bus := event_bus w;
     running_loop := running_loop w; spell_records := spell_records w;
     grimoire_file := grimoire_file w; veil_enabled := f (veil_enabled w);
     clock := clock w |}.

(** [datetime.utcnow()], [time.perf_counter()] *)
Definition utcnow : M Q := gets clock.

(** [round(x, ndigits)], ties to even *)
Definition round_to (ndigits : nat) (x : Q) : Q :=
  let scale := (10 ^ Z.of_nat ndigits)%Z in
  let n := (Qnum x * scale)%Z in
  let d := Z.pos (Qden x) in
  let q := (n / d)%Z in
  let r := (2 * (n mod d))%Z in
  let up := (d <? r)%Z || ((d =? r)%Z && Z.odd q) in
  inject_Z (if up then q + 1 else q)%Z / inject_Z scale.

(** Time passing while an external call runs *)
Definition elapse (seconds : Q) : M unit :=
  modify (set_clock (fun t => (t + seconds)%Q)).

(** [ArcaneOS.core.veil.is_fantasy_mode()] *)
Definition is_fantasy_mode : M bool := gets veil_enabled.

(** [logger.debug/info/warning/error(...)]: no effect on the world. *)
Definition logger_call : M unit := ret tt.

(** ** The MCP client and the daemon registry
    ([app/services/raindrop_client.py], [app/services/daemon_registry.py]) *)

Module Registry.
Section WithEnv.
Context {env : Env}.

(** *** RaindropMCPClient *)

(** [register_tool]; nothing in its [try] block raises. *)
Definition register_tool (tool : string) (mdl : string) (prov : ModelProvider)
    (caps : list string) (meta : option Dict.t) : M bool :=
  now <- utcnow ;;
  let tool_config :=
    {| tool_name := tool; model := mdl; provider := ModelProvider_value prov;
       capabilities := caps; tool_metadata := default [] meta;
       registered_at := now |} in
  modify (set_registered_tools (fun tools => <[tool := tool_config]> tools)) ;;
  logger_call ;;
  ret true.

(** [_mock_invoke], the backing call of this code base. *)
Definition _mock_invoke (tool task : string) (parameters : option Dict.t)
    (tool_config : ToolConfig) : Outcome Any :=
  let mdl := model tool_config in
  let response :=
    [ ("task", AStr task); ("model", AStr mdl);
      ("provider", AStr (provider tool_config));
      ("status", AStr "completed");
      ("output", AStr ("[" +:+ mdl +:+ "] Processing: " +:+ task));
      ("parameters_used", ADict (default [] parameters)) ] in
  let response :=
    if Text.str_in "claude" (Text.lower tool) then
      Dict.set "output" (AStr (
        "Analytical response from Claude model '" +:+ mdl +:+ "': "
        +:+ "Task '" +:+ task +:+ "' has been processed with logical reasoning. "
        +:+ "The analysis reveals multiple interconnected factors.")) response
    else if Text.str_in "gemini" (Text.lower tool) then
      Dict.set "output" (AStr (
        "Creative response from Gemini model '" +:+ mdl +:+ "': "
        +:+ "Exploring '" +:+ task +:+ "' through innovative perspectives. "
        +:+ "Novel solutions emerge from multimodal synthesis.")) response
    else if Text.str_in "liquidmetal" (Text.lower tool) then
      Dict.set "output" (AStr (
        "Adaptive response from custom model '" +:+ mdl +:+ "': "
        +:+ "Task '" +:+ task +:+ "' transformed through fluid processing. "
        +:+ "Form adapts to function seamlessly.")) response
    else response in
  Returned (ADict response).

Definition opt_dict (o : option Dict.t) : Any :=
  match o with Some d => ADict d | None => ANone end.

(** [MCPToolResult(...)]: the constructor reads the clock. *)
Definition new_MCPToolResult (ok : bool) (result : Any) (execution_time : Q)
    (meta : Dict.t) : M MCPToolResult :=
  now <- utcnow ;;
  ret {| mcp_success := ok; mcp_result := result;
         mcp_execution_time := execution_time; mcp_metadata := meta;
         mcp_timestamp := now |}.

(** [invoke_tool] *)
Definition invoke_tool (tool task : string) (parameters : option Dict.t)
    : M MCPToolResult :=
  tools <- gets _registered_tools ;;
  match tools !! tool with
  | None =>
      raise (ValueError ("Tool '" +:+ tool +:+ "' is not registered. "
                         +:+ "Please register it first using register_tool()."))
  | Some tool_config =>
      start_time <- utcnow ;;
      try_except
        (logger_call ;;
         elapse (backing_seconds tool task) ;;
         result <- lift (backing_call tool task parameters tool_config) ;;
         finish <- utcnow ;;
         new_MCPToolResult true result (finish - start_time)
           [ ("tool_name", AStr tool); ("model", AStr (model tool_config));
             ("provider", AStr (provider tool_config));
             ("parameters", opt_dict parameters) ])
        (fun e =>
           finish <- utcnow ;;
           logger_call ;;
           new_MCPToolResult false (ADict [("error", AStr (Exc_str e))])
             (finish - start_time)
             [ ("tool_name", AStr tool); ("error", AStr (Exc_str e)) ])
  end.

(** [unregister_tool] *)
Definition unregister_tool (tool : string) : M bool :=
  tools <- gets _registered_tools ;;
  match tools !! tool with
  | Some _ =>
      modify (set_registered_tools (fun tools => delete tool tools)) ;;
      logger_call ;;
      ret true
  | None => logger_call ;; ret false
  end.

(** *** Fire-and-forget tasks *)

(** [asyncio.get_running_loop()] *)
Definition get_running_loop : M unit :=
  fun w =>
    match running_loop w with
    | Some _ => (w, Returned tt)
    | None => (w, Raised (RuntimeError "no running event loop"))
    end.

(** [_safe_create_task(coro)], with [depth] the number of frames the
    interpreter still allows: a call made with none left raises
    [RecursionError].  Line 38 of the source calls [_safe_create_task]
    itself; no other statement of the function touches the loop. *)
Fixpoint _safe_create_task_at (depth : nat) (coro : Coroutine) : M unit :=
  match depth with
  | O => raise RecursionError
  | S d =>
      try_except
        (get_running_loop ;;
         _safe_create_task_at d coro)
        (fun e => if is_RuntimeError e then logger_call else raise e)
  end.

Definition _safe_create_task (coro : Coroutine) : M unit :=
  _safe_create_task_at recursion_limit coro.

(** What the event loop does with a task it was given: the bus coroutines
    run [EventBus.emit_*]; the voice line belongs to the text-to-speech
    collaborator and leaves the modelled world alone. *)
Definition run_coroutine (coro : Coroutine) : M unit :=
  match coro with
  | co_emit_summon d ok meta =>
      fantasy <- is_fantasy_mode ;; now <- utcnow ;;
      modify (set_event_bus (EventBus.emit_summon fantasy now d ok meta))
  | co_emit_invoke d task ok t meta =>
      fantasy <- is_fantasy_mode ;; now <- utcnow ;;
      modify (set_event_bus (EventBus.emit_invoke fantasy now d task ok t meta))
  | co_emit_banish d n t ok meta =>
      fantasy <- is_fantasy_mode ;; now <- utcnow ;;
      modify (set_event_bus (EventBus.emit_banish fantasy now d n t ok meta))
  | co_emit_route d ok meta =>
      fantasy <- is_fantasy_mode ;; now <- utcnow ;;
      modify (set_event_bus (EventBus.emit_route fantasy now d ok meta))
  | co_play_voice_line _ _ _ => ret tt
  end.

(** The loop runs the tasks created on it, oldest first. *)
Fixpoint run_tasks (tasks : list Coroutine) : M unit :=
  match tasks with
  | [] => ret tt
  | coro :: rest => run_coroutine coro ;; run_tasks rest
  end.

Definition run_pending : M unit :=
  loop <- gets running_loop ;;
  match loop with
  | None => ret tt
  | Some tasks =>
      modify (set_running_loop (fun _ => Some [])) ;;
      run_tasks tasks
  end.

(** *** Grimoire *)

(** [get_grimoire().record_spell(...)]: one line appended to the spell
    records; a failed write is logged, not raised. *)
Definition record_spell (spell : string) (command result : Dict.t)
    (spell_type : string) (daemon : string) (ok : bool)
    (execution_time : option Q) : M unit :=
  modify (set_spell_records (fun records => records ++
    [ {| g_spell_name := spell; g_command := command; g_result := result;
         g_spell_type := Some spell_type; g_daemon_name := Some daemon;
         g_success := ok; g_execution_time := execution_time |} ])) ;;
  logger_call.

(** *** DaemonRegistry *)

Record ModelConfig : Type := {
  cfg_model : string;
  cfg_provider : ModelProvider;
  cfg_capabilities : list string
}.

Definition MODEL_MAPPINGS (d : DaemonType) : option ModelConfig :=
  match d with
  | CLAUDE => Some {| cfg_model := "claude-3-5-sonnet-20241022";
                      cfg_provider := ANTHROPIC;
                      cfg_capabilities :=
                        ["reasoning"; "analysis"; "code_generation"; "logic"] |}
  | GEMINI => Some {| cfg_model := "gemini-2.0-flash-exp";
                      cfg_provider := GOOGLE;
                      cfg_capabilities :=
                        ["creativity"; "multimodal"; "vision"; "innovation"] |}
  | LIQUIDMETAL => Some {| cfg_model := "liquidmetal-adaptive-v1";
                           cfg_provider := CUSTOM;
                           cfg_capabilities :=
                             ["transformation"; "adaptation"; "flow"; "custom_tasks"] |}
  end.

(** [_initialize_daemons] *)
Definition initial_daemon (d : DaemonType) : Daemon :=
  match d with
  | CLAUDE =>
      {| name := CLAUDE; role := "Keeper of Logic and Reason";
         color_code := "#8B5CF6"; is_summoned := false; invocation_count := 0;
         metadata := Some [ ("element", AStr "Aether");
                            ("domain", AStr "Reasoning and Analysis");
                            ("power_level", AInt 9000);
                            ("model", AStr "claude-3-5-sonnet-20241022") ] |}
  | GEMINI =>
      {| name := GEMINI; role := "Weaver of Dreams and Innovation";
         color_code := "#F59E0B"; is_summoned := false; invocation_count := 0;
         metadata := Some [ ("element", AStr "Fire");
                            ("domain", AStr "Creativity and Multimodality");
                            ("power_level", AInt 8500);
                            ("model", AStr "gemini-2.0-flash-exp") ] |}
  | LIQUIDMETAL =>
      {| name := LIQUIDMETAL; role := "Master of Transformation and Flow";
         color_code := "#06B6D4"; is_summoned := false; invocation_count := 0;
         metadata := Some [ ("element", AStr "Water");
                            ("domain", AStr "Transformation and Adaptation");
                            ("power_level", AInt 9500);
                            ("model", AStr "liquidmetal-adaptive-v1") ] |}
  end.

(** [DaemonState.__init__] *)
Definition initial_state : DaemonState :=
  {| summoned_at := None; last_invoked_at := None; invocation_history := [];
     total_execution_time := 0; mcp_registered := false |}.

(** The world when the process has started: the registry, the MCP client and
    the event bus as their constructors leave them. *)
Definition initial_world (loop : option (list Coroutine)) : World :=
  {| _daemons := list_to_map ((fun d => (d, initial_daemon d)) <$> [CLAUDE; GEMINI; LIQUIDMETAL]);
     _daemon_states := list_to_map ((fun d => (d, initial_state)) <$> [CLAUDE; GEMINI; LIQUIDMETAL]);
     _registered_tools := ∅;
     event_bus := EventBus.init;
     running_loop := loop;
     spell_records := [];
     grimoire_file := [];
     veil_enabled := true;
     clock := 0 |}.

(** [self._daemons[name]] and [self._daemon_states[name]] *)
Definition the_daemon (d : DaemonType) : M Daemon :=
  daemons <- gets _daemons ;;
  match daemons !! d with
  | Some daemon => ret daemon
  | None => raise (KeyError (DaemonType_value d))
  end.

Definition the_state (d : DaemonType) : M DaemonState :=
  states <- gets _daemon_states ;;
  match states !! d with
  | Some state => ret state
  | None => raise (KeyError (DaemonType_value d))
  end.

(** Attribute writes on the stored objects *)
Definition write_daemon (d : DaemonType) (f : Daemon -> Daemon) : M unit :=
  modify (set_daemons (fun daemons => alter f d daemons)).

Definition write_state (d : DaemonType) (f : DaemonState -> DaemonState) : M unit :=
  modify (set_daemon_states (fun states => alter f d states)).

Definition with_role (r : string) (x : Daemon) : Daemon :=
  {| name := name x; role := r; color_code := color_code x;
     is_summoned := is_summoned x; invocation_count := invocation_count x;
     metadata := metadata x |}.

Definition with_color_code (c : string) (x : Daemon) : Daemon :=
  {| name := name x; role := role x; color_code := c;
     is_summoned := is_summoned x; invocation_count := invocation_count x;
     metadata := metadata x |}.

Definition with_is_summoned (b : bool) (x : Daemon) : Daemon :=
  {| name := name x; role := role x; color_code := color_code x;
     is_summoned := b; invocation_count := invocation_count x;
     metadata := metadata x |}.

Definition with_invocation_count (n : Z) (x : Daemon) : Daemon :=
  {| name := name x; role := role x; color_code := color_code x;
     is_summoned := is_summoned x; invocation_count := n;
     metadata := metadata x |}.

Definition with_metadata (m : option Dict.t) (x : Daemon) : Daemon :=
  {| name := name x; role := role x; color_code := color_code x;
     is_summoned := is_summoned x; invocation_count := invocation_count x;
     metadata := m |}.

Definition with_summoned_at (t : option Q) (s : DaemonState) : DaemonState :=
  {| summoned_at := t; last_invoked_at := last_invoked_at s;
     invocation_history := invocation_history s;
     total_execution_time := total_execution_time s;
     mcp_registered := mcp_registered s |}.

Definition with_mcp_registered (b : bool) (s : DaemonState) : DaemonState :=
  {| summoned_at := summoned_at s; last_invoked_at := last_invoked_at s;
     invocation_history := invocation_history s;
     total_execution_time := total_execution_time s;
     mcp_registered := b |}.

(** [DaemonState.record_invocation] *)
Definition record_invocation (d : DaemonType) (task : string)
    (result : MCPToolResult) : M unit :=
  now <- utcnow ;;
  write_state d (fun s =>
    {| summoned_at := summoned_at s;
       last_invoked_at := Some now;
       invocation_history := invocation_history s ++
         [ {| rec_task := task;
              rec_timestamp := mcp_timestamp result;
              rec_execution_time := mcp_execution_time result;
              rec_success := mcp_success result;
              rec_result_summary := Text.take_chars 200 (py_str (mcp_result result)) |} ];
       total_execution_time := total_execution_time s + mcp_execution_time result;
       mcp_registered := mcp_registered s |}).

Definition round3 (x : Q) : Q := round_to 3 x.

Definition opt_time (o : option Q) : Any :=
  match o with Some t => AFloat t | None => ANone end.

(** [DaemonState.get_statistics] *)
Definition get_statistics (daemon : Daemon) (state : DaemonState) : Dict.t :=
  let n := length (invocation_history state) in
  [ ("daemon_name", AStr (DaemonType_value (name daemon)));
    ("is_active", ABool (is_summoned daemon));
    ("summoned_at", opt_time (summoned_at state));
    ("last_invoked_at", opt_time (last_invoked_at state));
    ("total_invocations", AInt (Z.of_nat n));
    ("total_execution_time", AFloat (round3 (total_execution_time state)));
    ("average_execution_time",
      AFloat (match n with
              | O => 0
              | _ => round3 (total_execution_time state / inject_Z (Z.of_nat n))
              end));
    ("mcp_registered", ABool (mcp_registered state)) ].

(** [register_daemon] *)
Definition register_daemon (nm : DaemonType) (mdl : string) (rl : string)
    (color : option string) (caps : option (list string)) : M Daemon :=
  daemons <- gets _daemons ;;
  match daemons !! nm with
  | None => raise (HTTPException 404 (unknown_to_this_realm nm))
  | Some _ =>
      _ <- the_state nm ;;
      (match color with
       | Some c => if Text.truthy c then write_daemon nm (with_color_code c) else ret tt
       | None => ret tt
       end) ;;
      (if Text.truthy rl then write_daemon nm (with_role rl) else ret tt) ;;
      write_daemon nm (fun x =>
        match metadata x with
        | Some (kv :: rest) =>
            with_metadata (Some (Dict.set "model" (AStr mdl) (kv :: rest))) x
        | _ => with_metadata (Some [("model", AStr mdl)]) x
        end) ;;
      daemon <- the_daemon nm ;;
      let model_config := MODEL_MAPPINGS nm in
      let tool_capabilities :=
        match caps with
        | Some (c :: cs) => c :: cs
        | _ => match model_config with Some cfg => cfg_capabilities cfg | None => [] end
        end in
      let prov :=
        match model_config with Some cfg => cfg_provider cfg | None => CUSTOM end in
      ok <- register_tool (DaemonType_value nm) mdl prov tool_capabilities
              (Some [ ("role", AStr (role daemon));
                      ("color_code", AStr (color_code daemon));
                      ("daemon_metadata", opt_dict (metadata daemon)) ]) ;;
      if ok then
        write_state nm (with_mcp_registered true) ;;
        logger_call ;;
        the_daemon nm
      else raise (HTTPException 500 (failed_to_register nm))
  end.

Definition opt_model (cfg : option ModelConfig) : Any :=
  match cfg with Some c => AStr (cfg_model c) | None => ANone end.

(** The two [except] clauses that [summon], [invoke_daemon] and
    [banish_daemon] each end with: build the failure phrase (from
    [exc.detail] for an [HTTPException], from [str(exc)] otherwise), hand the
    failure event and the voice line to [_safe_create_task], then raise
    again ([reraise] is what the second clause raises). *)
Definition on_failure {A} (nm : DaemonType)
    (http_phrase other_phrase : string -> string)
    (failure_event : Dict.t -> Coroutine)
    (extra : Dict.t) (context : string)
    (reraise : Exc -> Exc) (exc : Exc) : M A :=
  let error :=
    match exc with HTTPException _ detail => Detail_str detail | _ => Exc_str exc end in
  let failure_phrase :=
    if is_HTTPException exc then http_phrase error else other_phrase error in
  let failure_metadata :=
    [ ("error", AStr error); ("failure_phrase", AStr failure_phrase) ]
    ++ extra ++ [ ("sync_context", AStr context) ] in
  _safe_create_task (failure_event failure_metadata) ;;
  _safe_create_task (co_play_voice_line nm VOICE_FAILURE (Some failure_phrase)) ;;
  raise (if is_HTTPException exc then exc else reraise exc).

(** [summon] *)
Definition summon (daemon_name : DaemonType) : M Daemon :=
  try_except
    (daemons <- gets _daemons ;;
     match daemons !! daemon_name with
     | None => raise (HTTPException 404 (unknown_to_this_realm daemon_name))
     | Some daemon =>
         state <- the_state daemon_name ;;
         if is_summoned daemon then
           raise (HTTPException 400 (already_walks_among_us daemon_name))
         else
           write_daemon daemon_name (with_is_summoned true) ;;
           write_daemon daemon_name (with_invocation_count 0) ;;
           now <- utcnow ;;
           write_state daemon_name (with_summoned_at (Some now)) ;;
           let model_config := MODEL_MAPPINGS daemon_name in
           (if negb (mcp_registered state) then
              match model_config with
              | Some cfg =>
                  _ <- register_daemon daemon_name (cfg_model cfg) (role daemon)
                         None (Some (cfg_capabilities cfg)) ;;
                  ret tt
              | None => ret tt
              end
            else ret tt) ;;
           logger_call ;;
           _safe_create_task (co_emit_summon (DaemonType_value daemon_name) true
             [ ("model", opt_model model_config); ("sync_context", AStr "summon") ]) ;;
           _safe_create_task (co_play_voice_line daemon_name VOICE_SUMMON None) ;;
           daemon <- the_daemon daemon_name ;;
           record_spell ("summon_" +:+ DaemonType_value daemon_name)
             [ ("daemon_name", AStr (DaemonType_value daemon_name)) ]
             [ ("status", AStr "summoned");
               ("daemon", AStr (DaemonType_value (name daemon))) ]
             "summon" (DaemonType_value daemon_name) true None ;;
           ret daemon
     end)
    (on_failure daemon_name
       (fun detail => "The summoning of " +:+ DaemonType_value daemon_name
                      +:+ " falters: " +:+ detail)
       (fun err => "Unseen forces disrupt " +:+ DaemonType_value daemon_name
                   +:+ ": " +:+ err)
       (fun meta => co_emit_summon (DaemonType_value daemon_name) false meta)
       [] "summon" (fun e => e)).

(** [summon_daemon] *)
Definition summon_daemon (nm : DaemonType) : M Daemon := summon nm.

(** What [invoke_daemon] returns *)
Record InvokeResult : Type := {
  res_daemon : Daemon;
  res_result : Any;
  res_execution_time : Q;
  res_success : bool;
  res_metadata : Dict.t;
  res_invocation_number : Z
}.

(** [invoke_daemon] *)
Definition invoke_daemon (nm : DaemonType) (task : string)
    (parameters : option Dict.t) : M InvokeResult :=
  try_except
    (daemons <- gets _daemons ;;
     match daemons !! nm with
     | None => raise (HTTPException 404 (unknown_to_this_realm nm))
     | Some daemon =>
         state <- the_state nm ;;
         if negb (is_summoned daemon) then
           raise (HTTPException 400 (slumbers_in_the_void nm))
         else if negb (mcp_registered state) then
           raise (HTTPException 500 (not_registered_with_MCP nm))
         else
           result <- invoke_tool (DaemonType_value nm) task parameters ;;
           write_daemon nm (fun x => with_invocation_count (invocation_count x + 1) x) ;;
           record_invocation nm task result ;;
           logger_call ;;
           daemon <- the_daemon nm ;;
           let success_flag := mcp_success result in
           let meta :=
             [ ("parameters", opt_dict parameters);
               ("invocation_number", AInt (invocation_count daemon));
               ("sync_context", AStr "invoke") ] in
           meta <-
             (if success_flag then
                _safe_create_task (co_play_voice_line nm VOICE_INVOKE None) ;;
                ret (Dict.set "success_payload" (mcp_result result) meta)
              else
                let failure_phrase :=
                  DaemonType_value nm +:+ " reports failure while invoking '"
                  +:+ task +:+ "'" in
                _safe_create_task
                  (co_play_voice_line nm VOICE_FAILURE (Some failure_phrase)) ;;
                ret (Dict.set "failure_phrase" (AStr failure_phrase)
                       (Dict.set "error" (mcp_result result) meta))) ;;
           _safe_create_task (co_emit_invoke (DaemonType_value nm) task success_flag
             (Some (mcp_execution_time result)) meta) ;;
           record_spell ("invoke_" +:+ DaemonType_value nm)
             [ ("daemon_name", AStr (DaemonType_value nm)); ("task", AStr task);
               ("parameters", opt_dict parameters) ]
             [ ("output", mcp_result result);
               ("success", ABool (mcp_success result)) ]
             "invoke" (DaemonType_value nm) (mcp_success result)
             (Some (mcp_execution_time result)) ;;
           ret {| res_daemon := daemon;
                  res_result := mcp_result result;
                  res_execution_time := mcp_execution_time result;
                  res_success := mcp_success result;
                  res_metadata := mcp_metadata result;
                  res_invocation_number := invocation_count daemon |}
     end)
    (on_failure nm
       (fun detail => "Invocation of " +:+ DaemonType_value nm
                      +:+ " falters: " +:+ detail)
       (fun err => "Arcane backlash disrupts " +:+ DaemonType_value nm
                   +:+ ": " +:+ err)
       (fun meta => co_emit_invoke (DaemonType_value nm) task false None meta)
       [ ("task", AStr task) ] "invoke"
       (fun e => HTTPException 500 (invocation_failed (Exc_str e)))).

(** [invoke], the legacy alias *)
Definition invoke (daemon_name : DaemonType) (task : string) : M Daemon :=
  result <- invoke_daemon daemon_name task None ;;
  ret (res_daemon result).

(** What [banish_daemon] returns *)
Record BanishResult : Type := {
  ban_daemon : Daemon;
  ban_statistics : Dict.t;
  ban_message : string
}.

Definition stat_int (k : string) (stats : Dict.t) : Z :=
  match Dict.get k stats with Some (AInt z) => z | _ => 0%Z end.

Definition stat_float (k : string) (stats : Dict.t) : Q :=
  match Dict.get k stats with Some (AFloat q) => q | _ => 0 end.

(** [banish_daemon] *)
Definition banish_daemon (nm : DaemonType) : M BanishResult :=
  try_except
    (daemons <- gets _daemons ;;
     match daemons !! nm with
     | None => raise (HTTPException 404 (unknown_to_this_realm nm))
     | Some daemon =>
         state <- the_state nm ;;
         if negb (is_summoned daemon) then
           raise (HTTPException 400 (not_present_in_this_realm nm))
         else
           let statistics := get_statistics daemon state in
           (if mcp_registered state then
              _ <- unregister_tool (DaemonType_value nm) ;;
              write_state nm (with_mcp_registered false)
            else ret tt) ;;
           write_daemon nm (with_is_summoned false) ;;
           logger_call ;;
           _safe_create_task (co_emit_banish (DaemonType_value nm)
             (stat_int "total_invocations" statistics)
             (stat_float "total_execution_time" statistics) true
             (Dict.set "sync_context" (AStr "banish") statistics)) ;;
           _safe_create_task (co_play_voice_line nm VOICE_BANISH None) ;;
           record_spell ("banish_" +:+ DaemonType_value nm)
             [ ("daemon_name", AStr (DaemonType_value nm)) ]
             [ ("status", AStr "banished"); ("statistics", ADict statistics) ]
             "banish" (DaemonType_value nm) true
             (Some (stat_float "total_execution_time" statistics)) ;;
           daemon <- the_daemon nm ;;
           ret {| ban_daemon := daemon;
                  ban_statistics := statistics;
                  ban_message :=
                    EventBus.sparkle +:+ " The daemon " +:+ DaemonType_value nm
                    +:+ " returns to the ether, its energies dispersed. "
                    +:+ EventBus.sparkle |}
     end)
    (on_failure nm
       (fun detail => "Banishment of " +:+ DaemonType_value nm
                      +:+ " fails: " +:+ detail)
       (fun err => "A banishment backlash surrounds " +:+ DaemonType_value nm
                   +:+ ": " +:+ err)
       (fun meta => co_emit_banish (DaemonType_value nm) 0 0 false meta)
       [] "banish" (fun e => e)).

(** [banish], the legacy alias *)
Definition banish (daemon_name : DaemonType) : M Daemon :=
  result <- banish_daemon daemon_name ;;
  ret (ban_daemon result).

(** *** Read access *)

(** [RaindropMCPClient.get_registered_tools], [is_tool_registered] *)
Definition get_registered_tools : M (gmap string ToolConfig) :=
  gets _registered_tools.

Definition is_tool_registered (tool : string) : M bool :=
  tools <- gets _registered_tools ;;
  ret (bool_decide (is_Some (tools !! tool))).

(** [get_daemon], [get_daemon_state], [get_all_daemons] *)
Definition get_daemon (daemon_name : DaemonType) : M (option Daemon) :=
  daemons <- gets _daemons ;; ret (daemons !! daemon_name).

Definition get_daemon_state (daemon_name : DaemonType) : M (option DaemonState) :=
  states <- gets _daemon_states ;; ret (states !! daemon_name).

Definition get_all_daemons : M (gmap DaemonType Daemon) := gets _daemons.

(** [get_active_daemons] *)
Definition get_active_daemons : M (gmap DaemonType Daemon) :=
  daemons <- gets _daemons ;;
  ret (filter (fun kv => is_summoned (snd kv) = true) daemons).

(** The keys of [_daemons] and [_daemon_states] in the order
    [_initialize_daemons] inserted them; no key is ever removed. *)
Definition daemon_keys : list DaemonType := [CLAUDE; GEMINI; LIQUIDMETAL].

Definition values {A} (m : gmap DaemonType A) : list A :=
  omap (fun k => m !! k) daemon_keys.

(** What [get_registry_statistics] returns *)
Record RegistryStatistics : Type := {
  total_daemons : Z;
  active_daemons : Z;
  dormant_daemons : Z;
  total_invocations : Z;
  mcp_registered_daemons : Z;
  daemon_statistics : list (string * Dict.t)
}.

Definition count_where {A} (p : A -> bool) (l : list A) : Z :=
  Z.of_nat (length (List.filter p l)).

(** [get_registry_statistics]; the statistics of a state are taken with
    the daemon it holds, which is the one stored under the same key. *)
Definition get_registry_statistics : M RegistryStatistics :=
  daemons <- gets _daemons ;;
  states <- gets _daemon_states ;;
  let active_count := count_where is_summoned (values daemons) in
  ret {| total_daemons := Z.of_nat (size daemons);
         active_daemons := active_count;
         dormant_daemons := Z.of_nat (size daemons) - active_count;
         total_invocations :=
           foldr Z.add 0%Z
             ((fun state => Z.of_nat (length (invocation_history state)))
              <$> values states);
         mcp_registered_daemons := count_where mcp_registered (values states);
         daemon_statistics :=
           omap (fun k =>
                   match states !! k, daemons !! k with
                   | Some state, Some daemon =>
                       Some (DaemonType_value k, get_statistics daemon state)
                   | _, _ => None
                   end) daemon_keys |}.

End WithEnv.
End Registry.


(** ** Payload validation ([ArcaneOS/core/safety.py]) *)

Module Safety.
Section WithEnv.
Context {env : Env}.

(** [REDACT_PATTERN = re.compile(r"([A-Za-z]:\\[^\s]+|/[^\s]+)")] *)
Definition REDACT_PATTERN : Re.regex :=
  Re.Grp 1
    (Re.Alt
       (Re.seq [Re.Cls Text.is_ascii_letter; Re.Chr ":"; Re.Chr "\"; Re.Plus Re.nonspace])
       (Re.seq [Re.Chr "/"; Re.Plus Re.nonspace])).

Definition redaction_marker : string := "[path-redacted]".

(** [_log_rejection]: one JSON line appended to [GRIMOIRE_FILE]. *)
Definition _log_rejection (reason : string) (payload : Any) : M unit :=
  modify (set_grimoire_file (fun lines => lines ++
    [ {| log_event := "REJECTED_PAYLOAD"; log_reason := reason;
         log_payload := payload |} ])).

(** [_redact_paths] *)
Definition _redact_paths (text : string) : string :=
  Re.sub false REDACT_PATTERN redaction_marker text.

(** [directive.dict()] *)
Definition directive_dict (d : ArchonDirective) : Dict.t :=
  [ ("intent", AStr (Intent_value (intent d)));
    ("daemon", AStr (DaemonChoice_value (daemon d)));
    ("task", AStr (task d));
    ("safety", ADict [ ("allow_shell", ABool (allow_shell (safety d)));
                       ("allow_net", ABool (allow_net (safety d))) ]);
    ("style", ADict [ ("fantasy", ABool (fantasy (style d)));
                      ("voice", AStr (Voice_value (voice (style d)))) ]);
    ("parameters", match parameters d with Some p => ADict p | None => ANone end);
    ("plan", AList (AStr <$> plan d)) ].

(** [cleaned["style"]["fantasy"] = False], after
    [cleaned.setdefault("style", {})] *)
Definition clear_fantasy (cleaned : Dict.t) : Dict.t :=
  let cleaned := Dict.setdefault "style" (ADict []) cleaned in
  match Dict.get "style" cleaned with
  | Some (ADict st) =>
      Dict.set "style" (ADict (Dict.set "fantasy" (ABool false) st)) cleaned
  | _ => cleaned
  end.

(** The test of line 60: ["shell" in text.lower()] for some text *)
Definition asks_for_shell (text_sources : list string) : bool :=
  existsb (fun text => Text.str_in "shell" (Text.lower text)) text_sources.

(** [validate_archon_payload] *)
Definition validate_archon_payload (payload : Any) (fantasy_mode : bool)
    : M Dict.t :=
  match parse_obj payload with
  | None =>
      _log_rejection "schema_validation_error" payload ;;
      raise (ValueError "Invalid Archon directive")
  | Some directive =>
      (if negb (allow_shell (safety directive)) then
         let text_sources := task directive :: plan directive in
         if asks_for_shell text_sources then
           _log_rejection "shell_command_disallowed" payload ;;
           raise (ValueError "Shell execution requested but disallowed")
         else ret tt
       else ret tt) ;;
      let cleaned := directive_dict directive in
      if fantasy_mode then
        ret (Dict.set "plan" (AList (AStr <$> (_redact_paths <$> plan directive))) cleaned)
      else
        ret (clear_fantasy cleaned)
  end.

End WithEnv.
End Safety.

(** ** The spell parser ([app/services/spell_parser.py]) *)

Module SpellParser.

(** [class SpellAction(str, Enum)] *)
Inductive SpellAction : Type := SUMMON | INVOKE | BANISH | QUERY.

Definition SpellAction_value (a : SpellAction) : string :=
  match a with
  | SUMMON => "summon" | INVOKE => "invoke" | BANISH => "banish" | QUERY => "query"
  end.

(** [class ParsedSpell] *)
Record ParsedSpell : Type := {
  action : SpellAction;
  daemon : option string;
  task : option string;
  parameters : option Dict.t;
  confidence : Q;
  raw_input : string
}.

(** [ParsedSpell.to_dict] *)
Definition to_dict (p : ParsedSpell) : Dict.t :=
  let result :=
    [ ("action", AStr (SpellAction_value (action p)));
      ("daemon", Dict.opt_str (daemon p));
      ("confidence", AFloat (confidence p));
      ("raw_input", AStr (raw_input p)) ] in
  let result :=
    match task p with
    | Some t => if Text.truthy t then Dict.set "task" (AStr t) result else result
    | None => result
    end in
  match parameters p with
  | Some (kv :: rest) => Dict.set "parameters" (ADict (kv :: rest)) result
  | _ => result
  end.

(** [class SpellPattern]; every pattern is compiled with [re.IGNORECASE]. *)
Record SpellPattern : Type := {
  pattern : Re.regex;
  pattern_action : SpellAction;
  pattern_groups : list (string * nat);
  priority : Z
}.

(** [SpellPattern.match]: the fields of the leftmost match whose group took
    part and is not empty, stripped. *)
Definition pattern_match (p : SpellPattern) (text : string)
    : option (list (string * string)) :=
  match Re.search true (pattern p) text with
  | None => None
  | Some match_obj =>
      Some (omap (fun '(field, group_index) =>
                    match Re.get_group group_index (Re.m_groups match_obj) with
                    | Some value =>
                        if Text.truthy value then Some (field, Text.strip value)
                        else None
                    | None => None
                    end)
                 (pattern_groups p))
  end.

Definition the_opt : Re.regex :=
  Re.Opt (Re.Cat (Re.lit "the") (Re.Plus Re.space)).

Definition daemons_opt : Re.regex :=
  Re.Cat (Re.lit "daemon") (Re.Opt (Re.Chr "s")).

(** [verb\s+(\w+)\s+link\s+(.+)] *)
Definition verb_daemon_task (verb link : string) : Re.regex :=
  Re.seq [ Re.lit verb; Re.Plus Re.space; Re.Grp 1 (Re.Plus Re.word);
           Re.Plus Re.space; Re.lit link; Re.Plus Re.space;
           Re.Grp 2 (Re.Plus Re.dot) ].

(** [verb\s+(?:the\s+)?(\w+)] followed by [tail] *)
Definition verb_the_daemon (verb : list Re.regex) (tail : list Re.regex) : Re.regex :=
  Re.seq (verb ++ [ Re.Plus Re.space; the_opt; Re.Grp 1 (Re.Plus Re.word) ] ++ tail).

Definition both : list (string * nat) := [ ("daemon", 1%nat); ("task", 2%nat) ].
Definition only_daemon : list (string * nat) := [ ("daemon", 1%nat) ].

Definition mk (r : Re.regex) (a : SpellAction) (g : list (string * nat)) (p : Z)
    : SpellPattern :=
  {| pattern := r; pattern_action := a; pattern_groups := g; priority := p |}.

(** The patterns in the order [_initialize_patterns] appends them *)
Definition declared_patterns : list SpellPattern :=
  [ (* INVOKE *)
    mk (verb_daemon_task "invoke" "to") INVOKE both 100;
    mk (verb_daemon_task "ask" "to") INVOKE both 95;
    mk (verb_daemon_task "tell" "to") INVOKE both 95;
    mk (Re.seq [ Re.lit "command"; Re.Plus Re.space; Re.Grp 1 (Re.Plus Re.word);
                 Re.Chr ":"; Re.Star Re.space; Re.Grp 2 (Re.Plus Re.dot) ])
       INVOKE both 90;
    mk (Re.seq [ Re.Bol; Re.Grp 1 (Re.Plus Re.word); Re.Chr ",";
                 Re.Plus Re.space; Re.Grp 2 (Re.Plus Re.dot) ])
       INVOKE both 50;
    mk (verb_daemon_task "invoke" "for") INVOKE both 85;
    (* SUMMON *)
    mk (verb_the_daemon [Re.lit "summon"]
          [Re.Opt (Re.Cat (Re.Plus Re.space) (Re.lit "daemon"))])
       SUMMON only_daemon 80;
    mk (verb_the_daemon [Re.lit "call"; Re.Plus Re.space; Re.lit "forth"] [])
       SUMMON only_daemon 75;
    mk (verb_the_daemon [Re.lit "materialize"] []) SUMMON only_daemon 75;
    mk (verb_the_daemon [Re.lit "awaken"] []) SUMMON only_daemon 75;
    mk (verb_the_daemon [Re.lit "bring"]
          [Re.Plus Re.space; Re.lit "to"; Re.Plus Re.space; Re.lit "life"])
       SUMMON only_daemon 70;
    (* BANISH *)
    mk (verb_the_daemon [Re.lit "banish"]
          [Re.Opt (Re.Cat (Re.Plus Re.space) (Re.lit "daemon"))])
       BANISH only_daemon 80;
    mk (verb_the_daemon [Re.lit "dismiss"] []) BANISH only_daemon 75;
    mk (verb_the_daemon [Re.lit "send"] [Re.Plus Re.space; Re.lit "back"])
       BANISH only_daemon 75;
    mk (verb_the_daemon [Re.lit "release"] []) BANISH only_daemon 70;
    (* QUERY *)
    mk (Re.seq [ Re.Bol; Re.lit "show"; Re.Plus Re.space;
                 Re.Opt (Re.Cat (Re.lit "me") (Re.Plus Re.space));
                 Re.Opt (Re.Cat (Re.lit "all") (Re.Plus Re.space));
                 the_opt; daemons_opt ])
       QUERY [] 95;
    mk (Re.seq [ Re.Bol; Re.lit "list"; Re.Plus Re.space;
                 Re.Opt (Re.Cat (Re.lit "all") (Re.Plus Re.space));
                 the_opt; daemons_opt ])
       QUERY [] 95;
    mk (Re.seq [ Re.Bol; Re.lit "what"; Re.Plus Re.space; daemons_opt;
                 Re.Plus Re.space;
                 Re.Opt (Re.Cat (Re.lit "are") (Re.Plus Re.space));
                 Re.lit "active" ])
       QUERY [] 90;
    mk (Re.seq [ Re.lit "status"; Re.Plus Re.space; Re.lit "of"; Re.Plus Re.space;
                 the_opt; Re.Grp 1 (Re.Plus Re.dot) ])
       QUERY only_daemon 65;
    mk (Re.seq [ Re.lit "check"; Re.Plus Re.space;
                 Re.Opt (Re.Cat (Re.lit "on") (Re.Plus Re.space));
                 the_opt; Re.Grp 1 (Re.Plus Re.dot) ])
       QUERY only_daemon 60 ].

(** [list.sort(key=priority, reverse=True)]: stable, so patterns of equal
    priority keep the order in which they were appended. *)
Fixpoint insert_by_priority (p : SpellPattern) (sorted : list SpellPattern)
    : list SpellPattern :=
  match sorted with
  | [] => [p]
  | q :: rest =>
      if (priority q <? priority p)%Z then p :: q :: rest
      else q :: insert_by_priority p rest
  end.

Definition sort_by_priority (l : list SpellPattern) : list SpellPattern :=
  fold_left (fun sorted p => insert_by_priority p sorted) l [].

(** [self.patterns] after [_initialize_patterns] *)
Definition patterns : list SpellPattern := sort_by_priority declared_patterns.

Definition dquote : ascii := ascii_of_N 34.

(** [self.param_pattern], compiled with [re.IGNORECASE] *)
Definition param_pattern : Re.regex :=
  Re.seq [ Re.lit "with"; Re.Plus Re.space; Re.Grp 1 (Re.Plus Re.word);
           Re.Star Re.space; Re.Chr "="; Re.Star Re.space;
           Re.Alt (Re.seq [ Re.Chr dquote; Re.Grp 2 (Re.Star (Re.other_than dquote));
                            Re.Chr dquote ])
             (Re.Alt (Re.seq [ Re.Chr "'"; Re.Grp 3 (Re.Star (Re.other_than "'"));
                               Re.Chr "'" ])
                (Re.Grp 4 (Re.Plus Re.nonspace))) ].

Definition DAEMON_ALIASES : list (string * list string) :=
  [ ("claude", ["claude"; "logic keeper"; "reasoner"; "analyzer"]);
    ("gemini", ["gemini"; "creative"; "innovator"; "dreamer"]);
    ("liquidmetal", ["liquidmetal"; "liquid metal"; "transformer"; "shapeshifter"]) ].

Definition str_mem (s : string) (l : list string) : bool :=
  existsb (String.eqb s) l.

(** [normalize_daemon_name] *)
Definition normalize_daemon_name (raw_name : string) : option string :=
  let name_lower := Text.strip (Text.lower raw_name) in
  match find (fun '(_, aliases) => str_mem name_lower aliases) DAEMON_ALIASES with
  | Some (canonical_name, _) => Some canonical_name
  | None =>
      match find (fun '(_, aliases) =>
                    existsb (fun alias => Text.str_in alias name_lower
                                          || Text.str_in name_lower alias) aliases)
                 DAEMON_ALIASES with
      | Some (canonical_name, _) => Some canonical_name
      | None => Some name_lower
      end
  end.

Section WithEnv.
Context {env : Env}.

(** The typing of one parameter value, lines 292 to 300; [int] may raise. *)
Definition coerce (param_value_str : string) : Outcome Any :=
  let lowered := Text.lower param_value_str in
  if String.eqb lowered "true" || String.eqb lowered "false" then
    Returned (ABool (String.eqb lowered "true"))
  else if Text.isdigit param_value_str then
    match Text.py_int param_value_str with
    | Some n => Returned (AInt n)
    | None =>
        Raised (ValueError ("invalid literal for int() with base 10: '"
                            +:+ param_value_str +:+ "'"))
    end
  else
    match py_float param_value_str with
    | Some x => Returned (AFloat x)
    | None => Returned (AStr param_value_str)
    end.

(** [next((g for g in match.groups()[1:] if g is not None), None)] *)
Definition value_group (m : Re.Match) : option string :=
  match Re.get_group 2 (Re.m_groups m) with
  | Some g => Some g
  | None =>
      match Re.get_group 3 (Re.m_groups m) with
      | Some g => Some g
      | None => Re.get_group 4 (Re.m_groups m)
      end
  end.

(** The body of the loop of [extract_parameters] over the matches *)
Fixpoint absorb (matches : list Re.Match) (params : Dict.t) (cleaned_task : string)
    : Outcome (string * Dict.t) :=
  match matches with
  | [] => Returned (cleaned_task, params)
  | m :: rest =>
      let param_name := default EmptyString (Re.get_group 1 (Re.m_groups m)) in
      match value_group m with
      | Some param_value_str =>
          match coerce param_value_str with
          | Returned param_value =>
              absorb rest (Dict.set param_name param_value params)
                (Text.strip (Text.remove_all (Re.m_text m) cleaned_task))
          | Raised e => Raised e
          end
      | None => absorb rest params cleaned_task
      end
  end.

(** [extract_parameters] *)
Definition extract_parameters (task_description : string)
    : Outcome (string * Dict.t) :=
  match absorb (Re.finditer true param_pattern task_description) [] task_description with
  | Returned (cleaned_task, params) =>
      Returned (Text.strip_chars " ,;"
                  (Re.sub false (Re.Plus Re.space) " " cleaned_task), params)
  | Raised e => Raised e
  end.

Definition field (k : string) (fields : list (string * string)) : option string :=
  snd <$> find (fun kv => String.eqb k (fst kv)) fields.

(** The loop of [parse] over [self.patterns]: the first pattern that
    matches decides. *)
Fixpoint first_match (ps : list SpellPattern) (cleaned_spell_text : string)
    : Outcome ParsedSpell :=
  match ps with
  | [] =>
      Raised (ParseError ("Unable to parse spell: '" +:+ cleaned_spell_text +:+ "'. "
        +:+ "Try commands like: 'summon claude', 'invoke gemini to create art', "
        +:+ "or 'banish liquidmetal'."))
  | p :: rest =>
      match pattern_match p cleaned_spell_text with
      | None => first_match rest cleaned_spell_text
      | Some matched_fields =>
          let daemon_name :=
            match field "daemon" matched_fields with
            | Some d => normalize_daemon_name d
            | None => None
            end in
          let conf := Qmin 1 (inject_Z (priority p) / 100) in
          match field "task" matched_fields with
          | Some raw_task =>
              match extract_parameters raw_task with
              | Returned (task_description, task_parameters) =>
                  Returned {| action := pattern_action p; daemon := daemon_name;
                              task := Some task_description;
                              parameters := Some task_parameters;
                              confidence := conf;
                              raw_input := cleaned_spell_text |}
              | Raised e => Raised e
              end
          | None =>
              Returned {| action := pattern_action p; daemon := daemon_name;
                          task := None; parameters := None;
                          confidence := conf;
                          raw_input := cleaned_spell_text |}
          end
      end
  end.

(** [parse] *)
Definition parse (spell_text : string) : Outcome ParsedSpell :=
  if negb (Text.truthy spell_text) || negb (Text.truthy (Text.strip spell_text)) then
    Raised (ParseError "Empty spell text provided.")
  else first_match patterns (Text.strip spell_text).

(** [parse_batch]: a text that raises [ParseError] is skipped; any other
    exception ends the loop and leaves the function. *)
Fixpoint parse_batch (spell_texts : list string) : Outcome (list ParsedSpell) :=
  match spell_texts with
  | [] => Returned []
  | spell_text :: rest =>
      match parse spell_text with
      | Returned parsed =>
          match parse_batch rest with
          | Returned results => Returned (parsed :: results)
          | Raised e => Raised e
          end
      | Raised (ParseError _) => parse_batch rest
      | Raised e => Raised e
      end
  end.

End WithEnv.
End SpellParser.

(** ** The orchestrator ([ArcaneOS/core/archon_router.py]) *)

Module Router.

Definition SIMPLE_LATENCY_BUDGET : Q := 6 # 10.
Definition CODEGEN_LATENCY_BUDGET : Q := 25 # 10.

(** [class ArchonDecision].  [plan_in_raw] records that [plan] is the very
    list stored under [raw["plan"]], so that an insertion into one is seen
    through the other. *)
Record ArchonDecision : Type := {
  intent : string;
  target_daemon : option DaemonType;
  task : option string;
  parameters : option Dict.t;
  plan : list string;
  plan_in_raw : bool;
  narration : string;
  reasoning : string;
  confidence : option Q;
  fallback_used : bool;
  raw : Dict.t;
  parsed_summary : Dict.t
}.

Definition as_str (v : option Any) (otherwise : string) : string :=
  match v with Some (AStr s) => s | _ => otherwise end.

Definition as_opt_str (v : option Any) : option string :=
  match v with Some (AStr s) => Some s | _ => None end.

Definition as_opt_dict (v : option Any) (otherwise : option Dict.t) : option Dict.t :=
  match v with
  | Some (ADict d) => Some d
  | Some _ => None
  | None => otherwise
  end.

Definition as_strs (v : option Any) : list string :=
  match v with
  | Some (AList l) => omap (fun x => match x with AStr s => Some s | _ => None end) l
  | _ => []
  end.

Definition as_opt_float (v : option Any) : option Q :=
  match v with
  | Some (AFloat q) => Some q
  | Some (AInt z) => Some (inject_Z z)
  | _ => None
  end.

Definition has_key (k : string) (d : Dict.t) : bool :=
  match Dict.get k d with Some _ => true | None => false end.

(** [latency > budget] *)
Definition exceeds (latency budget : Q) : bool := negb (Qle_bool latency budget).

(** [_apply_latency_policy] *)
Definition _apply_latency_policy (decision : ArchonDecision) (latency : Q)
    : ArchonDecision :=
  let is_codegen :=
    String.eqb (intent decision) "invoke"
    && bool_decide (target_daemon decision = Some CLAUDE) in
  let simple_spell := negb is_codegen in
  let reroute (step : string) :=
    {| intent := intent decision;
       target_daemon := Some LIQUIDMETAL;
       task := task decision;
       parameters := parameters decision;
       plan := step :: plan decision;
       plan_in_raw := plan_in_raw decision;
       narration := narration decision;
       reasoning := reasoning decision;
       confidence := confidence decision;
       fallback_used := true;
       raw := Dict.set "daemon" (AStr "liquidmetal")
                (if plan_in_raw decision
                 then Dict.set "plan" (AList (AStr <$> step :: plan decision))
                        (raw decision)
                 else raw decision);
       parsed_summary := parsed_summary decision |} in
  if simple_spell && exceeds latency SIMPLE_LATENCY_BUDGET then
    reroute "Latency exceeded simple budget; rerouting to LiquidMetal."
  else if is_codegen && exceeds latency CODEGEN_LATENCY_BUDGET then
    reroute "Codegen latency too high; delegating to LiquidMetal summary."
  else decision.

Section WithEnv.
Context {env : Env}.

(** [_decision_from_payload], on the dict that [validate_archon_payload]
    returned *)
Definition _decision_from_payload (spell_text : string) (payload : Dict.t)
    : ArchonDecision :=
  let intent := Text.lower (as_str (Dict.get "intent" payload) "") in
  let daemon_value := as_str (Dict.get "daemon" payload) "none" in
  let target_daemon := DaemonType_of_value daemon_value in
  let task := as_opt_str (Dict.get "task" payload) in
  let plan := as_strs (Dict.get "plan" payload) in
  let style_fantasy :=
    match Dict.get "style" payload with
    | Some (ADict st) =>
        match Dict.get "fantasy" st with
        | Some v => EventBus.Any_truthy v
        | None => true
        end
    | _ => true
    end in
  {| intent := intent;
     target_daemon := target_daemon;
     task := task;
     parameters := as_opt_dict (Dict.get "parameters" payload) (Some []);
     plan := plan;
     plan_in_raw := has_key "plan" payload;
     narration :=
       if style_fantasy then archon_base_narration settings
       else as_str (Dict.get "reasoning" payload) "";
     reasoning := as_str (Dict.get "reasoning" payload) "";
     confidence := as_opt_float (Dict.get "confidence" payload);
     fallback_used := false;
     raw := payload;
     parsed_summary :=
       [ ("action", AStr intent);
         ("daemon", Dict.opt_str (DaemonType_value <$> target_daemon));
         ("task", Dict.opt_str task);
         ("parameters", default ANone (Dict.get "parameters" payload));
         ("raw_input", AStr spell_text) ] |}.

(** [_decision_from_spell_parser] *)
Definition _decision_from_spell_parser (spell_text : string) : M ArchonDecision :=
  match SpellParser.parse spell_text with
  | Returned parsed =>
      fantasy_mode <- is_fantasy_mode ;;
      let target :=
        match SpellParser.daemon parsed with
        | Some d => if Text.truthy d then DaemonType_of_value d else None
        | None => None
        end in
      let raw := SpellParser.to_dict parsed in
      ret {| intent := SpellParser.SpellAction_value (SpellParser.action parsed);
             target_daemon := target;
             task := SpellParser.task parsed;
             parameters := Some (default [] (SpellParser.parameters parsed));
             plan := [];
             plan_in_raw := false;
             narration :=
               if fantasy_mode then
                 archon_role_name settings
                 +:+ " contemplates your words, relying on ancient heuristics."
               else "parser_fallback";
             reasoning := "Fallback spell parser engaged.";
             confidence := Some (6 # 10);
             fallback_used := true;
             raw := raw;
             parsed_summary := Dict.set "raw_input" (AStr spell_text) raw |}
  | Raised (ParseError msg) => raise (HTTPException 400 (detail_text msg))
  | Raised e => raise e
  end.

Definition newline : string := String (ascii_of_N 10) EmptyString.
Definition quote : string := String (ascii_of_N 34) EmptyString.

(** [type(x).__name__] *)
Definition type_name (v : Any) : string :=
  match v with
  | ANone => "NoneType" | ABool _ => "bool" | AInt _ => "int"
  | AFloat _ => "float" | AStr _ => "str" | AList _ => "list"
  | ADict _ => "dict"
  end.

(** One attempt of [_request_archon_directive]: the payload and the latency
    of this attempt, or [None] when the output is missing or falsy, is no
    JSON, or is JSON but no object.  An output that is truthy and no str
    makes [json.loads] raise [TypeError], which the loop does not catch. *)
Definition attempt (prompt spell_text : string) : M (option (Dict.t * Q)) :=
  started <- utcnow ;;
  let task :=
    prompt +:+ newline +:+ newline +:+ "User Spell: " +:+ quote +:+ spell_text
    +:+ quote +:+ newline +:+ "Remember: respond with strict JSON only." in
  result <- Registry.invoke_tool (archon_tool_name settings) task
              (Some [ ("mode", AStr "orchestration");
                      ("model", AStr (archon_model_id settings)) ]) ;;
  finished <- utcnow ;;
  let latency := (finished - started)%Q in
  let raw_output :=
    match mcp_result result with
    | ADict d => Dict.get "output" d
    | _ => None
    end in
  match raw_output with
  | Some (AStr out) =>
      if Text.truthy out then
        match json_loads out with
        | Some (ADict payload) =>
            ret (Some (Dict.setdefault "plan" (AList []) payload, latency))
        | _ => ret None
        end
      else ret None
  | Some raw_output =>
      if EventBus.Any_truthy raw_output then
        raise (OtherError ("the JSON object must be str, bytes or bytearray, not "
                           +:+ type_name raw_output))
      else ret None
  | None => ret None
  end.

(** [_request_archon_directive]: the plain prompt, then the stricter one.
    The message of the final [ValueError] goes on with the last error met,
    which is not held here. *)
Definition _request_archon_directive (spell_text : string) : M (Dict.t * Q) :=
  let system_prompt := archon_system_prompt settings in
  first <- attempt system_prompt spell_text ;;
  match first with
  | Some answer => ret answer
  | None =>
      second <- attempt (system_prompt +:+ newline +:+ "Return only JSON. No prose.")
                  spell_text ;;
      match second with
      | Some answer => ret answer
      | None => raise (ValueError "invalid_archon_output")
      end
  end.

(** [_register_archon_tool]; the value returned is the new
    [self._tool_registered]. *)
Definition _register_archon_tool (tool_registered : bool) : M bool :=
  if tool_registered then ret true
  else
    try_except
      (success <- Registry.register_tool (archon_tool_name settings)
                    (archon_model_id settings) CUSTOM
                    ["routing"; "planning"; "analysis"]
                    (Some [ ("role", AStr (archon_role_name settings)) ]) ;;
       (if success then logger_call else ret tt) ;;
       ret success)
      (fun _ => logger_call ;; ret false).

(** [loop.create_task(coro)] on the running loop *)
Definition create_task (coro : Coroutine) : M unit :=
  modify (set_running_loop (fun loop => (fun tasks => tasks ++ [coro]) <$> loop)).

(** [self._audio.speak("archon", "route")]: the audio bus keeps its own loop
    and tasks and touches nothing modelled here. *)
Definition audio_speak : M unit := ret tt.

(** [_generate_decision]; [tool_registered] is [self._tool_registered]. *)
Definition _generate_decision (tool_registered : bool) (spell_text : string)
    : M ArchonDecision :=
  fantasy_mode <- is_fantasy_mode ;;
  if archon_enabled settings && tool_registered then
    try_except
      (answer <- _request_archon_directive spell_text ;;
       let '(payload, latency) := answer in
       cleaned <- Safety.validate_archon_payload (ADict payload) fantasy_mode ;;
       let decision := _decision_from_payload spell_text cleaned in
       let decision := _apply_latency_policy decision latency in
       loop <- gets running_loop ;;
       (match loop with
        | Some _ =>
            create_task (co_emit_route
              (match target_daemon decision with
               | Some d => DaemonType_value d
               | None => "none"
               end)
              true
              [ ("latency_ms", AFloat (round_to 2 (latency * 1000)));
                ("intent", AStr (intent decision));
                ("fantasy", ABool fantasy_mode) ])
        | None => logger_call
        end) ;;
       audio_speak ;;
       ret decision)
      (fun _ => logger_call ;; _decision_from_spell_parser spell_text)
  else _decision_from_spell_parser spell_text.

(** [analyze_spell] *)
Definition analyze_spell (tool_registered : bool) (spell_text : string)
    : M ArchonDecision :=
  _generate_decision tool_registered spell_text.

(** [_execute_decision] *)
Definition _execute_decision (decision : ArchonDecision)
    : M Registry.InvokeResult :=
  match target_daemon decision with
  | None =>
      raise (HTTPException 422 (detail_plan
        (match plan decision with
         | [] => ["No safe execution path provided."]
         | p => p
         end)))
  | Some daemon =>
      Registry.invoke_daemon daemon (default EmptyString (task decision))
        (parameters decision)
  end.

(** [route_spell]: the decision and what executing it returned *)
Definition route_spell (tool_registered : bool) (spell_text : string)
    : M (ArchonDecision * Registry.InvokeResult) :=
  decision <- _generate_decision tool_registered spell_text ;;
  execution <- _execute_decision decision ;;
  ret (decision, execution).

End WithEnv.
End Router.

(** ** The reality veil ([ArcaneOS/core/veil.py]) *)

Module Veil.

(** [VeilState.mode] *)
Definition mode (enabled : bool) : string :=
  if enabled then "fantasy" else "developer".

(** [get_veil_state]: the state object, held by its one field *)
Definition get_veil_state : M bool := gets veil_enabled.

(** [set_veil]; the state it returns is the module's one state object. *)
Definition set_veil (enabled : bool) : M bool :=
  current <- gets veil_enabled ;;
  (if negb (Bool.eqb current enabled) then
     modify (set_veil_enabled (fun _ => enabled)) ;;
     logger_call
   else ret tt) ;;
  gets veil_enabled.

(** [toggle_veil] *)
Definition toggle_veil : M bool :=
  current <- gets veil_enabled ;;
  set_veil (negb current).

End Veil.

(** ** Routes that call the veil and the event bus
    ([app/routers/reveal_routes.py], [app/routers/veil_routes.py],
    [app/routers/websocket_routes.py]) *)

Module Routes.

(** [class VeilStatusResponse(BaseModel)] *)
Record VeilStatusResponse : Type := {
  veil : bool;
  mode : string
}.

(** [await event_bus.emit_reveal(...)] inside a route: the coroutine runs
    to its end before the route goes on. *)
Definition await_emit_reveal (daemon : option string) (is_active : bool)
    (description : option string) (metadata : Dict.t) : M unit :=
  fantasy <- is_fantasy_mode ;;
  now <- utcnow ;;
  modify (set_event_bus
            (EventBus.emit_reveal fantasy now daemon is_active description metadata)).

(** [reveal_developer_mode], the route [POST /reveal] *)
Definition reveal_developer_mode : M VeilStatusResponse :=
  _ <- Veil.set_veil false ;;
  await_emit_reveal None false (Some "Developer reality unveiled.")
    [ ("from", AStr "fantasy"); ("to", AStr "developer") ] ;;
  state <- Veil.get_veil_state ;;
  ret {| veil := state; mode := Veil.mode state |}.

(** [restore_fantasy_mode], the route [POST /reveal/restore] *)
Definition restore_fantasy_mode : M VeilStatusResponse :=
  _ <- Veil.set_veil true ;;
  await_emit_reveal None false (Some "Fantasy veil restored.")
    [ ("from", AStr "dev"); ("to", AStr "fantasy") ] ;;
  state <- Veil.get_veil_state ;;
  ret {| veil := state; mode := Veil.mode state |}.

(** [get_veil_status], the route [GET /veil] *)
Definition get_veil_status : M VeilStatusResponse :=
  state <- Veil.get_veil_state ;;
  ret {| veil := state; mode := Veil.mode state |}.

(** [update_veil], the route [POST /veil] *)
Definition update_veil (request_veil : bool) : M VeilStatusResponse :=
  state <- Veil.set_veil request_veil ;;
  if negb (String.eqb (Veil.mode state) "fantasy"
           || String.eqb (Veil.mode state) "developer") then
    raise (HTTPException 400 (detail_text "Invalid veil mode"))
  else ret {| veil := state; mode := Veil.mode state |}.

(** [get_recent_events], the route [GET /events/recent] *)
Definition get_recent_events (count : Z) : M Dict.t :=
  bus <- gets event_bus ;;
  let count := Z.min count 100 in
  ret [ ("status", AStr "success");
        ("message", AStr (EventBus.sparkle +:+ " The chronicles reveal the last "
                          +:+ pretty count +:+ " mystical occurrences... "
                          +:+ EventBus.sparkle));
        ("count", AInt count);
        ("events", AList (ADict <$> EventBus.get_recent_events count bus)) ].

(** [get_event_stats], the route [GET /events/stats] *)
Definition get_event_stats : M Dict.t :=
  bus <- gets event_bus ;;
  ret [ ("status", AStr "success");
        ("message", AStr (EventBus.sparkle
                          +:+ " The ethereal network thrums with energy... "
                          +:+ EventBus.sparkle));
        ("subscribers", AInt (Z.of_nat (EventBus.get_subscriber_count bus)));
        ("history_size",
          AInt (Z.of_nat (length (EventBus.get_recent_events 1000 bus))));
        ("active", ABool true) ].

End Routes.

(** ** The spell records ([app/services/grimoire.py])

    The spell records file holds one line per recorded spell; a line is held
    by the entry it was written from. *)

Module Grimoire.

(** [lst[-limit:]] *)
Definition last_n {A} (limit : Z) (l : list A) : list A :=
  EventBus.slice_from (- limit) l.

(** The filters of [recall_spells], applied to one entry *)
Definition passes (spell_type daemon_name : option string) (success_only : bool)
    (entry : GrimoireEntry) : bool :=
  let wanted (filter : option string) (value : option string) : bool :=
    match filter with
    | Some f => if Text.truthy f then bool_decide (value = Some f) else true
    | None => true
    end in
  wanted spell_type (g_spell_type entry)
  && wanted daemon_name (g_daemon_name entry)
  && (negb success_only || g_success entry).

(** [Grimoire.recall_spells] *)
Definition recall_spells (limit : Z) (spell_type daemon_name : option string)
    (success_only : bool) : M (list GrimoireEntry) :=
  records <- gets spell_records ;;
  let spells := List.filter (passes spell_type daemon_name success_only) records in
  ret (rev (last_n limit spells)).

(** The module-level [recall_spells(limit)] *)
Definition recall (limit : Z) : M (list GrimoireEntry) :=
  recall_spells limit None None false.

End Grimoire.

(** ** The voice service ([app/services/daemon_voice.py]) *)

Module VoiceService.

Definition VoiceEvent_value (e : VoiceEvent) : string :=
  match e with
  | VOICE_SUMMON => "summon" | VOICE_INVOKE => "invoke"
  | VOICE_BANISH => "banish" | VOICE_FAILURE => "failure"
  end.

Definition VOICE_LINES (e : VoiceEvent) : string :=
  match e with
  | VOICE_SUMMON => "I rise from the depths of code."
  | VOICE_INVOKE => "Let the code flow through me."
  | VOICE_BANISH => "I return to the void."
  | VOICE_FAILURE => "The incantation fractures; the ether recoils."
  end.

(** [class VoiceProfile] *)
Record VoiceProfile : Type := {
  profile_daemon : DaemonType;
  voice_id : string;
  tone : string;
  stability : Q;
  similarity_boost : Q
}.

(** [class VoiceResult] *)
Record VoiceResult : Type := {
  voice_success : bool;
  voice_daemon : DaemonType;
  voice_event : VoiceEvent;
  audio_path : option string;
  fallback_message : string;
  voice_error : option string
}.

Section WithService.

(** [self.enabled]; the voice ids of the settings; and the request to the
    speech service followed by [_persist_audio], for a profile and a phrase:
    the path of the cached audio, or the exception raised on the way. *)
Variable enabled : bool.
Variable voice_of : DaemonType -> string.
Variable synthesize : VoiceProfile -> VoiceEvent -> string -> Outcome string.

(** [self.voice_profiles.get(daemon)] *)
Definition voice_profiles (daemon : DaemonType) : option VoiceProfile :=
  match daemon with
  | CLAUDE =>
      Some {| profile_daemon := CLAUDE; voice_id := voice_of CLAUDE;
              tone := "Measured resonance with analytical undertones";
              stability := 65 # 100; similarity_boost := 7 # 10 |}
  | GEMINI =>
      Some {| profile_daemon := GEMINI; voice_id := voice_of GEMINI;
              tone := "Warm, imaginative cadence with luminous flair";
              stability := 55 # 100; similarity_boost := 8 # 10 |}
  | LIQUIDMETAL =>
      Some {| profile_daemon := LIQUIDMETAL; voice_id := voice_of LIQUIDMETAL;
              tone := "Fluid metallic harmony with adaptive texture";
              stability := 45 # 100; similarity_boost := 75 # 100 |}
  end.

(** [_emit_voice_event]: the coroutine of the bus is awaited. *)
Definition _emit_voice_event (daemon_name : string) (success : bool)
    (message : string) (metadata : Dict.t) : M unit :=
  let metadata := Dict.setdefault "success" (ABool success) metadata in
  fantasy <- is_fantasy_mode ;;
  now <- utcnow ;;
  modify (set_event_bus
            (EventBus.emit_voice fantasy now daemon_name success (Some message)
               metadata)).

(** [play_voice_line] *)
Definition play_voice_line (daemon : DaemonType) (event : VoiceEvent)
    (override_text : option string) : M VoiceResult :=
  let phrase :=
    match override_text with
    | Some text => if Text.truthy text then text else VOICE_LINES event
    | None => VOICE_LINES event
    end in
  let profile := voice_profiles daemon in
  let fallback_message := phrase in
  fantasy <- is_fantasy_mode ;;
  if negb fantasy then
    let reason := "Reality veil disabled" in
    logger_call ;;
    _emit_voice_event (DaemonType_value daemon) false fallback_message
      [ ("event", AStr (VoiceEvent_value event)); ("reason", AStr reason);
        ("mode", AStr "developer") ] ;;
    ret {| voice_success := false; voice_daemon := daemon; voice_event := event;
           audio_path := None; fallback_message := fallback_message;
           voice_error := Some reason |}
  else
    match (if enabled then profile else None) with
    | None =>
        let reason :=
          if negb enabled then "Voice synthesis disabled"
          else "Missing voice profile" in
        logger_call ;;
        _emit_voice_event (DaemonType_value daemon) false fallback_message
          [ ("event", AStr (VoiceEvent_value event)); ("reason", AStr reason);
            ("tone", Dict.opt_str (tone <$> profile)) ] ;;
        ret {| voice_success := false; voice_daemon := daemon;
               voice_event := event; audio_path := None;
               fallback_message := fallback_message;
               voice_error := Some reason |}
    | Some profile =>
        try_except
          (logger_call ;;
           path <- lift (synthesize profile event phrase) ;;
           _emit_voice_event (DaemonType_value daemon) true
             (DaemonType_value daemon +:+ " voiced the "
              +:+ VoiceEvent_value event +:+ " ritual.")
             [ ("event", AStr (VoiceEvent_value event));
               ("tone", AStr (tone profile)); ("audio_path", AStr path) ] ;;
           ret {| voice_success := true; voice_daemon := daemon;
                  voice_event := event; audio_path := Some path;
                  fallback_message := fallback_message;
                  voice_error := None |})
          (fun exc =>
             logger_call ;;
             let failure_message :=
               phrase +:+ " [audio unavailable: " +:+ Exc_str exc +:+ "]" in
             _emit_voice_event (DaemonType_value daemon) false failure_message
               [ ("event", AStr (VoiceEvent_value event));
                 ("tone", AStr (tone profile));
                 ("error", AStr (Exc_str exc)) ] ;;
             ret {| voice_success := false; voice_daemon := daemon;
                    voice_event := event; audio_path := None;
                    fallback_message := failure_message;
                    voice_error := Some (Exc_str exc) |})
    end.

End WithService.
End VoiceService.

(** ** A concrete environment

    The builtins on the fragment the examples need, and the mock backing
    call of [raindrop_client.py]. *)

Module Builtins.

Fixpoint split_dot (s : string) : string * option string :=
  match s with
  | EmptyString => (EmptyString, None)
  | String c t =>
      if Ascii.eqb c "."%char then (EmptyString, Some t)
      else let (a, b) := split_dot t in (String c a, b)
  end.

Definition unsigned_decimal (s : string) : option Q :=
  let (ip, fp) := split_dot s in
  match fp with
  | None => inject_Z <$> Text.py_int ip
  | Some fp =>
      match Text.digits_value 0 ip, Text.digits_value 0 fp with
      | Some i, Some f =>
          if (String.length ip + String.length fp =? 0)%nat then None
          else Some (inject_Z i + inject_Z f / inject_Z (10 ^ Z.of_nat (String.length fp)))%Q
      | _, _ => None
      end
  end.

Definition signed {A} (opp : A -> A) (read : string -> option A) (s : string)
    : option A :=
  match s with
  | String "-"%char t => opp <$> read t
  | String "+"%char t => read t
  | _ => read s
  end.

Fixpoint split_exponent (s : string) : string * option string :=
  match s with
  | EmptyString => (EmptyString, None)
  | String c t =>
      if Ascii.eqb c "e"%char || Ascii.eqb c "E"%char then (EmptyString, Some t)
      else let (a, b) := split_exponent t in (String c a, b)
  end.

(** [float(s)] on decimal literals: surrounding whitespace, an optional
    sign, digits with an optional point, and an optional exponent.  The
    literals with underscores between digits and the words for infinity and
    for not-a-number, whose values are no rationals, are refused here. *)
Definition decimal_float (s : string) : option Q :=
  let (mantissa, exponent) := split_exponent (Text.strip s) in
  match signed Qopp unsigned_decimal mantissa, exponent with
  | Some m, None => Some m
  | Some m, Some e =>
      match signed Z.opp Text.py_int e with
      | Some k => Some (m * Qpower 10 k)%Q
      | None => None
      end
  | None, _ => None
  end.

Definition double_quote : ascii := ascii_of_N 34.

Definition hex_digit (n : N) : ascii :=
  ascii_of_N (if (n <? 10)%N then 48 + n else 87 + n).

(** [str.isprintable] on one character *)
Definition is_printable (c : ascii) : bool :=
  negb (Text.in_range 0 31 c || Text.in_range 127 160 c
        || (Text.code c =? 173)%N).

Definition backslash : ascii := ascii_of_N 92.

(** One character inside [repr(s)] *)
Definition escaped (quote c : ascii) : string :=
  let one (d : ascii) := String d EmptyString in
  if Ascii.eqb c quote || Ascii.eqb c backslash then String backslash (one c)
  else if (Text.code c =? 9)%N then String backslash "t"
  else if (Text.code c =? 10)%N then String backslash "n"
  else if (Text.code c =? 13)%N then String backslash "r"
  else if is_printable c then one c
  else String backslash (String "x"%char
         (String (hex_digit (Text.code c / 16)) (one (hex_digit (Text.code c mod 16))))).

Fixpoint escape (quote : ascii) (s : string) : string :=
  match s with
  | EmptyString => EmptyString
  | String c t => escaped quote c +:+ escape quote t
  end.

(** [repr(s)] of a str: in apostrophes, or in double quotes when the str
    holds an apostrophe and no double quote. *)
Definition repr_str (s : string) : string :=
  let quote :=
    if Text.mem_char "'"%char s && negb (Text.mem_char double_quote s)
    then double_quote else "'"%char in
  String quote (escape quote s +:+ String quote EmptyString).

(** [str(x)] written as Python's [repr] writes the values; a float is
    written as the fraction it is held by. *)
Fixpoint render (v : Any) : string :=
  match v with
  | ANone => "None"
  | ABool true => "True"
  | ABool false => "False"
  | AInt z => pretty z
  | AFloat q => pretty (Qnum q) +:+ "/" +:+ pretty (Z.pos (Qden q))
  | AStr s => repr_str s
  | AList l =>
      "[" +:+ Text.join ", " ((fix go (l : list Any) : list string :=
             match l with [] => [] | x :: r => render x :: go r end) l) +:+ "]"
  | ADict d =>
      "{" +:+ Text.join ", " ((fix go (d : list (string * Any)) : list string :=
             match d with
             | [] => []
             | (k, x) :: r => (repr_str k +:+ ": " +:+ render x) :: go r
             end) d) +:+ "}"
  end.

(** [ArchonDirective.parse_obj]: the literals, the stripping and the length
    bounds of the schema, and the values that a bool field takes for a
    bool. *)

(** White space as [strip_whitespace] of the schema's [constr] sees it
    (U+001C to U+001F, which [str.strip] removes, are none). *)
Definition is_white_space (c : ascii) : bool :=
  Text.in_range 9 13 c || (Text.code c =? 32)%N || (Text.code c =? 133)%N
  || (Text.code c =? 160)%N.

Definition trim (s : string) : string := Text.strip_by is_white_space s.

(** What validation makes of the value of a bool field *)
Definition as_bool (v : Any) : option bool :=
  let among (s : string) (l : list string) := existsb (String.eqb s) l in
  match v with
  | ABool b => Some b
  | AInt 0 => Some false
  | AInt 1 => Some true
  | AFloat q =>
      if Qeq_bool q 0 then Some false
      else if Qeq_bool q 1 then Some true else None
  | AStr s =>
      if among (Text.lower s) ["0"; "off"; "f"; "false"; "n"; "no"] then Some false
      else if among (Text.lower s) ["1"; "on"; "t"; "true"; "y"; "yes"] then Some true
      else None
  | _ => None
  end.

Definition Intent_of_value (s : string) : option Intent :=
  find (fun i => String.eqb s (Intent_value i))
    [intent_summon; intent_invoke; intent_banish; intent_reveal].

Definition DaemonChoice_of_value (s : string) : option DaemonChoice :=
  find (fun d => String.eqb s (DaemonChoice_value d))
    [choose_claude; choose_gemini; choose_liquidmetal; choose_none].

Definition Voice_of_value (s : string) : option Voice :=
  find (fun v => String.eqb s (Voice_value v))
    [voice_archon; voice_claude; voice_gemini].

Definition str_field (k : string) (d : Dict.t) : option string :=
  match Dict.get k d with Some (AStr s) => Some s | _ => None end.

Definition bool_field (k : string) (otherwise : bool) (d : Dict.t) : option bool :=
  match Dict.get k d with
  | Some v => as_bool v
  | None => Some otherwise
  end.

Definition plan_entry (v : Any) : option string :=
  match v with
  | AStr s => let s := trim s in if Text.truthy s then Some s else None
  | _ => None
  end.

Definition parse_obj_typed (payload : Any) : option ArchonDirective :=
  match payload with
  | ADict d =>
      i ← str_field "intent" d ≫= Intent_of_value;
      dm ← str_field "daemon" d ≫= DaemonChoice_of_value;
      t ← trim <$> str_field "task" d;
      _ ← guard (String.length t ≤ 140);
      sf ← match Dict.get "safety" d with
           | Some (ADict s) =>
               a ← bool_field "allow_shell" false s;
               b ← bool_field "allow_net" false s;
               Some {| allow_shell := a; allow_net := b |}
           | _ => None
           end;
      st ← match Dict.get "style" d with
           | Some (ADict s) =>
               f ← bool_field "fantasy" true s;
               v ← match Dict.get "voice" s with
                   | Some (AStr v) => Voice_of_value v
                   | None => Some voice_archon
                   | _ => None
                   end;
               Some {| fantasy := f; voice := v |}
           | _ => None
           end;
      ps ← match Dict.get "parameters" d with
           | Some (ADict p) => Some (Some p)
           | Some ANone | None => Some None
           | _ => None
           end;
      pl ← match Dict.get "plan" d with
           | Some (AList (x :: xs)) => mapM plan_entry (x :: xs)
           | _ => None
           end;
      Some {| intent := i; daemon := dm; task := t; safety := sf; style := st;
              parameters := ps; plan := pl |}
  | _ => None
  end.

(** [Settings()] with no override from the process environment; the system
    prompt, a long constant of [app/config.py], is held by its opening
    words. *)
Definition default_settings : Settings :=
  {| archon_enabled := true;
     archon_model_id := "gpt-oss-20b";
     archon_tool_name := "archon";
     archon_role_name := "The Archon";
     archon_base_narration :=
       "The Archon contemplates your words, divining the optimal course through the code-ether.";
     archon_system_prompt :=
       "You are The Archon: the orchestration brain of ArcaneOS." |}.

(** The process as the repository runs it: the mock backing call, whose
    output is prose and never JSON, so that [json.loads] refuses it. *)
Definition mock_env : Env :=
  {| recursion_limit := 1000;
     py_float := decimal_float;
     py_str := render;
     json_loads := fun _ => None;
     parse_obj := parse_obj_typed;
     settings := default_settings;
     backing_call := Registry._mock_invoke;
     backing_seconds := fun _ _ => 1 # 100 |}.

(** The same process in front of a backing call that raises. *)
Definition failing_env (why : string) : Env :=
  {| recursion_limit := 1000;
     py_float := decimal_float;
     py_str := render;
     json_loads := fun _ => None;
     parse_obj := parse_obj_typed;
     settings := default_settings;
     backing_call := fun _ _ _ _ => Raised (OtherError why);
     backing_seconds := fun _ _ => 1 # 100 |}.

End Builtins.

(** * Properties *)

(** ** Event bus: bounded history *)

Section EventBusFacts.
Import EventBus.

(** The bus after the events of [events] were emitted in order *)
Definition emit_all (events : list ArcaneEvent) (bus : ArcaneEventBus)
    : ArcaneEventBus :=
  foldl (fun b e => emit e b) bus events.

Lemma emit_max_history e bus : _max_history (emit e bus) = _max_history bus.
Proof. reflexivity. Qed.

Lemma emit_all_max_history events bus :
  _max_history (emit_all events bus) = _max_history bus.
Proof.
  revert bus. induction events as [|e es IH]; intros bus; [reflexivity|].
  change (emit_all (e :: es) bus) with (emit_all es (emit e bus)).
  rewrite IH. apply emit_max_history.
Qed.

Lemma pop0_drop {A} (l : list A) : pop0 l = drop 1 l.
Proof. destruct l; reflexivity. Qed.

(** One emission keeps the newest [_max_history] of everything emitted. *)
Lemma emit_keeps_newest (past : list ArcaneEvent) e bus :
  _event_history bus = drop (length past - _max_history bus) past →
  _event_history (emit e bus)
  = drop (length (past ++ [e]) - _max_history bus) (past ++ [e]).
Proof.
  intros Hinv. unfold emit; cbn [_event_history]. rewrite Hinv.
  rewrite !length_app, length_drop; cbn [length].
  set (n := length past). set (m := _max_history bus).
  destruct (decide (n < m)) as [Hlt|Hge].
  - replace (n - m) with 0 by lia. replace (n + 1 - m) with 0 by lia.
    rewrite !drop_0.
    destruct (m <? n - 0 + 1) eqn:E; [apply Nat.ltb_lt in E; lia|reflexivity].
  - destruct (m <? n - (n - m) + 1) eqn:E; [|apply Nat.ltb_ge in E; lia].
    rewrite pop0_drop, <- (drop_app_le past [e]) by (subst n; lia).
    rewrite drop_drop. f_equal. lia.
Qed.

Lemma emit_all_keeps_newest (past events : list ArcaneEvent) bus :
  _event_history bus = drop (length past - _max_history bus) past →
  _event_history (emit_all events bus)
  = drop (length (past ++ events) - _max_history bus) (past ++ events).
Proof.
  revert past bus. induction events as [|e es IH]; intros past bus Hinv.
  - rewrite app_nil_r. exact Hinv.
  - change (emit_all (e :: es) bus) with (emit_all es (emit e bus)).
    rewrite (IH (past ++ [e]) (emit e bus)).
    + rewrite emit_max_history, <- app_assoc. reflexivity.
    + rewrite emit_max_history. apply emit_keeps_newest, Hinv.
Qed.

Lemma history_after (events : list ArcaneEvent) :
  _event_history (emit_all events init)
  = drop (length events - _max_history init) events.
Proof. apply (emit_all_keeps_newest [] events init). reflexivity. Qed.

Lemma slice_from_neg_length {A} (l : list A) :
  slice_from (- Z.of_nat (length l)) l = l.
Proof.
  unfold slice_from.
  destruct (- Z.of_nat (length l) <? 0)%Z eqn:E.
  - replace (Z.max 0 _) with 0%Z by lia. reflexivity.
  - apply Z.ltb_ge in E. replace (Z.min _ _) with 0%Z by lia. reflexivity.
Qed.

Lemma slice_from_zero {A} (l : list A) : slice_from 0 l = l.
Proof.
  unfold slice_from. change (0 <? 0)%Z with false. cbv beta iota.
  replace (Z.min 0 _) with 0%Z by lia. reflexivity.
Qed.

(** C8.  Starting from the empty bus, whose capacity is 100, emitting
    capacity + k events leaves exactly capacity events in the history: the
    first k emitted are gone, and [get_recent_events(capacity)] returns the
    others in emission order, the most recent last. *)
Theorem event_history_bound (events : list ArcaneEvent) (k : nat) :
  length events = _max_history init + k →
  let bus := emit_all events init in
  _max_history init = 100
  ∧ _event_history bus = drop k events
  ∧ length (_event_history bus) = _max_history init
  ∧ get_recent_events (Z.of_nat (_max_history init)) bus = to_dict <$> drop k events.
Proof.
  intros Hlen bus.
  assert (Hh : _event_history bus = drop k events).
  { subst bus. rewrite history_after. f_equal. lia. }
  assert (Hl : length (_event_history bus) = _max_history init).
  { rewrite Hh, length_drop. lia. }
  repeat split; try assumption.
  unfold get_recent_events. rewrite <- Hl, slice_from_neg_length, Hh. reflexivity.
Qed.

Definition numbered_event (n : nat) : ArcaneEvent :=
  {| spell_name := ROUTE; daemon_name := None; success := true;
     description := ""; timestamp := inject_Z (Z.of_nat n); metadata := [] |}.

Lemma event_history_bound_witness :
  let events := numbered_event <$> seq 0 103 in
  let bus := emit_all events init in
  _max_history init = 100
  ∧ _event_history bus = drop 3 events
  ∧ length (_event_history bus) = _max_history init
  ∧ get_recent_events (Z.of_nat (_max_history init)) bus = to_dict <$> drop 3 events.
Proof. apply (event_history_bound (numbered_event <$> seq 0 103) 3). reflexivity. Defined.

(** C10.  [get_recent_events(0)] returns the whole stored history, which
    holds at most 100 events, and not the empty list; for a count of at
    least 1 the result has min(count, stored) entries. *)
Theorem get_recent_events_zero (events : list ArcaneEvent) :
  let bus := emit_all events init in
  get_recent_events 0 bus = to_dict <$> _event_history bus
  ∧ length (get_recent_events 0 bus) = min (length events) 100
  ∧ ∀ count : Z, (1 ≤ count)%Z →
      length (get_recent_events count bus)
      = min (Z.to_nat count) (length (_event_history bus)).
Proof.
  intros bus.
  assert (H0 : get_recent_events 0 bus = to_dict <$> _event_history bus).
  { unfold get_recent_events. change (- 0)%Z with 0%Z.
    rewrite slice_from_zero. reflexivity. }
  split; [exact H0|]. split.
  - rewrite H0, length_fmap. subst bus. rewrite history_after, length_drop.
    change (_max_history init) with 100. lia.
  - intros count Hc. unfold get_recent_events, slice_from.
    rewrite length_fmap, length_drop.
    destruct (- count <? 0)%Z eqn:E; [|apply Z.ltb_ge in E; lia].
    lia.
Qed.

Lemma get_recent_events_zero_witness :
  let bus := emit_all (numbered_event <$> seq 0 3) init in
  length (get_recent_events 0 bus) = 3
  ∧ length (get_recent_events 2 bus) = 2.
Proof.
  destruct (get_recent_events_zero (numbered_event <$> seq 0 3)) as (_ & H0 & Hn).
  split; [exact H0|]. apply (Hn 2%Z). lia.
Defined.

End EventBusFacts.

(** ** Registry: lifecycle, failure handling, and the events that are not
    emitted *)

(** Symbolic execution of the monadic code: unfold the combinators and the
    one-line primitives, then project the updated world. *)
Ltac mred :=
  cbv beta iota delta
    [bind gets ret raise try_except modify lift logger_call utcnow elapse
     is_fantasy_mode Registry.the_daemon Registry.the_state
     Registry.write_daemon Registry.write_state Registry.record_spell
     Registry.register_tool Registry.unregister_tool Registry.new_MCPToolResult];
  cbn [_daemons _daemon_states _registered_tools event_bus running_loop
       spell_records grimoire_file veil_enabled clock
       set_daemons set_daemon_states set_registered_tools set_event_bus
       set_running_loop set_spell_records set_grimoire_file set_clock
       mcp_success mcp_result mcp_execution_time mcp_metadata mcp_timestamp
       fst snd negb].

Ltac look Hd Hs :=
  mred; rewrite ?lookup_alter_eq, ?lookup_insert_eq, ?Hd, ?Hs;
  cbn [fmap option_fmap option_map].

Section RegistryFacts.
Import Registry.
Context {env : Env}.

Lemma safe_create_task_at_skips (d : nat) (coro : Coroutine) (w : World) :
  _safe_create_task_at (S d) coro w = (w, Returned tt).
Proof.
  induction d as [|d IH].
  - cbn. unfold try_except, bind, get_running_loop.
    destruct (running_loop w); reflexivity.
  - change (_safe_create_task_at (S (S d)) coro)
      with (try_except (get_running_loop ;; _safe_create_task_at (S d) coro)
              (fun e => if is_RuntimeError e then logger_call else raise e)).
    unfold try_except, bind, get_running_loop.
    destruct (running_loop w); [rewrite IH|]; reflexivity.
Qed.

Lemma safe_create_task_skips (coro : Coroutine) (w : World) :
  0 < recursion_limit → _safe_create_task coro w = (w, Returned tt).
Proof.
  unfold _safe_create_task. destruct recursion_limit as [|d]; [lia|].
  intros _. apply safe_create_task_at_skips.
Qed.

Lemma on_failure_reraises {A} (W : DaemonType) hp op ev extra ctx rr (exc : Exc) (w : World) :
  0 < recursion_limit →
  on_failure (A:=A) W hp op ev extra ctx rr exc w
  = (w, Raised (if is_HTTPException exc then exc else rr exc)).
Proof.
  intros Hrec. unfold on_failure. mred.
  rewrite !safe_create_task_skips by assumption. reflexivity.
Qed.

Lemma MODEL_MAPPINGS_total (W : DaemonType) : ∃ cfg, MODEL_MAPPINGS W = Some cfg.
Proof. destruct W; eexists; reflexivity. Qed.

(** What [register_daemon] leaves behind for a known daemon *)
Lemma register_daemon_returns (W : DaemonType) mdl rl caps (w : World)
    (d : Daemon) (s : DaemonState) :
  _daemons w !! W = Some d → _daemon_states w !! W = Some s →
  ∃ w' d' s' cfg,
    register_daemon W mdl rl None caps w = (w', Returned d')
    ∧ _daemons w' !! W = Some d'
    ∧ is_summoned d' = is_summoned d
    ∧ invocation_count d' = invocation_count d
    ∧ _daemon_states w' !! W = Some s'
    ∧ mcp_registered s' = true
    ∧ summoned_at s' = summoned_at s
    ∧ invocation_history s' = invocation_history s
    ∧ _registered_tools w' !! DaemonType_value W = Some cfg
    ∧ event_bus w' = event_bus w
    ∧ running_loop w' = running_loop w.
Proof.
  intros Hd Hs. unfold register_daemon. mred. rewrite Hd. mred. rewrite Hs. mred.
  destruct (Text.truthy rl); mred;
    rewrite ?lookup_alter_eq, Hd; cbn [fmap option_fmap option_map]; mred;
    rewrite ?lookup_alter_eq, Hd, ?Hs; cbn [fmap option_fmap option_map];
    do 4 eexists; (split; [reflexivity|]); mred;
    rewrite ?lookup_alter_eq, ?lookup_insert_eq, ?Hd, ?Hs;
    cbn [fmap option_fmap option_map];
    repeat split; try reflexivity;
    unfold with_role, with_metadata; cbn [metadata];
    destruct (metadata d) as [[|]|]; reflexivity.
Qed.

Lemma summon_fresh (W : DaemonType) (w : World) (d : Daemon) (s : DaemonState) :
  0 < recursion_limit →
  _daemons w !! W = Some d → _daemon_states w !! W = Some s →
  is_summoned d = false →
  ∃ w' d' s',
    summon W w = (w', Returned d')
    ∧ _daemons w' !! W = Some d'
    ∧ is_summoned d' = true
    ∧ invocation_count d' = 0%Z
    ∧ _daemon_states w' !! W = Some s'
    ∧ mcp_registered s' = true
    ∧ summoned_at s' = Some (clock w)
    ∧ invocation_history s' = invocation_history s
    ∧ event_bus w' = event_bus w
    ∧ running_loop w' = running_loop w.
Proof.
  intros Hrec Hd Hs Hsum.
  unfold summon. mred. rewrite Hd. mred. rewrite Hs. mred. rewrite Hsum. mred.
  destruct (MODEL_MAPPINGS_total W) as [cfg Hcfg]. rewrite Hcfg.
  destruct (mcp_registered s) eqn:Hreg; mred.
  - rewrite !safe_create_task_skips by assumption. look Hd Hs.
    do 3 eexists. split; [reflexivity|]. look Hd Hs.
    repeat split; try reflexivity; assumption.
  - match goal with
    | |- context [register_daemon W ?m ?r None ?c ?w1] =>
        destruct (register_daemon_returns W m r c w1
                    (with_invocation_count 0 (with_is_summoned true d))
                    (with_summoned_at (Some (clock w)) s))
          as (w2 & d2 & s2 & tc & Hrun & Hd2 & Hsum2 & Hcnt2 & Hs2 & Hreg2
              & Hat2 & Hhist2 & _ & Hbus2 & Hloop2);
        [ look Hd Hs; reflexivity | look Hd Hs; reflexivity | rewrite Hrun ]
    end.
    mred. rewrite !safe_create_task_skips by assumption. mred.
    rewrite Hd2. mred.
    do 3 eexists. split; [reflexivity|]. mred.
    rewrite Hd2, Hs2, Hbus2, Hloop2.
    repeat split; try reflexivity; assumption.
Qed.

Lemma summon_again (W : DaemonType) (w : World) (d : Daemon) (s : DaemonState) :
  0 < recursion_limit →
  _daemons w !! W = Some d → _daemon_states w !! W = Some s →
  is_summoned d = true →
  summon W w = (w, Raised (HTTPException 400 (already_walks_among_us W))).
Proof.
  intros Hrec Hd Hs Hsum.
  unfold summon. mred. rewrite Hd. mred. rewrite Hs. mred. rewrite Hsum.
  apply on_failure_reraises, Hrec.
Qed.

Lemma invoke_dormant (W : DaemonType) task params (w : World) (d : Daemon) (s : DaemonState) :
  0 < recursion_limit →
  _daemons w !! W = Some d → _daemon_states w !! W = Some s →
  is_summoned d = false →
  invoke_daemon W task params w
  = (w, Raised (HTTPException 400 (slumbers_in_the_void W))).
Proof.
  intros Hrec Hd Hs Hsum.
  unfold invoke_daemon. mred. rewrite Hd. mred. rewrite Hs. mred. rewrite Hsum.
  apply on_failure_reraises, Hrec.
Qed.

Lemma banish_dormant (W : DaemonType) (w : World) (d : Daemon) (s : DaemonState) :
  0 < recursion_limit →
  _daemons w !! W = Some d → _daemon_states w !! W = Some s →
  is_summoned d = false →
  banish_daemon W w
  = (w, Raised (HTTPException 400 (not_present_in_this_realm W))).
Proof.
  intros Hrec Hd Hs Hsum.
  unfold banish_daemon. mred. rewrite Hd. mred. rewrite Hs. mred. rewrite Hsum.
  apply on_failure_reraises, Hrec.
Qed.

Lemma banish_present (W : DaemonType) (w : World) (d : Daemon) (s : DaemonState) :
  0 < recursion_limit →
  _daemons w !! W = Some d → _daemon_states w !! W = Some s →
  is_summoned d = true →
  ∃ w' r d' s',
    banish_daemon W w = (w', Returned r)
    ∧ ban_statistics r = get_statistics d s
    ∧ _daemons w' !! W = Some d'
    ∧ is_summoned d' = false
    ∧ invocation_count d' = invocation_count d
    ∧ _daemon_states w' !! W = Some s'
    ∧ mcp_registered s' = false.
Proof.
  intros Hrec Hd Hs Hsum.
  unfold banish_daemon. mred. rewrite Hd. mred. rewrite Hs. mred. rewrite Hsum. mred.
  destruct (mcp_registered s) eqn:Hreg; mred.
  - destruct (_registered_tools w !! DaemonType_value W); mred;
      rewrite !safe_create_task_skips by assumption; look Hd Hs;
      do 4 eexists; (split; [reflexivity|]); look Hd Hs;
      repeat split; reflexivity.
  - rewrite !safe_create_task_skips by assumption; look Hd Hs.
    do 4 eexists; (split; [reflexivity|]); look Hd Hs.
    repeat split; try reflexivity. assumption.
Qed.

(** C1.  For a known worker that is not summoned, [summon] succeeds, but no
    summon event reaches the event bus: the event is only handed to
    [_safe_create_task], which never creates a task.  After the call the bus
    (history and subscriber queues) is as before, and the running loop holds
    no task that it did not hold before, so nothing will emit the event
    later either.  The claim asks for exactly one summon event with
    success=true; the code emits none. *)
Theorem summon_emits_no_event (W : DaemonType) (w : World) (d : Daemon) (s : DaemonState) :
  0 < recursion_limit →
  _daemons w !! W = Some d → _daemon_states w !! W = Some s →
  is_summoned d = false →
  ∃ w' d',
    summon W w = (w', Returned d')
    ∧ is_summoned d' = true
    ∧ event_bus w' = event_bus w
    ∧ running_loop w' = running_loop w.
Proof.
  intros Hrec Hd Hs Hsum.
  destruct (summon_fresh W w d s Hrec Hd Hs Hsum)
    as (w' & d' & s' & Hrun & _ & Hsum' & _ & _ & _ & _ & _ & Hbus & Hloop).
  exists w', d'. repeat split; assumption.
Qed.

(** C2.  For a known worker: a second [summon] after a [summon] raises the
    400 "already walks among us" error; [invoke_daemon] on a worker that is
    not summoned raises the 400 "slumbers in the void" error; a second
    [banish_daemon] after one that returned raises the 400 "not present in
    this realm" error.  Each failing call leaves the whole world, and so the
    worker's summoned flag and counters, as it found it.  (Every worker is
    known in every reachable world: [reachable_known] below.) *)
Theorem lifecycle_violations (W : DaemonType) (task : string)
    (params : option Dict.t) (w : World) (d : Daemon) (s : DaemonState) :
  0 < recursion_limit →
  _daemons w !! W = Some d → _daemon_states w !! W = Some s →
  (∀ w1 r1 w2 r2,
     summon W w = (w1, r1) → summon W w1 = (w2, r2) →
     r2 = Raised (HTTPException 400 (already_walks_among_us W)) ∧ w2 = w1)
  ∧ (is_summoned d = false →
     invoke_daemon W task params w
     = (w, Raised (HTTPException 400 (slumbers_in_the_void W))))
  ∧ (∀ w1 r1 w2 r2,
       banish_daemon W w = (w1, Returned r1) → banish_daemon W w1 = (w2, r2) →
       r2 = Raised (HTTPException 400 (not_present_in_this_realm W)) ∧ w2 = w1).
Proof.
  intros Hrec Hd Hs. split; [|split].
  - intros w1 r1 w2 r2 H1 H2.
    destruct (is_summoned d) eqn:Hsum.
    + rewrite (summon_again W w d s Hrec Hd Hs Hsum) in H1.
      injection H1 as <- <-.
      rewrite (summon_again W w d s Hrec Hd Hs Hsum) in H2.
      injection H2 as <- <-. split; reflexivity.
    + destruct (summon_fresh W w d s Hrec Hd Hs Hsum)
        as (w' & d' & s' & Hrun & Hd' & Hsum' & _ & Hs' & _).
      rewrite Hrun in H1. injection H1 as <- <-.
      rewrite (summon_again W w' d' s' Hrec Hd' Hs' Hsum') in H2.
      injection H2 as <- <-. split; reflexivity.
  - intros Hsum. exact (invoke_dormant W task params w d s Hrec Hd Hs Hsum).
  - intros w1 r1 w2 r2 H1 H2.
    destruct (is_summoned d) eqn:Hsum.
    + destruct (banish_present W w d s Hrec Hd Hs Hsum)
        as (w' & r & d' & s' & Hrun & _ & Hd' & Hsum' & _ & Hs' & _).
      rewrite Hrun in H1. injection H1 as <- <-.
      rewrite (banish_dormant W w' d' s' Hrec Hd' Hs' Hsum') in H2.
      injection H2 as <- <-. split; reflexivity.
    + rewrite (banish_dormant W w d s Hrec Hd Hs Hsum) in H1. discriminate.
Qed.

(** C7.  When a summoned worker that is registered with the MCP client is
    invoked and its backing call raises, [invoke_daemon] returns normally:
    the result has success = false and carries the error text, the
    invocation count has grown by one and the history has one more record,
    marked as failed.  (In a reachable world the registered flag alone says
    that the tool is in the client: [reachable_registered] below.) *)
Theorem backing_failure_is_a_result (W : DaemonType) (task : string)
    (params : option Dict.t) (w : World) (d : Daemon) (s : DaemonState)
    (cfg : ToolConfig) (e : Exc) :
  0 < recursion_limit →
  _daemons w !! W = Some d → is_summoned d = true →
  _daemon_states w !! W = Some s → mcp_registered s = true →
  _registered_tools w !! DaemonType_value W = Some cfg →
  backing_call (DaemonType_value W) task params cfg = Raised e →
  ∃ w' r d' s' record,
    invoke_daemon W task params w = (w', Returned r)
    ∧ res_success r = false
    ∧ res_result r = ADict [("error", AStr (Exc_str e))]
    ∧ res_invocation_number r = (invocation_count d + 1)%Z
    ∧ _daemons w' !! W = Some d'
    ∧ invocation_count d' = (invocation_count d + 1)%Z
    ∧ is_summoned d' = true
    ∧ _daemon_states w' !! W = Some s'
    ∧ invocation_history s' = invocation_history s ++ [record]
    ∧ rec_task record = task
    ∧ rec_success record = false.
Proof.
  intros Hrec Hd Hsum Hs Hreg Htool Hback.
  unfold invoke_daemon. mred. rewrite Hd. mred. rewrite Hs. mred.
  rewrite Hsum, Hreg. mred.
  unfold invoke_tool. mred. rewrite Htool. mred. rewrite Hback. mred.
  unfold record_invocation. look Hd Hs.
  rewrite !safe_create_task_skips by assumption. look Hd Hs.
  do 5 eexists. split; [reflexivity|]. look Hd Hs.
  repeat split; try reflexivity. assumption.
Qed.

End RegistryFacts.

Lemma summon_emits_no_event_witness :
  let w := Registry.initial_world (Some []) in
  ∃ w' d',
    Registry.summon (env:=Builtins.mock_env) CLAUDE w = (w', Returned d')
    ∧ is_summoned d' = true
    ∧ event_bus w' = event_bus w
    ∧ running_loop w' = running_loop w.
Proof.
  apply (summon_emits_no_event (env:=Builtins.mock_env) CLAUDE
           (Registry.initial_world (Some []))
           (Registry.initial_daemon CLAUDE) Registry.initial_state).
  - cbn. lia.
  - vm_compute. reflexivity.
  - vm_compute. reflexivity.
  - reflexivity.
Defined.

(** The same at work: CLAUDE is summoned while a loop is running, the loop
    then runs all it was given, and the history of the bus is still empty. *)
Example summon_then_loop_runs_nothing :
  let w := fst (Registry.summon (env:=Builtins.mock_env) CLAUDE
                  (Registry.initial_world (Some []))) in
  running_loop w = Some []
  ∧ EventBus._event_history (event_bus (fst (Registry.run_pending w))) = [].
Proof. vm_compute. split; reflexivity. Qed.

Lemma lifecycle_violations_witness :
  let w := Registry.initial_world None in
  (∀ w1 r1 w2 r2,
     Registry.summon (env:=Builtins.mock_env) CLAUDE w = (w1, r1) →
     Registry.summon (env:=Builtins.mock_env) CLAUDE w1 = (w2, r2) →
     r2 = Raised (HTTPException 400 (already_walks_among_us CLAUDE)) ∧ w2 = w1)
  ∧ (is_summoned (Registry.initial_daemon CLAUDE) = false →
     Registry.invoke_daemon (env:=Builtins.mock_env) CLAUDE "think" None w
     = (w, Raised (HTTPException 400 (slumbers_in_the_void CLAUDE))))
  ∧ (∀ w1 r1 w2 r2,
       Registry.banish_daemon (env:=Builtins.mock_env) CLAUDE w = (w1, Returned r1) →
       Registry.banish_daemon (env:=Builtins.mock_env) CLAUDE w1 = (w2, r2) →
       r2 = Raised (HTTPException 400 (not_present_in_this_realm CLAUDE)) ∧ w2 = w1).
Proof.
  apply (lifecycle_violations (env:=Builtins.mock_env) CLAUDE "think" None
           (Registry.initial_world None)
           (Registry.initial_daemon CLAUDE) Registry.initial_state).
  - cbn. lia.
  - vm_compute. reflexivity.
  - vm_compute. reflexivity.
Defined.

(** The three violations run on the initial world *)
Example lifecycle_violations_run :
  let w0 := Registry.initial_world None in
  let w1 := fst (Registry.summon (env:=Builtins.mock_env) GEMINI w0) in
  let w2 := fst (Registry.banish_daemon (env:=Builtins.mock_env) GEMINI w1) in
  snd (Registry.summon (env:=Builtins.mock_env) GEMINI w1)
    = Raised (HTTPException 400 (already_walks_among_us GEMINI))
  ∧ snd (Registry.invoke_daemon (env:=Builtins.mock_env) GEMINI "paint" None w0)
    = Raised (HTTPException 400 (slumbers_in_the_void GEMINI))
  ∧ snd (Registry.banish_daemon (env:=Builtins.mock_env) GEMINI w2)
    = Raised (HTTPException 400 (not_present_in_this_realm GEMINI)).
Proof. vm_compute. repeat split; reflexivity. Qed.

Lemma backing_failure_is_a_result_witness :
  let w := fst (Registry.summon (env:=Builtins.mock_env) CLAUDE
                  (Registry.initial_world None)) in
  ∃ w' r d' s' record,
    Registry.invoke_daemon (env:=Builtins.failing_env "boom") CLAUDE "think" None w
    = (w', Returned r)
    ∧ Registry.res_success r = false
    ∧ Registry.res_result r = ADict [("error", AStr "boom")]
    ∧ Registry.res_invocation_number r = 1%Z
    ∧ _daemons w' !! CLAUDE = Some d'
    ∧ invocation_count d' = 1%Z
    ∧ is_summoned d' = true
    ∧ _daemon_states w' !! CLAUDE = Some s'
    ∧ invocation_history s' = [] ++ [record]
    ∧ rec_task record = "think"
    ∧ rec_success record = false.
Proof.
  intros w.
  pose (d := default (Registry.initial_daemon CLAUDE) (_daemons w !! CLAUDE)).
  pose (s := default Registry.initial_state (_daemon_states w !! CLAUDE)).
  destruct (_registered_tools w !! "claude") as [cfg|] eqn:Hcfg;
    [|vm_compute in Hcfg; discriminate].
  apply (backing_failure_is_a_result (env:=Builtins.failing_env "boom")
           CLAUDE "think" None w d s cfg (OtherError "boom")).
  - cbn. lia.
  - vm_compute. reflexivity.
  - vm_compute. reflexivity.
  - vm_compute. reflexivity.
  - vm_compute. reflexivity.
  - exact Hcfg.
  - reflexivity.
Defined.


(** ** Payload validation: the shell policy and the redaction of paths *)

Section TextFacts.
Import Text.

Lemma app_cons (x : ascii) (a b : string) : String x a +:+ b = String x (a +:+ b).
Proof. reflexivity. Qed.

Lemma app_nil (b : string) : EmptyString +:+ b = b.
Proof. reflexivity. Qed.

Lemma prefix_app (n h : string) :
  String.prefix n h = true ↔ ∃ post, h = n +:+ post.
Proof.
  revert h. induction n as [|c n IH]; intros h; cbn.
  - split; [intros _; exists h; reflexivity | intros _; destruct h; reflexivity].
  - destruct h as [|d h]; cbn.
    + split; [discriminate | intros [post H]; discriminate].
    + destruct (Ascii.ascii_dec c d) as [->|Hne].
      * rewrite IH. split; intros [post H]; exists post; [rewrite H; reflexivity|].
        injection H as H. exact H.
      * split; [discriminate|]. intros [post H]. injection H as H _. congruence.
Qed.

Lemma app_assoc_s (a b c : string) : (a +:+ b) +:+ c = a +:+ (b +:+ c).
Proof. induction a as [|x a IH]; [reflexivity|]. rewrite !app_cons, IH. reflexivity. Qed.

Lemma str_in_app (needle hay : string) :
  str_in needle hay = true ↔ ∃ pre post, hay = pre +:+ needle +:+ post.
Proof.
  induction hay as [|c hay IH].
  - cbn [str_in]. rewrite orb_false_r, prefix_app. split.
    + intros [post H]. exists EmptyString, post. exact H.
    + intros (pre & post & H). destruct pre; [exists post; exact H|discriminate].
  - cbn [str_in]. rewrite orb_true_iff, prefix_app, IH. split.
    + intros [[post H]|(pre & post & H)].
      * exists EmptyString, post. exact H.
      * exists (String c pre), post. rewrite app_cons, H. reflexivity.
    + intros (pre & post & H). destruct pre as [|x pre].
      * left. exists post. exact H.
      * right. rewrite app_cons in H. injection H as _ H. exists pre, post. exact H.
Qed.

Lemma map_chars_app f (a b : string) :
  map_chars f (a +:+ b) = map_chars f a +:+ map_chars f b.
Proof.
  induction a as [|x a IH]; [reflexivity|].
  rewrite app_cons. cbn [map_chars]. rewrite app_cons, IH. reflexivity.
Qed.

Lemma map_chars_app_inv f (s a b : string) :
  map_chars f s = a +:+ b →
  ∃ sa sb, s = sa +:+ sb ∧ map_chars f sa = a ∧ map_chars f sb = b.
Proof.
  revert s. induction a as [|x a IH]; intros s H.
  - exists EmptyString, s. auto.
  - destruct s as [|c s]; [discriminate|].
    rewrite app_cons in H. cbn [map_chars] in H. injection H as Hc H.
    destruct (IH s H) as (sa & sb & -> & Ha & Hb).
    exists (String c sa), sb. cbn [map_chars]. rewrite Ha, Hc. auto.
Qed.

End TextFacts.

Section SafetyFacts.
Import Safety.
Context {env : Env}.

(** A character in either case of an ASCII letter given in lower case *)
Definition either_case (l c : ascii) : Prop :=
  c = l ∨ c = Text.upper_char l.

(** The word "shell" in any letter case *)
Definition shell_in_any_case (u : string) : Prop :=
  ∃ c1 c2 c3 c4 c5,
    u = String c1 (String c2 (String c3 (String c4 (String c5 EmptyString))))
    ∧ either_case "s" c1 ∧ either_case "h" c2 ∧ either_case "e" c3
    ∧ either_case "l" c4 ∧ either_case "l" c5.

(** [text] contains the word "shell" in some letter case *)
Definition mentions_shell (text : string) : Prop :=
  ∃ pre u post, text = pre +:+ u +:+ post ∧ shell_in_any_case u.

Lemma lower_char_is (l c : ascii) :
  In l ["s"; "h"; "e"; "l"]%char →
  Text.lower_char c = l ↔ either_case l c.
Proof.
  intros Hl. unfold either_case.
  assert (Hdec : ∀ x y : ascii, x = y ↔ Ascii.eqb x y = true)
    by (intros; symmetry; apply Ascii.eqb_eq).
  rewrite !Hdec. rewrite <- orb_true_iff.
  cbn in Hl. destruct Hl as [<-|[<-|[<-|[<-|[]]]]];
    destruct c as [[] [] [] [] [] [] [] []]; vm_compute; split; congruence.
Qed.

Lemma lower_is_shell (u : string) :
  Text.lower u = "shell" ↔ shell_in_any_case u.
Proof.
  unfold shell_in_any_case. split.
  - intros H.
    destruct u as [|c1 [|c2 [|c3 [|c4 [|c5 [|]]]]]]; try discriminate.
    cbn in H. injection H as H1 H2 H3 H4 H5.
    exists c1, c2, c3, c4, c5. split; [reflexivity|].
    repeat split; apply lower_char_is; cbn; tauto.
  - intros (c1 & c2 & c3 & c4 & c5 & -> & H1 & H2 & H3 & H4 & H5).
    apply lower_char_is in H1, H2, H3, H4, H5; cbn; try tauto.
    rewrite H1, H2, H3, H4, H5. reflexivity.
Qed.

(** The test of the source, ["shell" in text.lower()], says exactly that. *)
Lemma shell_test_spec (text : string) :
  Text.str_in "shell" (Text.lower text) = true ↔ mentions_shell text.
Proof.
  rewrite str_in_app. unfold mentions_shell. split.
  - intros (pre & post & H). unfold Text.lower in H.
    apply map_chars_app_inv in H as (sa & sb & -> & Ha & Hb).
    apply map_chars_app_inv in Hb as (u & sc & -> & Hu & Hc).
    exists sa, u, sc. split; [reflexivity|]. apply lower_is_shell. exact Hu.
  - intros (pre & u & post & -> & Hu). apply lower_is_shell in Hu.
    exists (Text.lower pre), (Text.lower post).
    unfold Text.lower in *. rewrite !map_chars_app, Hu. reflexivity.
Qed.

Lemma asks_for_shell_spec (texts : list string) :
  asks_for_shell texts = true ↔ ∃ text, In text texts ∧ mentions_shell text.
Proof.
  unfold asks_for_shell. rewrite existsb_exists.
  split; intros (t & Hin & H); exists t; (split; [exact Hin|]);
    apply shell_test_spec; exact H.
Qed.

Definition shell_rejection (payload : Any) : RejectionLine :=
  {| log_event := "REJECTED_PAYLOAD"; log_reason := "shell_command_disallowed";
     log_payload := payload |}.

(** C3.  For a payload that passes the schema with allow_shell false: if
    the task or a plan entry contains "shell" in any letter case, validation
    raises the ValueError of the shell policy after appending exactly one
    REJECTED_PAYLOAD line with reason shell_command_disallowed to the audit
    file, and changes nothing else; if none does, validation returns and the
    world is untouched. *)
Theorem shell_policy (payload : Any) (directive : ArchonDirective)
    (fantasy_mode : bool) (w : World) :
  parse_obj payload = Some directive →
  allow_shell (safety directive) = false →
  ((∃ text, In text (task directive :: plan directive) ∧ mentions_shell text) →
   ∃ w',
     validate_archon_payload payload fantasy_mode w
     = (w', Raised (ValueError "Shell execution requested but disallowed"))
     ∧ w' = set_grimoire_file (fun lines => lines ++ [shell_rejection payload]) w
     ∧ grimoire_file w' = grimoire_file w ++ [shell_rejection payload])
  ∧ (¬ (∃ text, In text (task directive :: plan directive) ∧ mentions_shell text) →
     ∃ cleaned,
       validate_archon_payload payload fantasy_mode w = (w, Returned cleaned)).
Proof.
  intros Hparse Hallow. unfold validate_archon_payload. rewrite Hparse, Hallow.
  cbn [negb]. split; intros H.
  - apply asks_for_shell_spec in H. rewrite H.
    eexists. repeat split; reflexivity.
  - destruct (asks_for_shell _) eqn:E.
    + apply asks_for_shell_spec in E. contradiction.
    + destruct fantasy_mode; eexists; reflexivity.
Qed.

End SafetyFacts.

Section RedactionFacts.
Import Safety.
Context {env : Env}.

(** Where the greedy class repetition stops *)
Fixpoint after_run (p : ascii -> bool) (s : string) : string :=
  match s with
  | String c t => if p c then after_run p t else s
  | EmptyString => EmptyString
  end.

Fixpoint run_length (p : ascii -> bool) (s : string) : nat :=
  match s with
  | String c t => if p c then S (run_length p t) else 0
  | EmptyString => 0
  end.

(** When nothing follows the repetition in the pattern, it takes the whole
    run. *)
Lemma many_takes_all (p : ascii -> bool) (f : Re.state -> Re.state) n gs s :
  Re.many p (fun e => Some (f e)) n gs s
  = Some (f {| Re.pos := n + run_length p s; Re.rest := after_run p s;
               Re.groups := gs |}).
Proof.
  revert n. induction s as [|c t IH]; intros n; cbn.
  - rewrite Nat.add_0_r. reflexivity.
  - destruct (p c).
    + rewrite IH. do 3 f_equal. lia.
    + rewrite Nat.add_0_r. reflexivity.
Qed.

(** [REDACT_PATTERN] matches at the start of [s] *)
Definition starts_path (s : string) : bool :=
  match s with
  | String c s1 =>
      if Text.is_ascii_letter c then
        match s1 with
        | String c1 (String c2 (String d _)) =>
            Ascii.eqb ":" c1 && Ascii.eqb "\" c2 && Re.nonspace d
        | _ => false
        end
      else if Ascii.eqb "/" c then
        match s1 with
        | String d _ => Re.nonspace d
        | EmptyString => false
        end
      else false
  | EmptyString => false
  end.

Lemma letter_not_slash c : Text.is_ascii_letter c = true → Ascii.eqb "/" c = false.
Proof. destruct c as [[] [] [] [] [] [] [] []]; vm_compute; congruence. Qed.

Lemma letter_nonspace c : Text.is_ascii_letter c = true → Re.nonspace c = true.
Proof. destruct c as [[] [] [] [] [] [] [] []]; vm_compute; congruence. Qed.

Ltac redact_run :=
  cbn -[Re.many Text.is_ascii_letter Re.nonspace Ascii.eqb Nat.sub].

Lemma match_at_redact_none n s :
  starts_path s = false → Re.match_at false REDACT_PATTERN n s = None.
Proof.
  unfold Re.match_at, REDACT_PATTERN.
  destruct s as [|c s1]; [reflexivity|]. cbn [starts_path].
  destruct (Text.is_ascii_letter c) eqn:Hl.
  - pose proof (letter_not_slash c Hl) as Hs.
    destruct s1 as [|c1 s2]; [redact_run; rewrite Hl, Hs; reflexivity|].
    destruct s2 as [|c2 s3];
      [redact_run; rewrite Hl, Hs; destruct (Ascii.eqb ":" c1); reflexivity|].
    destruct s3 as [|d s4];
      [redact_run; rewrite Hl, Hs;
       destruct (Ascii.eqb ":" c1), (Ascii.eqb "\" c2); reflexivity|].
    redact_run. rewrite Hl, Hs.
    destruct (Ascii.eqb ":" c1), (Ascii.eqb "\" c2); cbn [andb]; try reflexivity.
    intros ->. reflexivity.
  - redact_run. rewrite Hl.
    destruct (Ascii.eqb "/" c); [|reflexivity].
    destruct s1 as [|d s2]; [reflexivity|]. intros ->. reflexivity.
Qed.

Fixpoint take_run (p : ascii -> bool) (s : string) : string :=
  match s with
  | String c t => if p c then String c (take_run p t) else EmptyString
  | EmptyString => EmptyString
  end.

Lemma take_run_after_run p s : s = take_run p s +:+ after_run p s.
Proof.
  induction s as [|c t IH]; [reflexivity|]. cbn [take_run after_run].
  destruct (p c); [|reflexivity]. rewrite app_cons, <- IH. reflexivity.
Qed.

Lemma take_run_all p s : Text.all_chars p (take_run p s) = true.
Proof.
  induction s as [|c t IH]; [reflexivity|]. cbn [take_run].
  destruct (p c) eqn:E; [|reflexivity]. cbn [Text.all_chars]. rewrite E, IH. reflexivity.
Qed.

Lemma drop_run_length p s : Text.drop_chars (run_length p s) s = after_run p s.
Proof.
  induction s as [|c t IH]; [reflexivity|]. cbn [run_length after_run].
  destruct (p c); [|reflexivity]. cbn [Text.drop_chars]. exact IH.
Qed.

(** Nothing comes next, or a whitespace character does. *)
Definition token_ends (rest : string) : Prop :=
  match rest with
  | EmptyString => True
  | String c _ => Text.is_space c = true
  end.

Lemma after_run_ends s : token_ends (after_run Re.nonspace s).
Proof.
  induction s as [|c t IH]; [exact I|]. cbn [after_run].
  destruct (Re.nonspace c) eqn:E; [exact IH|]. cbn [token_ends].
  unfold Re.nonspace in E. apply negb_false_iff in E. exact E.
Qed.

(** A token shaped like a path: a drive letter, a colon, a backslash and at
    least one character, or a slash and at least one character, with no
    whitespace in it. *)
Definition path_like (u : string) : Prop :=
  (∃ c tail, u = String c (String ":" (String "\" tail))
             ∧ Text.is_ascii_letter c = true
             ∧ tail ≠ EmptyString ∧ Text.all_chars Re.nonspace tail = true)
  ∨ (∃ tail, u = String "/" tail
             ∧ tail ≠ EmptyString ∧ Text.all_chars Re.nonspace tail = true).

(** [text] holds a path-like substring *)
Definition holds_path (text : string) : Prop :=
  ∃ pre u post, text = pre +:+ u +:+ post ∧ path_like u.

Ltac exists_match u :=
  eexists _, u; split; [reflexivity|];
  unfold Re.m_length; cbn [Re.m_end Re.m_start Re.pos Re.close_group].

(** A match of [REDACT_PATTERN] is a path-like prefix, as long as the
    match says, and it runs up to the next whitespace. *)
Lemma match_at_redact_some n s :
  starts_path s = true →
  ∃ m u,
    Re.match_at false REDACT_PATTERN n s = Some m
    ∧ 0 < Re.m_length m
    ∧ s = u +:+ Text.drop_chars (Re.m_length m) s
    ∧ path_like u
    ∧ token_ends (Text.drop_chars (Re.m_length m) s).
Proof.
  unfold Re.match_at, REDACT_PATTERN.
  destruct s as [|c s1]; [discriminate|]. cbn [starts_path].
  destruct (Text.is_ascii_letter c) eqn:Hl.
  - destruct s1 as [|c1 [|c2 [|d s4]]]; try discriminate.
    redact_run. rewrite Hl.
    destruct (Ascii.eqb_spec ":" c1) as [<-|]; [|discriminate].
    destruct (Ascii.eqb_spec "\" c2) as [<-|]; [|discriminate].
    cbn [andb]. intros Hd. rewrite Hd.
    rewrite many_takes_all.
    exists_match
      (String c (String ":" (String "\" (String d (take_run Re.nonspace s4))))).
    replace (S (S (S (S n))) + run_length Re.nonspace s4 - n)
      with (S (S (S (S (run_length Re.nonspace s4))))) by lia.
    split; [lia|]. split; [|split].
    + cbn [Text.drop_chars]. rewrite drop_run_length, !app_cons.
      rewrite <- take_run_after_run. reflexivity.
    + left. exists c, (String d (take_run Re.nonspace s4)).
      split; [reflexivity|]. split; [exact Hl|]. split; [discriminate|].
      cbn [Text.all_chars]. rewrite Hd, take_run_all. reflexivity.
    + cbn [Text.drop_chars]. rewrite drop_run_length. apply after_run_ends.
  - redact_run. rewrite Hl.
    destruct (Ascii.eqb_spec "/" c) as [<-|]; [|discriminate].
    destruct s1 as [|d s2]; [discriminate|]. intros Hd. rewrite Hd.
    rewrite many_takes_all.
    exists_match (String "/" (String d (take_run Re.nonspace s2))).
    replace (S (S n) + run_length Re.nonspace s2 - n)
      with (S (S (run_length Re.nonspace s2))) by lia.
    split; [lia|]. split; [|split].
    + cbn [Text.drop_chars]. rewrite drop_run_length, !app_cons.
      rewrite <- take_run_after_run. reflexivity.
    + right. exists (String d (take_run Re.nonspace s2)).
      split; [reflexivity|]. split; [discriminate|].
      cbn [Text.all_chars]. rewrite Hd, take_run_all. reflexivity.
    + cbn [Text.drop_chars]. rewrite drop_run_length. apply after_run_ends.
Qed.

(** [_redact_paths] from position [n] on *)
Definition redact_from (n : nat) (s : string) : string :=
  Re.sub_from false REDACT_PATTERN redaction_marker 0 n s.

Lemma sub_from_skip k n s :
  Re.sub_from false REDACT_PATTERN redaction_marker k n s
  = redact_from (n + k) (Text.drop_chars k s).
Proof.
  revert n s. induction k as [|k IH]; intros n s.
  - rewrite Nat.add_0_r. reflexivity.
  - destruct s as [|c t].
    + unfold redact_from. cbn [Re.sub_from Text.drop_chars].
      rewrite match_at_redact_none by reflexivity. reflexivity.
    + cbn [Re.sub_from Text.drop_chars]. rewrite IH. f_equal. lia.
Qed.

Lemma redact_from_nil n : redact_from n EmptyString = EmptyString.
Proof.
  unfold redact_from. cbn [Re.sub_from].
  rewrite match_at_redact_none by reflexivity. reflexivity.
Qed.

Lemma redact_from_keep n c t :
  starts_path (String c t) = false →
  redact_from n (String c t) = String c (redact_from (S n) t).
Proof.
  intros H. unfold redact_from. cbn [Re.sub_from].
  rewrite match_at_redact_none by exact H. reflexivity.
Qed.

(** Where a path starts, the token up to the next whitespace is replaced. *)
Lemma redact_from_token n s :
  starts_path s = true →
  ∃ u rest k,
    s = u +:+ rest ∧ path_like u ∧ token_ends rest
    ∧ String.length rest < String.length s
    ∧ redact_from n s = redaction_marker +:+ redact_from k rest.
Proof.
  intros H.
  destruct (match_at_redact_some n s H) as (m & u & Hm & Hlen & Hs & Hu & Hend).
  destruct s as [|c t]; [discriminate|].
  exists u, (Text.drop_chars (Re.m_length m) (String c t)).
  destruct (Re.m_length m) as [|k] eqn:Hk; [lia|].
  exists (S n + k). split; [exact Hs|]. split; [exact Hu|]. split; [exact Hend|].
  split.
  - cbn [Text.drop_chars String.length].
    assert (Hdrop : ∀ j x, String.length (Text.drop_chars j x) ≤ String.length x).
    { induction j as [|j IHj]; intros [|y x]; cbn [Text.drop_chars String.length];
        try lia. specialize (IHj x). lia. }
    specialize (Hdrop k t). lia.
  - unfold redact_from at 1. cbn [Re.sub_from]. rewrite Hm, Hk.
    rewrite sub_from_skip. reflexivity.
Qed.

Lemma redact_from_path n s :
  starts_path s = true →
  ∃ u rest k,
    s = u +:+ rest ∧ path_like u ∧ String.length rest < String.length s
    ∧ redact_from n s = redaction_marker +:+ redact_from k rest.
Proof.
  intros H.
  destruct (redact_from_token n s H) as (u & rest & k & Hs & Hu & _ & Hlt & Heq).
  exists u, rest, k. repeat split; assumption.
Qed.

Lemma starts_path_head s :
  starts_path s = true → ∃ d t, s = String d t ∧ Re.nonspace d = true.
Proof.
  destruct s as [|c t]; [discriminate|]. cbn [starts_path]. intros H.
  exists c, t. split; [reflexivity|].
  destruct (Text.is_ascii_letter c) eqn:Hl; [apply letter_nonspace, Hl|].
  destruct (Ascii.eqb_spec "/" c) as [<-|]; [reflexivity|discriminate].
Qed.

(** The head of the output is the marker or the head of the input. *)
Lemma redact_from_head n t :
  (∃ x, redact_from n t = String "[" x)
  ∨ (starts_path t = false
     ∧ redact_from n t
       = match t with
         | EmptyString => EmptyString
         | String c t' => String c (redact_from (S n) t')
         end).
Proof.
  destruct (starts_path t) eqn:H.
  - left. destruct (redact_from_path n t H) as (u & rest & k & _ & _ & _ & ->).
    eexists. unfold redaction_marker. rewrite app_cons. reflexivity.
  - right. split; [reflexivity|]. destruct t as [|c t'].
    + apply redact_from_nil.
    + apply redact_from_keep, H.
Qed.

(** A character that was kept does not start a path in the output. *)
Lemma kept_char_starts_no_path n c t :
  starts_path (String c t) = false →
  starts_path (String c (redact_from n t)) = false.
Proof.
  cbn [starts_path]. intros H.
  destruct (Text.is_ascii_letter c).
  - destruct (redact_from_head n t) as [[x ->]|[Ht ->]];
      [destruct x as [|? [|? ?]]; reflexivity|].
    destruct t as [|c1 t1]; [reflexivity|].
    destruct (Ascii.eqb ":" c1);
      [|destruct (redact_from (S n) t1) as [|? [|]]; reflexivity].
    destruct (redact_from_head (S n) t1) as [[x ->]|[Ht1 ->]];
      [destruct x; reflexivity|].
    destruct t1 as [|c2 t2]; [reflexivity|].
    destruct (Ascii.eqb "\" c2);
      [|destruct (redact_from (S (S n)) t2); reflexivity].
    cbn [andb] in *.
    destruct (starts_path t2) eqn:Ht2.
    + destruct (starts_path_head t2 Ht2) as (d & t3 & -> & Hd). congruence.
    + destruct t2 as [|d t3]; [rewrite redact_from_nil; reflexivity|].
      rewrite (redact_from_keep _ _ _ Ht2). exact H.
  - destruct (Ascii.eqb "/" c); [|reflexivity].
    destruct (starts_path t) eqn:Ht.
    + destruct (starts_path_head t Ht) as (d & t' & -> & Hd). congruence.
    + destruct t as [|d t']; [rewrite redact_from_nil; reflexivity|].
      rewrite (redact_from_keep _ _ _ Ht). exact H.
Qed.

(** Some suffix of [s] starts with a match of [REDACT_PATTERN] *)
Fixpoint has_path (s : string) : bool :=
  starts_path s ||
  match s with
  | EmptyString => false
  | String _ t => has_path t
  end.

Lemma marker_has_no_path x :
  has_path (redaction_marker +:+ x) = has_path x.
Proof.
  unfold redaction_marker. rewrite !app_cons.
  change (EmptyString +:+ x) with x.
  destruct x as [|a [|b x]]; reflexivity.
Qed.

Lemma redact_from_has_no_path (L : nat) :
  ∀ s n, String.length s ≤ L → has_path (redact_from n s) = false.
Proof.
  induction L as [|L IH]; intros s n Hlen.
  - destruct s; [|cbn in Hlen; lia]. rewrite redact_from_nil. reflexivity.
  - destruct (starts_path s) eqn:H.
    + destruct (redact_from_path n s H) as (u & rest & k & _ & _ & Hlt & ->).
      rewrite marker_has_no_path. apply IH. lia.
    + destruct s as [|c t]; [rewrite redact_from_nil; reflexivity|].
      rewrite (redact_from_keep _ _ _ H). cbn [has_path].
      rewrite (kept_char_starts_no_path _ _ _ H), IH; [reflexivity|].
      cbn in Hlen. lia.
Qed.

Lemma has_path_app pre y : has_path y = true → has_path (pre +:+ y) = true.
Proof.
  intros H. induction pre as [|c pre IH]; [exact H|].
  rewrite app_cons. cbn [has_path]. rewrite IH. apply orb_true_r.
Qed.

Lemma path_like_starts u post : path_like u → starts_path (u +:+ post) = true.
Proof.
  intros [(c & tail & -> & Hl & Hne & Hall)|(tail & -> & Hne & Hall)];
    destruct tail as [|d tail]; try congruence;
    cbn [Text.all_chars] in Hall; apply andb_true_iff in Hall as [Hd _];
    rewrite !app_cons; cbn [starts_path].
  - rewrite Hl, Hd. reflexivity.
  - rewrite Hd. reflexivity.
Qed.

Lemma holds_path_has_path text : holds_path text → has_path text = true.
Proof.
  intros (pre & u & post & -> & Hu). apply has_path_app.
  destruct (u +:+ post) eqn:E.
  - apply (path_like_starts u post) in Hu. rewrite E in Hu. discriminate.
  - cbn [has_path]. rewrite <- E, (path_like_starts u post Hu). reflexivity.
Qed.

(** No path-like substring is left in what [_redact_paths] returns. *)
Lemma redact_paths_leaves_no_path (text : string) :
  ¬ holds_path (_redact_paths text).
Proof.
  intros H. apply holds_path_has_path in H.
  unfold _redact_paths, Re.sub in H. fold (redact_from 0 text) in H.
  rewrite (redact_from_has_no_path (String.length text)) in H by lia.
  discriminate.
Qed.

(** A path-like token starts [s]. *)
Definition opens_path (s : string) : Prop :=
  ∃ u rest, s = u +:+ rest ∧ path_like u.

(** [redacts text out]: reading [text] from the left, a character at which
    no path-like token starts is kept, and where one starts, the token up to
    the next whitespace, or to the end, is replaced by the marker. *)
Inductive redacts : string → string → Prop :=
| redacts_end : redacts EmptyString EmptyString
| redacts_keep c s o :
    ¬ opens_path (String c s) → redacts s o →
    redacts (String c s) (String c o)
| redacts_path u s o :
    path_like u → token_ends s → redacts s o →
    redacts (u +:+ s) (redaction_marker +:+ o).

Lemma opens_path_starts s : opens_path s ↔ starts_path s = true.
Proof.
  split.
  - intros (u & rest & -> & Hu). apply path_like_starts, Hu.
  - intros H. destruct (redact_from_path 0 s H) as (u & rest & k & Hs & Hu & _).
    exists u, rest. split; assumption.
Qed.

Lemma path_like_nonspace u : path_like u → Text.all_chars Re.nonspace u = true.
Proof.
  intros [(c & tail & -> & Hl & _ & Hall)|(tail & -> & _ & Hall)];
    cbn [Text.all_chars]; rewrite Hall, ?(letter_nonspace c Hl); reflexivity.
Qed.

(** A text is cut in one way only into a run without whitespace and a rest
    that is empty or starts with whitespace. *)
Lemma token_unique u :
  ∀ u' s s',
    Text.all_chars Re.nonspace u = true → Text.all_chars Re.nonspace u' = true →
    token_ends s → token_ends s' → u +:+ s = u' +:+ s' → u = u' ∧ s = s'.
Proof.
  assert (Hclash : ∀ c t x, Text.all_chars Re.nonspace (String c t) = true →
            token_ends (String c x) → False).
  { intros c t x Hall Hend. cbn [Text.all_chars] in Hall.
    apply andb_true_iff in Hall as [Hc _]. cbn [token_ends] in Hend.
    unfold Re.nonspace in Hc. rewrite Hend in Hc. discriminate. }
  induction u as [|c t IH]; intros [|c' t'] s s' Hu Hu' Hs Hs' Heq.
  - split; [reflexivity|exact Heq].
  - change (EmptyString +:+ s) with s in Heq. rewrite app_cons in Heq. subst s.
    destruct (Hclash _ _ _ Hu' Hs).
  - change (EmptyString +:+ s') with s' in Heq. rewrite app_cons in Heq. subst s'.
    destruct (Hclash _ _ _ Hu Hs').
  - rewrite !app_cons in Heq. injection Heq as -> Heq.
    cbn [Text.all_chars] in Hu, Hu'.
    apply andb_true_iff in Hu as [_ Hu]. apply andb_true_iff in Hu' as [_ Hu'].
    destruct (IH t' s s' Hu Hu' Hs Hs' Heq) as [-> ->]. split; reflexivity.
Qed.

(** The relation allows one output only, the one of [_redact_paths]. *)
Lemma redacts_unique s o : redacts s o → ∀ n, redact_from n s = o.
Proof.
  induction 1 as [|c s o Hno _ IH|u s o Hu Hend _ IH]; intros n.
  - apply redact_from_nil.
  - rewrite redact_from_keep, IH; [reflexivity|].
    destruct (starts_path (String c s)) eqn:E; [|reflexivity].
    destruct Hno. apply opens_path_starts, E.
  - destruct (redact_from_token n (u +:+ s) (path_like_starts u s Hu))
      as (u' & rest & k & Heq & Hu' & Hend' & _ & ->).
    destruct (token_unique u u' s rest (path_like_nonspace u Hu)
                (path_like_nonspace u' Hu') Hend Hend' Heq) as [_ <-].
    rewrite IH. reflexivity.
Qed.

Lemma redact_from_redacts (L : nat) :
  ∀ s n, String.length s ≤ L → redacts s (redact_from n s).
Proof.
  induction L as [|L IH]; intros s n Hlen.
  - destruct s; [|cbn in Hlen; lia]. rewrite redact_from_nil. constructor.
  - destruct (starts_path s) eqn:H.
    + destruct (redact_from_token n s H) as (u & rest & k & Hs & Hu & Hend & Hlt & ->).
      rewrite Hs at 1. apply redacts_path; [exact Hu|exact Hend|]. apply IH. lia.
    + destruct s as [|c t]; [rewrite redact_from_nil; constructor|].
      rewrite (redact_from_keep _ _ _ H). constructor.
      * intros Hopen. apply opens_path_starts in Hopen. congruence.
      * apply IH. cbn in Hlen. lia.
Qed.

Lemma redact_paths_redacts (text : string) : redacts text (_redact_paths text).
Proof. apply (redact_from_redacts (String.length text)). lia. Qed.

Lemma redact_paths_redacts_all (entries : list string) :
  Forall2 redacts entries (_redact_paths <$> entries).
Proof.
  induction entries as [|p ps IH]; constructor;
    [apply redact_paths_redacts | exact IH].
Qed.

Lemma redacts_all_unique (entries returned : list string) :
  Forall2 redacts entries returned → returned = _redact_paths <$> entries.
Proof.
  induction 1 as [|p r ps rs Hp _ IH]; [reflexivity|].
  cbn [fmap list_fmap]. rewrite <- IH. f_equal.
  unfold _redact_paths, Re.sub. fold (redact_from 0 p).
  symmetry. apply redacts_unique, Hp.
Qed.

(** C4, amended.  For a payload that validation accepts, in fantasy mode
    each returned plan entry is the input entry read from the left, in which
    every token that starts with a drive letter, a colon and a backslash, or
    with a slash, and has at least one more character before the next
    whitespace, is replaced up to that whitespace (or the end of the entry)
    by "[path-redacted]", and every other character is kept; this fixes the
    returned plan, and no token of that shape is left in it.  The part of a
    path that follows a whitespace, and a slash or a drive root with
    whitespace or nothing after it, are kept.  Outside fantasy mode the plan
    is returned as it was and style.fantasy is false. *)
Theorem redaction_policy (payload : Any) (directive : ArchonDirective)
    (fantasy_mode : bool) (w w' : World) (cleaned : Dict.t) :
  parse_obj payload = Some directive →
  validate_archon_payload payload fantasy_mode w = (w', Returned cleaned) →
  (fantasy_mode = true →
   ∃ returned_plan,
     Dict.get "plan" cleaned = Some (AList (AStr <$> returned_plan))
     ∧ Forall2 redacts (plan directive) returned_plan
     ∧ (∀ other, Forall2 redacts (plan directive) other → other = returned_plan)
     ∧ Forall (fun entry => ¬ holds_path entry) returned_plan)
  ∧ (fantasy_mode = false →
     Dict.get "plan" cleaned = Some (AList (AStr <$> plan directive))
     ∧ ∃ st, Dict.get "style" cleaned = Some (ADict st)
             ∧ Dict.get "fantasy" st = Some (ABool false)).
Proof.
  intros Hparse. unfold validate_archon_payload. rewrite Hparse.
  assert (Hok : ∀ c : M unit, (∃ e, ∀ x, c x = (set_grimoire_file
             (fun lines => lines ++ [shell_rejection payload]) x, Raised e))
           ∨ c = ret tt →
           ∀ k : M Dict.t, bind c (fun _ => k) w = (w', Returned cleaned) →
           k w = (w', Returned cleaned)).
  { intros c [[e Hc] | ->] k; unfold bind; [rewrite Hc; discriminate|].
    intros H; exact H. }
  intros Hrun. apply Hok in Hrun.
  - split; intros ->; injection Hrun as <- <-.
    + eexists. split; [reflexivity|]. split; [|split].
      * apply redact_paths_redacts_all.
      * intros other Hother. apply redacts_all_unique, Hother.
      * apply Forall_fmap, Forall_forall. intros p _.
        apply redact_paths_leaves_no_path.
    + split; [reflexivity|]. eexists. split; reflexivity.
  - destruct (negb (allow_shell (safety directive))); [|right; reflexivity].
    destruct (asks_for_shell _); [left|right; reflexivity].
    eexists. intros x. reflexivity.
Qed.

(** The words of the claim: an absolute POSIX path starts with a slash, a
    Windows drive path with a drive letter, a colon and a backslash. *)
Definition absolute_path (u : string) : Prop :=
  (∃ tail, u = String "/" tail)
  ∨ (∃ c tail, Text.is_ascii_letter c = true
               ∧ u = String c (String ":" (String "\" tail))).

Definition occurs_in (u text : string) : Prop :=
  ∃ pre post, text = pre +:+ u +:+ post.

(** C4 as the claim states it: no absolute path that occurs in an entry of
    the input plan occurs in an entry of the returned plan. *)
Definition no_raw_path_survives (plan_in returned : list string) : Prop :=
  ∀ u, absolute_path u →
       (∃ entry, In entry plan_in ∧ occurs_in u entry) →
       ∀ entry, In entry returned → ¬ occurs_in u entry.

End RedactionFacts.

(** The payload of [test_shell_block_logs] *)
Definition shell_payload : Any :=
  ADict [ ("intent", AStr "invoke"); ("daemon", AStr "claude");
          ("task", AStr "Run shell command");
          ("safety", ADict [("allow_shell", ABool false); ("allow_net", ABool false)]);
          ("style", ADict [("fantasy", ABool true); ("voice", AStr "archon")]);
          ("plan", AList [AStr "Open shell and execute"]) ].

Definition shell_directive : ArchonDirective :=
  {| intent := intent_invoke; daemon := choose_claude;
     task := "Run shell command";
     safety := {| allow_shell := false; allow_net := false |};
     style := {| fantasy := true; voice := voice_archon |};
     parameters := None;
     plan := ["Open shell and execute"] |}.

Lemma shell_policy_witness :
  let w := Registry.initial_world None in
  ∃ w',
    Safety.validate_archon_payload (env:=Builtins.mock_env) shell_payload true w
    = (w', Raised (ValueError "Shell execution requested but disallowed"))
    ∧ w' = set_grimoire_file (fun lines => lines ++ [shell_rejection shell_payload]) w
    ∧ grimoire_file w' = grimoire_file w ++ [shell_rejection shell_payload].
Proof.
  intros w.
  apply (shell_policy (env:=Builtins.mock_env) shell_payload shell_directive true w).
  - reflexivity.
  - reflexivity.
  - exists "Run shell command". split; [left; reflexivity|].
    exists "Run ", "shell", " command". split; [reflexivity|].
    exists "s"%char, "h"%char, "e"%char, "l"%char, "l"%char.
    repeat split; left; reflexivity.
Defined.

(** The payload of [test_archon_schema_roundtrip] *)
Definition roundtrip_payload : Any :=
  ADict [ ("intent", AStr "invoke"); ("daemon", AStr "claude");
          ("task", AStr "Compile diagnostics");
          ("safety", ADict [("allow_shell", ABool false); ("allow_net", ABool false)]);
          ("style", ADict [("fantasy", ABool true); ("voice", AStr "archon")]);
          ("plan", AList [AStr "Inspect /var/log/app.log"; AStr "Report findings"]) ].

Definition roundtrip_directive : ArchonDirective :=
  {| intent := intent_invoke; daemon := choose_claude;
     task := "Compile diagnostics";
     safety := {| allow_shell := false; allow_net := false |};
     style := {| fantasy := true; voice := voice_archon |};
     parameters := None;
     plan := ["Inspect /var/log/app.log"; "Report findings"] |}.

Lemma redaction_policy_witness :
  ∃ returned_plan,
    returned_plan = ["Inspect [path-redacted]"; "Report findings"]
    ∧ Forall2 redacts (plan roundtrip_directive) returned_plan
    ∧ Forall (fun entry => ¬ holds_path entry) returned_plan.
Proof.
  destruct (Safety.validate_archon_payload (env:=Builtins.mock_env)
              roundtrip_payload true (Registry.initial_world None))
    as [w1 [cleaned | e]] eqn:Hrun; [|vm_compute in Hrun; discriminate].
  destruct (redaction_policy (env:=Builtins.mock_env) roundtrip_payload
              roundtrip_directive true (Registry.initial_world None) w1 cleaned
              eq_refl Hrun) as [Hfantasy _].
  destruct (Hfantasy eq_refl) as (returned_plan & _ & Hred & _ & Hno).
  exists returned_plan. split; [|split; assumption].
  rewrite (redacts_all_unique _ _ Hred). vm_compute. reflexivity.
Defined.

(** A plan that names the root directory, and a Windows path with a space *)
Definition spaced_payload : Any :=
  ADict [ ("intent", AStr "invoke"); ("daemon", AStr "claude");
          ("task", AStr "Compile diagnostics");
          ("safety", ADict [("allow_shell", ABool false); ("allow_net", ABool false)]);
          ("style", ADict [("fantasy", ABool true); ("voice", AStr "archon")]);
          ("plan", AList [AStr "cd /"; AStr "see C:\Program Files\x"]) ].

Definition spaced_directive : ArchonDirective :=
  {| intent := intent_invoke; daemon := choose_claude;
     task := "Compile diagnostics";
     safety := {| allow_shell := false; allow_net := false |};
     style := {| fantasy := true; voice := voice_archon |};
     parameters := None;
     plan := ["cd /"; "see C:\Program Files\x"] |}.

(** C4 as the claim states it fails.  Validation in fantasy mode accepts a
    plan with the entries "cd /" and "see C:\Program Files\x" and returns
    them as "cd /" and "see [path-redacted] Files\x": the absolute path "/"
    of the first entry is in the returned plan as it came, and of the
    Windows path only the part before the space is replaced, so that its
    rest "Files\x" is in the returned plan too. *)
Lemma redaction_stops_at_whitespace :
  ∃ cleaned returned,
    Safety.validate_archon_payload (env:=Builtins.mock_env) spaced_payload true
      (Registry.initial_world None)
    = (Registry.initial_world None, Returned cleaned)
    ∧ parse_obj (Env:=Builtins.mock_env) spaced_payload = Some spaced_directive
    ∧ Dict.get "plan" cleaned = Some (AList (AStr <$> returned))
    ∧ returned = ["cd /"; "see [path-redacted] Files\x"]
    ∧ ¬ no_raw_path_survives (plan spaced_directive) returned
    ∧ absolute_path "C:\Program Files\x"
    ∧ occurs_in "Files\x" "C:\Program Files\x"
    ∧ (∃ entry, In entry returned ∧ occurs_in "Files\x" entry).
Proof.
  eexists _, ["cd /"; "see [path-redacted] Files\x"].
  split; [vm_compute; reflexivity|]. split; [reflexivity|].
  split; [reflexivity|]. split; [reflexivity|]. split; [|split; [|split]].
  - intros Hclaim.
    apply (Hclaim "/" (or_introl (ex_intro _ EmptyString eq_refl))) with (entry := "cd /").
    + exists "cd /". split; [left; reflexivity|].
      exists "cd ", EmptyString. reflexivity.
    + left. reflexivity.
    + exists "cd ", EmptyString. reflexivity.
  - right. exists "C"%char, "Program Files\x". split; reflexivity.
  - exists "C:\Program ", EmptyString. reflexivity.
  - exists "see [path-redacted] Files\x". split; [right; left; reflexivity|].
    exists "see [path-redacted] ", EmptyString. reflexivity.
Qed.

Definition snd_returned {A} (r : World * Outcome A) : option A :=
  match snd r with Returned a => Some a | Raised _ => None end.

(** Where the pattern stops: a path ends at the first whitespace, and a
    slash or a drive root with nothing after it is no match. *)
Example redaction_boundaries :
  Safety._redact_paths "see C:\Program Files\x" = "see [path-redacted] Files\x"
  ∧ Safety._redact_paths "cd /" = "cd /"
  ∧ Safety._redact_paths "open C:\ now" = "open C:\ now"
  ∧ Safety._redact_paths "src/app.py and /etc/passwd"
    = "src[path-redacted] and [path-redacted]".
Proof. vm_compute. repeat split; reflexivity. Qed.

(** The two modes on that payload *)
Example redaction_run :
  let w := Registry.initial_world None in
  (Dict.get "plan" <$> snd_returned
     (Safety.validate_archon_payload (env:=Builtins.mock_env) roundtrip_payload true w))
  = Some (Some (AList [AStr "Inspect [path-redacted]"; AStr "Report findings"]))
  ∧ (Dict.get "style" <$> snd_returned
       (Safety.validate_archon_payload (env:=Builtins.mock_env) roundtrip_payload false w))
    = Some (Some (ADict [("fantasy", ABool false); ("voice", AStr "archon")])).
Proof. vm_compute. split; reflexivity. Qed.


(** ** The latency policy and the fallback route *)

Section RouterFacts.
Import Router.
Context {env : Env}.

Lemma exceeds_spec (latency budget : Q) :
  exceeds latency budget = true ↔ (budget < latency)%Q.
Proof.
  unfold exceeds. rewrite negb_true_iff, <- not_true_iff_false, Qle_bool_iff.
  split; [apply Qnot_le_lt | apply Qlt_not_le].
Qed.

(** [is_codegen] of [_apply_latency_policy] *)
Definition is_codegen (decision : ArchonDecision) : bool :=
  String.eqb (intent decision) "invoke"
  && bool_decide (target_daemon decision = Some CLAUDE).

(** The budget that applies to a decision *)
Definition budget_of (decision : ArchonDecision) : Q :=
  if is_codegen decision then CODEGEN_LATENCY_BUDGET else SIMPLE_LATENCY_BUDGET.

Lemma is_codegen_spec (decision : ArchonDecision) :
  is_codegen decision = true
  ↔ intent decision = "invoke" ∧ target_daemon decision = Some CLAUDE.
Proof.
  unfold is_codegen. rewrite andb_true_iff, String.eqb_eq, bool_decide_eq_true.
  reflexivity.
Qed.

Lemma apply_latency_policy_over (decision : ArchonDecision) (t : Q) :
  (budget_of decision < t)%Q →
  ∃ step,
    _apply_latency_policy decision t
    = {| intent := intent decision;
         target_daemon := Some LIQUIDMETAL;
         task := task decision;
         parameters := parameters decision;
         plan := step :: plan decision;
         plan_in_raw := plan_in_raw decision;
         narration := narration decision;
         reasoning := reasoning decision;
         confidence := confidence decision;
         fallback_used := true;
         raw := Dict.set "daemon" (AStr "liquidmetal")
                  (if plan_in_raw decision
                   then Dict.set "plan" (AList (AStr <$> step :: plan decision))
                          (raw decision)
                   else raw decision);
         parsed_summary := parsed_summary decision |}.
Proof.
  intros H. apply exceeds_spec in H.
  unfold _apply_latency_policy, budget_of, is_codegen in *.
  destruct (String.eqb (intent decision) "invoke"
            && bool_decide (target_daemon decision = Some CLAUDE));
    cbn [negb andb]; rewrite H; eexists; reflexivity.
Qed.

Lemma apply_latency_policy_within (decision : ArchonDecision) (t : Q) :
  ¬ (budget_of decision < t)%Q →
  _apply_latency_policy decision t = decision.
Proof.
  intros H. rewrite <- exceeds_spec, not_true_iff_false in H.
  unfold _apply_latency_policy, budget_of, is_codegen in *.
  destruct (String.eqb (intent decision) "invoke"
            && bool_decide (target_daemon decision = Some CLAUDE));
    cbn [negb andb]; rewrite H; reflexivity.
Qed.

(** C5.  A decision built from a validated planner payload starts with
    fallback_used false.  Applying the latency policy with elapsed time t
    sets fallback_used exactly when t exceeds the budget of the decision: 2.5
    for a codegen decision (intent "invoke" and target CLAUDE), 0.6 for any
    other.  When it does, the target becomes LIQUIDMETAL and exactly one step
    is put in front of the plan; when it does not, the decision is unchanged.
    The policy is applied once: what [_generate_decision] returns on the
    planner route is the decision after that single application, with no
    further check of the rerouted decision. *)
Theorem latency_policy (tool_registered : bool) (spell_text : string)
    (payload cleaned : Dict.t) (t : Q) (w w1 w2 : World) :
  let decision := _decision_from_payload spell_text cleaned in
  let rerouted := _apply_latency_policy decision t in
  fallback_used decision = false
  ∧ SIMPLE_LATENCY_BUDGET == 6 # 10 ∧ CODEGEN_LATENCY_BUDGET == 25 # 10
  ∧ (is_codegen decision = true
     ↔ intent decision = "invoke" ∧ target_daemon decision = Some CLAUDE)
  ∧ (fallback_used rerouted = true ↔ (budget_of decision < t)%Q)
  ∧ ((budget_of decision < t)%Q →
     target_daemon rerouted = Some LIQUIDMETAL
     ∧ ∃ step, plan rerouted = step :: plan decision)
  ∧ (¬ (budget_of decision < t)%Q → rerouted = decision)
  ∧ (archon_enabled settings && tool_registered = true →
     _request_archon_directive spell_text w = (w1, Returned (payload, t)) →
     Safety.validate_archon_payload (ADict payload) (veil_enabled w) w1
     = (w2, Returned cleaned) →
     snd (_generate_decision tool_registered spell_text w) = Returned rerouted).
Proof.
  intros decision rerouted.
  split; [reflexivity|]. split; [reflexivity|]. split; [reflexivity|].
  split; [apply is_codegen_spec|]. split; [|split; [|split]].
  - split.
    + intros Hfb. destruct (Qlt_le_dec (budget_of decision) t) as [Hlt|Hle];
        [exact Hlt|].
      subst rerouted. rewrite apply_latency_policy_within in Hfb
        by (apply Qle_not_lt, Hle).
      discriminate.
    + intros Hlt. subst rerouted.
      destruct (apply_latency_policy_over decision t Hlt) as [step ->]. reflexivity.
  - intros Hlt. subst rerouted.
    destruct (apply_latency_policy_over decision t Hlt) as [step ->].
    split; [reflexivity|]. exists step. reflexivity.
  - apply apply_latency_policy_within.
  - intros Hon Hreq Hval. unfold _generate_decision. mred. rewrite Hon. mred.
    rewrite Hreq. mred. rewrite Hval. mred.
    destruct (running_loop w2); reflexivity.
Qed.

End RouterFacts.

(** The payload and the latency of [test_router_latency_budget] *)
Definition slow_summon : Dict.t :=
  [ ("intent", AStr "summon"); ("daemon", AStr "claude");
    ("task", AStr "Summon analytics");
    ("safety", ADict [("allow_shell", ABool false); ("allow_net", ABool false)]);
    ("style", ADict [("fantasy", ABool true); ("voice", AStr "archon")]);
    ("parameters", ANone);
    ("plan", AList [AStr "Channel spectral link"]) ].

Lemma latency_policy_witness :
  let decision :=
    Router._decision_from_payload (env:=Builtins.mock_env) "summon claude" slow_summon in
  let rerouted := Router._apply_latency_policy decision (8 # 10) in
  Router.fallback_used rerouted = true
  ∧ Router.target_daemon rerouted = Some LIQUIDMETAL
  ∧ ∃ step, Router.plan rerouted = step :: Router.plan decision.
Proof.
  intros decision rerouted.
  destruct (latency_policy (env:=Builtins.mock_env) true "summon claude"
              slow_summon slow_summon (8 # 10)
              (Registry.initial_world None) (Registry.initial_world None)
              (Registry.initial_world None))
    as (_ & _ & _ & _ & Hiff & Hover & _).
  assert (Hlt : (budget_of decision < 8 # 10)%Q) by reflexivity.
  split; [apply Hiff, Hlt|]. apply Hover, Hlt.
Defined.

(** A codegen decision is given 2.5 seconds, any other 0.6 *)
Example latency_budgets_run :
  let simple :=
    Router._decision_from_payload (env:=Builtins.mock_env) "summon claude" slow_summon in
  let codegen :=
    Router._decision_from_payload (env:=Builtins.mock_env) "invoke claude"
      (Dict.set "intent" (AStr "invoke") slow_summon) in
  Router.fallback_used (Router._apply_latency_policy simple (6 # 10)) = false
  ∧ Router.fallback_used (Router._apply_latency_policy simple (61 # 100)) = true
  ∧ Router.fallback_used (Router._apply_latency_policy codegen (25 # 10)) = false
  ∧ Router.fallback_used (Router._apply_latency_policy codegen (251 # 100)) = true
  ∧ Router.plan (Router._apply_latency_policy codegen (3 # 1))
    = [ "Codegen latency too high; delegating to LiquidMetal summary.";
        "Channel spectral link" ].
Proof. vm_compute. repeat split; reflexivity. Qed.


Section FallbackFacts.
Import Router.
Context {env : Env}.

(** What the pattern matcher makes of "summon claude" *)
Lemma parse_summon_claude :
  SpellParser.parse "summon claude"
  = Returned {| SpellParser.action := SpellParser.SUMMON;
                SpellParser.daemon := Some "claude";
                SpellParser.task := None;
                SpellParser.parameters := None;
                SpellParser.confidence := Qmin 1 (inject_Z 80 / 100);
                SpellParser.raw_input := "summon claude" |}.
Proof. vm_compute. reflexivity. Qed.

(** C6, amended.  When no external planner is available (the orchestrator
    is disabled or its tool is not registered), routing "summon claude" takes
    the pattern-matcher route and yields a decision with intent "summon",
    target CLAUDE, fallback_used true and the fixed confidence 0.6; the 0.8 of
    the matching pattern is only kept under "confidence" in the raw parse. *)
Theorem fallback_route_summon_claude (tool_registered : bool) (w : World) :
  archon_enabled settings && tool_registered = false →
  ∃ decision parser_confidence,
    _generate_decision tool_registered "summon claude" w = (w, Returned decision)
    ∧ intent decision = "summon"
    ∧ target_daemon decision = Some CLAUDE
    ∧ fallback_used decision = true
    ∧ confidence decision = Some (6 # 10)
    ∧ Dict.get "confidence" (raw decision) = Some (AFloat parser_confidence)
    ∧ parser_confidence == 8 # 10.
Proof.
  intros Hoff. unfold _generate_decision. mred. rewrite Hoff.
  unfold _decision_from_spell_parser. rewrite parse_summon_claude. mred.
  eexists _, _. split; [reflexivity|]. repeat split; reflexivity.
Qed.

End FallbackFacts.

Lemma fallback_route_summon_claude_witness :
  ∃ decision parser_confidence,
    Router._generate_decision (env:=Builtins.mock_env) false "summon claude"
      (Registry.initial_world None)
    = (Registry.initial_world None, Returned decision)
    ∧ Router.intent decision = "summon"
    ∧ Router.target_daemon decision = Some CLAUDE
    ∧ Router.fallback_used decision = true
    ∧ Router.confidence decision = Some (6 # 10)
    ∧ Dict.get "confidence" (Router.raw decision) = Some (AFloat parser_confidence)
    ∧ parser_confidence == 8 # 10.
Proof.
  apply (fallback_route_summon_claude (env:=Builtins.mock_env) false
           (Registry.initial_world None)).
  reflexivity.
Defined.

(** C6 as the claim states it fails: the decision of the fallback route for
    "summon claude" carries confidence 0.6, which is not 0.8 nor within a
    hundredth of it. *)
Lemma fallback_confidence_is_not_parser_confidence :
  ¬ ∃ decision c,
      snd (Router._generate_decision (env:=Builtins.mock_env) false "summon claude"
             (Registry.initial_world None)) = Returned decision
      ∧ Router.intent decision = "summon"
      ∧ Router.target_daemon decision = Some CLAUDE
      ∧ Router.fallback_used decision = true
      ∧ Router.confidence decision = Some c
      ∧ (Qabs (c - (8 # 10)) <= 1 # 100)%Q.
Proof.
  intros (decision & c & Hrun & _ & _ & _ & Hc & Hnear).
  vm_compute in Hrun. injection Hrun as <-. cbn in Hc. injection Hc as <-.
  vm_compute in Hnear. apply Hnear. reflexivity.
Qed.

Section ParameterFacts.
Import SpellParser.
Context {env : Env}.

(** C9.  A task with two parameter tokens, the text of the first being the
    beginning of the second: [extract_parameters] removes the first text
    wherever it occurs, so the second token is cut in the middle and its last
    character stays in the returned task.  The claim asks that each matched
    token be removed. *)
Theorem extract_parameters_leaves_residue :
  extract_parameters "run with a=1 with a=12" = Returned ("run 2", [("a", AInt 12)])
  ∧ (Re.m_text <$> Re.finditer true param_pattern "run with a=1 with a=12")
    = ["with a=1"; "with a=12"].
Proof. vm_compute. split; reflexivity. Qed.

(** The typing of a value, case by case *)
Lemma coerce_bool (v : string) :
  Text.lower v = "true" ∨ Text.lower v = "false" →
  coerce v = Returned (ABool (String.eqb (Text.lower v) "true")).
Proof. unfold coerce. intros [-> | ->]; reflexivity. Qed.

Lemma coerce_int (v : string) (n : Z) :
  Text.lower v ≠ "true" → Text.lower v ≠ "false" →
  Text.isdigit v = true → Text.py_int v = Some n →
  coerce v = Returned (AInt n).
Proof.
  unfold coerce. intros Ht Hf Hd Hn.
  apply String.eqb_neq in Ht, Hf. rewrite Ht, Hf, Hd, Hn. reflexivity.
Qed.

Lemma coerce_float (v : string) (x : Q) :
  Text.lower v ≠ "true" → Text.lower v ≠ "false" →
  Text.isdigit v = false → py_float v = Some x →
  coerce v = Returned (AFloat x).
Proof.
  unfold coerce. intros Ht Hf Hd Hx.
  apply String.eqb_neq in Ht, Hf. rewrite Ht, Hf, Hd, Hx. reflexivity.
Qed.

Lemma coerce_str (v : string) :
  Text.lower v ≠ "true" → Text.lower v ≠ "false" →
  Text.isdigit v = false → py_float v = None →
  coerce v = Returned (AStr v).
Proof.
  unfold coerce. intros Ht Hf Hd Hx.
  apply String.eqb_neq in Ht, Hf. rewrite Ht, Hf, Hd, Hx. reflexivity.
Qed.

End ParameterFacts.

(** The three examples of the specification, and a float *)
Example parameter_examples :
  SpellParser.extract_parameters (env:=Builtins.mock_env) "scan with depth=high"
    = Returned ("scan", [("depth", AStr "high")])
  ∧ SpellParser.extract_parameters (env:=Builtins.mock_env) "scan with timeout=30"
    = Returned ("scan", [("timeout", AInt 30)])
  ∧ SpellParser.extract_parameters (env:=Builtins.mock_env) "scan with verbose=true"
    = Returned ("scan", [("verbose", ABool true)])
  ∧ SpellParser.extract_parameters (env:=Builtins.mock_env) "scan   the logs,  with ratio=1.5 ;"
    = Returned ("scan the logs", [("ratio", AFloat (15 # 10))]).
Proof. vm_compute. repeat split; reflexivity. Qed.

(** A value of superscript digits passes [isdigit], and [int] refuses it:
    the error leaves [extract_parameters]. *)
Example superscript_digit_raises :
  ∃ msg,
    SpellParser.extract_parameters (env:=Builtins.mock_env)
      ("go with n=" +:+ String (ascii_of_N 178) EmptyString)
    = Raised (ValueError msg).
Proof. eexists. vm_compute. reflexivity. Qed.

(** ** The worlds a process can reach *)

Section Reachability.
Import Registry Router.
Context {env : Env}.

(** The registry knows every worker, and a worker flagged as registered
    has its tool in the MCP client. *)
Definition registry_wf (w : World) : Prop :=
  (∀ W, is_Some (_daemons w !! W))
  ∧ (∀ W, is_Some (_daemon_states w !! W))
  ∧ (∀ W s, _daemon_states w !! W = Some s → mcp_registered s = true →
            is_Some (_registered_tools w !! DaemonType_value W)).

Lemma DaemonType_value_inj (W W' : DaemonType) :
  DaemonType_value W = DaemonType_value W' → W = W'.
Proof. destruct W, W'; cbn; congruence. Qed.

Lemma initial_world_wf loop : registry_wf (initial_world loop).
Proof.
  split; [|split].
  - intros []; vm_compute; eexists; reflexivity.
  - intros []; vm_compute; eexists; reflexivity.
  - intros [] s H; vm_compute in H; injection H as <-; discriminate.
Qed.

(** Updates that keep the registry well formed *)
Lemma wf_alter_daemon f W w :
  registry_wf w → registry_wf (set_daemons (alter f W) w).
Proof.
  intros (Hd & Hs & Ht). split; [|split]; cbn; [|exact Hs|exact Ht].
  intros W'. apply lookup_alter_is_Some, Hd.
Qed.

Lemma wf_alter_state f W w :
  (∀ s, mcp_registered (f s) = true → mcp_registered s = true) →
  registry_wf w → registry_wf (set_daemon_states (alter f W) w).
Proof.
  intros Hf (Hd & Hs & Ht). split; [|split]; cbn; [exact Hd| |].
  - intros W'. apply lookup_alter_is_Some, Hs.
  - intros W' s. rewrite lookup_alter. case_decide as E.
    + subst W'. destruct (_daemon_states w !! W) as [s0|] eqn:E0; [|discriminate].
      cbn. intros [= <-] Hreg. apply (Ht W s0 E0), Hf, Hreg.
    + apply Ht.
Qed.

Lemma wf_register W cfg f w :
  registry_wf w →
  registry_wf (set_daemon_states (alter f W)
                 (set_registered_tools (insert (DaemonType_value W) cfg) w)).
Proof.
  intros (Hd & Hs & Ht). split; [|split]; cbn; [exact Hd| |].
  - intros W'. apply lookup_alter_is_Some, Hs.
  - intros W' s. rewrite lookup_alter. case_decide as E.
    + subst W'. intros _ _. rewrite lookup_insert_eq. eexists; reflexivity.
    + intros H Hreg. apply lookup_insert_is_Some'. right. apply (Ht W' s H Hreg).
Qed.

Lemma wf_unregister W w :
  registry_wf w →
  registry_wf (set_daemon_states (alter (with_mcp_registered false) W)
                 (set_registered_tools (delete (DaemonType_value W)) w)).
Proof.
  intros (Hd & Hs & Ht). split; [|split]; cbn; [exact Hd| |].
  - intros W'. apply lookup_alter_is_Some, Hs.
  - intros W' s. rewrite lookup_alter. case_decide as E.
    + subst W'. destruct (_daemon_states w !! W); [|discriminate].
      cbn. intros [= <-]. discriminate.
    + intros H Hreg. rewrite lookup_delete_ne; [apply (Ht W' s H Hreg)|].
      intros Hv. apply E, DaemonType_value_inj, Hv.
Qed.

Lemma wf_other (w w' : World) :
  _daemons w' = _daemons w → _daemon_states w' = _daemon_states w →
  _registered_tools w' = _registered_tools w →
  registry_wf w → registry_wf w'.
Proof. unfold registry_wf. intros -> -> ->. tauto. Qed.

Lemma wf_spell_records f w : registry_wf w → registry_wf (set_spell_records f w).
Proof. apply wf_other; reflexivity. Qed.

Lemma wf_clock f w : registry_wf w → registry_wf (set_clock f w).
Proof. apply wf_other; reflexivity. Qed.

Lemma wf_running_loop f w : registry_wf w → registry_wf (set_running_loop f w).
Proof. apply wf_other; reflexivity. Qed.

Lemma wf_event_bus f w : registry_wf w → registry_wf (set_event_bus f w).
Proof. apply wf_other; reflexivity. Qed.

Lemma wf_grimoire_file f w : registry_wf w → registry_wf (set_grimoire_file f w).
Proof. apply wf_other; reflexivity. Qed.

Ltac wf_solve :=
  repeat first
    [ assumption
    | apply wf_spell_records | apply wf_clock | apply wf_running_loop
    | apply wf_event_bus | apply wf_grimoire_file
    | apply wf_register | apply wf_unregister | apply wf_alter_daemon
    | apply wf_alter_state; [intros ?; cbn; congruence|] ].

Lemma register_daemon_wf W mdl rl color caps w :
  registry_wf w → registry_wf (fst (register_daemon W mdl rl color caps w)).
Proof.
  intros Hwf. pose proof Hwf as (Hd & Hs & _).
  destruct (Hd W) as [d Hdw], (Hs W) as [s Hsw].
  unfold register_daemon. mred. rewrite Hdw. mred. rewrite Hsw. mred.
  destruct color as [c|]; [destruct (Text.truthy c)|];
    destruct (Text.truthy rl); do 4 (look Hdw Hsw); wf_solve.
Qed.

Lemma summon_wf W w :
  0 < recursion_limit → registry_wf w → registry_wf (fst (summon W w)).
Proof.
  intros Hrec Hwf. pose proof Hwf as (Hd & Hs & _).
  destruct (Hd W) as [d Hdw], (Hs W) as [s Hsw].
  destruct (is_summoned d) eqn:Hsum.
  - rewrite (summon_again W w d s Hrec Hdw Hsw Hsum). exact Hwf.
  - unfold summon. mred. rewrite Hdw. mred. rewrite Hsw. mred. rewrite Hsum. mred.
    destruct (MODEL_MAPPINGS_total W) as [cfg Hcfg]. rewrite Hcfg.
    destruct (mcp_registered s) eqn:Hreg; mred.
    + rewrite !safe_create_task_skips by assumption. look Hdw Hsw. wf_solve.
    + match goal with
      | |- context [register_daemon W ?m ?r None ?c ?w1] =>
          destruct (register_daemon_returns W m r c w1
                      (with_invocation_count 0 (with_is_summoned true d))
                      (with_summoned_at (Some (clock w)) s))
            as (w2 & d2 & s2 & tc & Hrun & Hd2 & _);
          [ look Hdw Hsw; reflexivity | look Hdw Hsw; reflexivity | ];
          pose proof (register_daemon_wf W m r None c w1) as Hwf2;
          rewrite Hrun in *
      end.
      mred. rewrite !safe_create_task_skips by assumption. mred.
      rewrite Hd2. mred. wf_solve. apply Hwf2. wf_solve.
Qed.

Lemma invoke_daemon_wf W task params w :
  0 < recursion_limit → registry_wf w →
  registry_wf (fst (invoke_daemon W task params w)).
Proof.
  intros Hrec Hwf. pose proof Hwf as (Hd & Hs & Ht).
  destruct (Hd W) as [d Hdw], (Hs W) as [s Hsw].
  unfold invoke_daemon. mred. rewrite Hdw. mred. rewrite Hsw. mred.
  destruct (is_summoned d); mred;
    [|rewrite on_failure_reraises by assumption; exact Hwf].
  destruct (mcp_registered s) eqn:Hreg; mred;
    [|rewrite on_failure_reraises by assumption; exact Hwf].
  destruct (Ht W s Hsw Hreg) as [cfg Hcfg].
  unfold invoke_tool. mred. rewrite Hcfg. mred.
  destruct (backing_call _ _ _ _); mred; unfold record_invocation; look Hdw Hsw;
    rewrite !safe_create_task_skips by assumption; look Hdw Hsw; wf_solve.
Qed.

Lemma banish_daemon_wf W w :
  0 < recursion_limit → registry_wf w → registry_wf (fst (banish_daemon W w)).
Proof.
  intros Hrec Hwf. pose proof Hwf as (Hd & Hs & Ht).
  destruct (Hd W) as [d Hdw], (Hs W) as [s Hsw].
  destruct (is_summoned d) eqn:Hsum.
  - unfold banish_daemon. mred. rewrite Hdw. mred. rewrite Hsw. mred.
    rewrite Hsum. mred.
    destruct (mcp_registered s) eqn:Hreg; mred.
    + destruct (Ht W s Hsw Hreg) as [cfg Hcfg]. rewrite Hcfg. mred.
      rewrite !safe_create_task_skips by assumption. look Hdw Hsw. wf_solve.
    + rewrite !safe_create_task_skips by assumption. look Hdw Hsw. wf_solve.
  - rewrite (banish_dormant W w d s Hrec Hdw Hsw Hsum). exact Hwf.
Qed.

(** An operation that leaves the registry and the MCP client alone *)
Definition keeps_registry {A} (c : M A) : Prop :=
  ∀ w, _daemons (fst (c w)) = _daemons w
       ∧ _daemon_states (fst (c w)) = _daemon_states w
       ∧ _registered_tools (fst (c w)) = _registered_tools w.

Lemma keeps_ret {A} (a : A) : keeps_registry (ret a).
Proof. intros w. repeat split. Qed.

Lemma keeps_raise {A} (e : Exc) : keeps_registry (raise (A:=A) e).
Proof. intros w. repeat split. Qed.

Lemma keeps_gets {A} (f : World → A) : keeps_registry (gets f).
Proof. intros w. repeat split. Qed.

Lemma keeps_lift {A} (o : Outcome A) : keeps_registry (lift o).
Proof. intros w. repeat split. Qed.

Lemma keeps_bind {A B} (c : M A) (k : A → M B) :
  keeps_registry c → (∀ a, keeps_registry (k a)) → keeps_registry (bind c k).
Proof.
  intros Hc Hk w. unfold bind. specialize (Hc w).
  destruct (c w) as [w1 [a|e]]; cbn [fst] in *; [|exact Hc].
  destruct (Hk a w1) as (H1 & H2 & H3), Hc as (G1 & G2 & G3).
  rewrite H1, H2, H3. auto.
Qed.

Lemma keeps_try_except {A} (c : M A) (h : Exc → M A) :
  keeps_registry c → (∀ e, keeps_registry (h e)) → keeps_registry (try_except c h).
Proof.
  intros Hc Hh w. unfold try_except. specialize (Hc w).
  destruct (c w) as [w1 [a|e]]; cbn [fst] in *; [exact Hc|].
  destruct (Hh e w1) as (H1 & H2 & H3), Hc as (G1 & G2 & G3).
  rewrite H1, H2, H3. auto.
Qed.

Lemma keeps_modify (f : World → World) :
  (∀ w, _daemons (f w) = _daemons w ∧ _daemon_states (f w) = _daemon_states w
        ∧ _registered_tools (f w) = _registered_tools w) →
  keeps_registry (modify f).
Proof. intros H w. apply H. Qed.

Ltac keeps :=
  repeat first
    [ apply keeps_ret | apply keeps_raise | apply keeps_gets | apply keeps_lift
    | apply keeps_bind; [|intros ?]
    | apply keeps_try_except; [|intros ?]
    | apply keeps_modify; intros ?; repeat split; reflexivity
    | match goal with
      | |- keeps_registry (match ?x with _ => _ end) => destruct x
      | |- keeps_registry (if ?b then _ else _) => destruct b
      end ].

Lemma keeps_invoke_tool tool task params : keeps_registry (invoke_tool tool task params).
Proof.
  unfold invoke_tool, utcnow, elapse, logger_call, new_MCPToolResult, utcnow. keeps.
Qed.

Lemma keeps_validate payload fantasy_mode :
  keeps_registry (Safety.validate_archon_payload payload fantasy_mode).
Proof. unfold Safety.validate_archon_payload, Safety._log_rejection. keeps. Qed.

Lemma keeps_decision_from_spell_parser text :
  keeps_registry (_decision_from_spell_parser text).
Proof. unfold _decision_from_spell_parser, is_fantasy_mode. keeps. Qed.

Lemma keeps_attempt prompt text : keeps_registry (attempt prompt text).
Proof.
  unfold attempt, utcnow.
  apply keeps_bind; [apply keeps_gets|intros ?].
  apply keeps_bind; [apply keeps_invoke_tool|intros ?]. keeps.
Qed.

Lemma keeps_request text : keeps_registry (_request_archon_directive text).
Proof.
  unfold _request_archon_directive.
  apply keeps_bind; [apply keeps_attempt|intros [?|]]; [apply keeps_ret|].
  apply keeps_bind; [apply keeps_attempt|intros [?|]]; keeps.
Qed.

Lemma keeps_generate_decision registered text :
  keeps_registry (_generate_decision registered text).
Proof.
  unfold _generate_decision, is_fantasy_mode.
  apply keeps_bind; [apply keeps_gets|intros fantasy_mode].
  destruct (archon_enabled settings && registered);
    [|apply keeps_decision_from_spell_parser].
  apply keeps_try_except.
  - apply keeps_bind; [apply keeps_request|intros [payload latency]].
    apply keeps_bind; [apply keeps_validate|intros cleaned].
    unfold create_task, logger_call, audio_speak. keeps.
  - intros e. unfold logger_call.
    apply keeps_bind; [apply keeps_ret|intros _].
    apply keeps_decision_from_spell_parser.
Qed.

Lemma route_spell_wf registered text w :
  0 < recursion_limit → registry_wf w →
  registry_wf (fst (route_spell registered text w)).
Proof.
  intros Hrec Hwf. unfold route_spell, bind.
  pose proof (keeps_generate_decision registered text w) as (H1 & H2 & H3).
  destruct (_generate_decision registered text w) as [w1 [decision|e]];
    cbn [fst] in *; [|apply (wf_other w); assumption].
  assert (Hwf1 : registry_wf w1) by (apply (wf_other w); assumption).
  unfold _execute_decision.
  destruct (target_daemon decision) as [daemon|]; [|exact Hwf1].
  pose proof (invoke_daemon_wf daemon (default EmptyString (task decision))
                (parameters decision) w1 Hrec Hwf1) as Hwf2.
  destruct (invoke_daemon _ _ _ w1) as [w2 [r|e]]; exact Hwf2.
Qed.

Lemma wf_insert_tool k cfg w :
  registry_wf w → registry_wf (set_registered_tools (insert k cfg) w).
Proof.
  intros (Hd & Hs & Ht). split; [|split]; cbn; [exact Hd|exact Hs|].
  intros W s H Hreg. apply lookup_insert_is_Some'. right. apply (Ht W s H Hreg).
Qed.

Lemma register_archon_tool_wf registered w :
  registry_wf w → registry_wf (fst (_register_archon_tool registered w)).
Proof.
  intros Hwf. unfold _register_archon_tool.
  destruct registered; [exact Hwf|]. mred. wf_solve. apply wf_insert_tool, Hwf.
Qed.

(** The veil and the bus are no part of the registry. *)
Definition registry_kept (w w' : World) : Prop :=
  _daemons w' = _daemons w ∧ _daemon_states w' = _daemon_states w
  ∧ _registered_tools w' = _registered_tools w.

Lemma set_veil_keeps (enabled : bool) (w : World) :
  registry_kept w (fst (Veil.set_veil enabled w)).
Proof.
  unfold Veil.set_veil. mred.
  destruct (Bool.eqb (veil_enabled w) enabled); repeat split; reflexivity.
Qed.

Lemma reveal_keeps (w : World) :
  registry_kept w (fst (Routes.reveal_developer_mode w))
  ∧ registry_kept w (fst (Routes.restore_fantasy_mode w)).
Proof.
  unfold Routes.reveal_developer_mode, Routes.restore_fantasy_mode,
    Routes.await_emit_reveal, Veil.get_veil_state, Veil.set_veil.
  mred.
  split; destruct (veil_enabled w); repeat split; reflexivity.
Qed.

(** The calls that the routes of the application make on the registry, the
    orchestrator, the veil and the event bus; [call_emit] stands for an
    awaited emitter of the bus, which ends in [emit]. *)
Inductive call : Type :=
| call_summon (W : DaemonType)
| call_invoke (W : DaemonType) (task : string) (params : option Dict.t)
| call_banish (W : DaemonType)
| call_register (W : DaemonType) (mdl rl : string) (color : option string)
    (caps : option (list string))
| call_register_archon (registered : bool)
| call_analyze (registered : bool) (spell_text : string)
| call_route (registered : bool) (spell_text : string)
| call_set_veil (enabled : bool)
| call_reveal
| call_restore
| call_subscribe
| call_unsubscribe (queue : nat)
| call_emit (event : EventBus.ArcaneEvent).

Definition after_call (c : call) (w : World) : World :=
  match c with
  | call_summon W => fst (summon W w)
  | call_invoke W task params => fst (invoke_daemon W task params w)
  | call_banish W => fst (banish_daemon W w)
  | call_register W mdl rl color caps => fst (register_daemon W mdl rl color caps w)
  | call_register_archon registered => fst (_register_archon_tool registered w)
  | call_analyze registered spell_text => fst (analyze_spell registered spell_text w)
  | call_route registered spell_text => fst (route_spell registered spell_text w)
  | call_set_veil enabled => fst (Veil.set_veil enabled w)
  | call_reveal => fst (Routes.reveal_developer_mode w)
  | call_restore => fst (Routes.restore_fantasy_mode w)
  | call_subscribe => set_event_bus (fun bus => fst (EventBus.subscribe bus)) w
  | call_unsubscribe queue => set_event_bus (EventBus.unsubscribe queue) w
  | call_emit event => set_event_bus (EventBus.emit event) w
  end.

(** The worlds a process can be in: the initial one, and those that calls
    lead to. *)
Inductive reachable : World → Prop :=
| reachable_initial loop : reachable (initial_world loop)
| reachable_call c w : reachable w → reachable (after_call c w).

(** In every reachable world all three workers are known, and a worker
    flagged as registered has its tool in the MCP client. *)
Lemma reachable_wf w : 0 < recursion_limit → reachable w → registry_wf w.
Proof.
  intros Hrec. induction 1 as [loop | c w _ IH].
  - apply initial_world_wf.
  - destruct c; cbn [after_call].
    + apply summon_wf; assumption.
    + apply invoke_daemon_wf; assumption.
    + apply banish_daemon_wf; assumption.
    + apply register_daemon_wf; assumption.
    + apply register_archon_tool_wf; assumption.
    + pose proof (keeps_generate_decision registered spell_text w) as (H1 & H2 & H3).
      apply (wf_other w); assumption.
    + apply route_spell_wf; assumption.
    + destruct (set_veil_keeps enabled w) as (H1 & H2 & H3).
      apply (wf_other w); assumption.
    + destruct (reveal_keeps w) as [(H1 & H2 & H3) _].
      apply (wf_other w); assumption.
    + destruct (reveal_keeps w) as [_ (H1 & H2 & H3)].
      apply (wf_other w); assumption.
    + apply wf_event_bus, IH.
    + apply wf_event_bus, IH.
    + apply wf_event_bus, IH.
Qed.

Lemma reachable_known (W : DaemonType) (w : World) :
  0 < recursion_limit → reachable w →
  ∃ d s, _daemons w !! W = Some d ∧ _daemon_states w !! W = Some s.
Proof.
  intros Hrec Hw. destruct (reachable_wf w Hrec Hw) as (Hd & Hs & _).
  destruct (Hd W) as [d Hdw], (Hs W) as [s Hsw]. eauto.
Qed.

Lemma reachable_registered (W : DaemonType) (w : World) (s : DaemonState) :
  0 < recursion_limit → reachable w →
  _daemon_states w !! W = Some s → mcp_registered s = true →
  ∃ cfg, _registered_tools w !! DaemonType_value W = Some cfg.
Proof.
  intros Hrec Hw Hs Hreg. destruct (reachable_wf w Hrec Hw) as (_ & _ & Ht).
  exact (Ht W s Hs Hreg).
Qed.

End Reachability.


(** * Further properties of the modelled code

    What follows covers the functions around those above: the subscriber
    queues and the emitters of the event bus, the veil and the routes that
    use it, the MCP client, the statistics and the reachable states of the
    registry, the two decision paths of the router, the spell records, the
    voice service and the order in which the parser tries its patterns. *)

Section EventBusDelivery.
Import EventBus.

Lemma emit_queue e bus q l :
  _subscribers bus !! q = Some l →
  _subscribers (emit e bus) !! q = Some (l ++ [e]).
Proof.
  intros H. unfold emit. cbn [_subscribers]. rewrite lookup_fmap, H. reflexivity.
Qed.

Lemma emit_all_queue events bus q l :
  _subscribers bus !! q = Some l →
  _subscribers (emit_all events bus) !! q = Some (l ++ events).
Proof.
  revert bus l. induction events as [|e es IH]; intros bus l H.
  - rewrite app_nil_r. exact H.
  - change (emit_all (e :: es) bus) with (emit_all es (emit e bus)).
    rewrite (IH _ (l ++ [e])); [rewrite <- app_assoc; reflexivity|].
    apply emit_queue, H.
Qed.

Lemma subscribe_fresh bus : _subscribers bus !! snd (subscribe bus) = None.
Proof.
  unfold subscribe. cbn [snd]. apply not_elem_of_dom, is_fresh.
Qed.

(** X1.  [subscribe] hands out a queue that no subscriber held before, empty
    at first; every event emitted afterwards is put on it, in emission order
    and without the bound that the history has, and the queues of the
    earlier subscribers receive the same events after what they already
    held. *)
Theorem subscriber_receives_every_event (bus : ArcaneEventBus)
    (events : list ArcaneEvent) :
  let bus1 := fst (subscribe bus) in
  let q := snd (subscribe bus) in
  _subscribers bus !! q = None
  ∧ _subscribers bus1 !! q = Some []
  ∧ _subscribers (emit_all events bus1) !! q = Some events
  ∧ (∀ q' pending, _subscribers bus !! q' = Some pending →
       _subscribers (emit_all events bus1) !! q' = Some (pending ++ events)).
Proof.
  intros bus1 q. pose proof (subscribe_fresh bus) as Hfresh. fold q in Hfresh.
  assert (Hq : _subscribers bus1 !! q = Some []).
  { subst bus1 q. unfold subscribe. cbn [fst snd _subscribers].
    apply lookup_insert_eq. }
  split; [exact Hfresh|]. split; [exact Hq|]. split.
  - apply (emit_all_queue events bus1 q []), Hq.
  - intros q' pending H. apply emit_all_queue.
    subst bus1. unfold subscribe. cbn [fst _subscribers].
    rewrite lookup_insert_ne; [exact H|].
    intros Heq. unfold q, subscribe in Hfresh. cbn [snd] in Hfresh.
    rewrite Heq, H in Hfresh. discriminate.
Qed.

(** X2.  [subscribe] raises the subscriber count by one, and [unsubscribe]
    of the queue it returned gives back the bus as it was; [unsubscribe] of a
    queue that is not subscribed changes nothing (the set is asked to
    discard, not to remove). *)
Theorem unsubscribe_undoes_subscribe (bus : ArcaneEventBus) :
  let bus1 := fst (subscribe bus) in
  let q := snd (subscribe bus) in
  get_subscriber_count bus1 = S (get_subscriber_count bus)
  ∧ unsubscribe q bus1 = bus
  ∧ get_subscriber_count (unsubscribe q bus1) = get_subscriber_count bus
  ∧ (∀ q', _subscribers bus !! q' = None → unsubscribe q' bus = bus).
Proof.
  intros bus1 q. pose proof (subscribe_fresh bus) as Hfresh. fold q in Hfresh.
  assert (Hback : unsubscribe q bus1 = bus).
  { subst bus1 q. destruct bus as [subs hist bound]. unfold unsubscribe, subscribe in *.
    cbn [fst snd _subscribers _event_history _max_history] in *.
    rewrite delete_insert_id by exact Hfresh. reflexivity. }
  split; [|split; [exact Hback|split]].
  - subst bus1. unfold get_subscriber_count, subscribe. cbn [fst _subscribers].
    apply map_size_insert_None, Hfresh.
  - rewrite Hback. reflexivity.
  - intros q' H. destruct bus as [subs hist bound]. unfold unsubscribe.
    cbn [_subscribers _event_history _max_history] in *.
    rewrite delete_id by exact H. reflexivity.
Qed.

End EventBusDelivery.

Section DictFacts.

Lemma get_set_eq k v d : Dict.get k (Dict.set k v d) = Some v.
Proof.
  induction d as [|[k' v'] d IH]; cbn [Dict.set Dict.get].
  - rewrite String.eqb_refl. reflexivity.
  - destruct (String.eqb k k') eqn:E; cbn [Dict.get]; rewrite ?String.eqb_refl, ?E;
      [reflexivity|exact IH].
Qed.

Lemma get_set_ne k k' v d : k ≠ k' → Dict.get k (Dict.set k' v d) = Dict.get k d.
Proof.
  intros Hne. induction d as [|[k2 v2] d IH]; cbn [Dict.set Dict.get].
  - apply String.eqb_neq in Hne. rewrite Hne. reflexivity.
  - destruct (String.eqb k' k2) eqn:E; cbn [Dict.get].
    + apply String.eqb_eq in E. subst k2.
      apply String.eqb_neq in Hne. rewrite Hne. reflexivity.
    + rewrite IH. reflexivity.
Qed.

Lemma get_setdefault k v d :
  Dict.get k (Dict.setdefault k v d) = Some (default v (Dict.get k d)).
Proof.
  unfold Dict.setdefault. destruct (Dict.get k d) eqn:E; cbn [default].
  - exact E.
  - apply get_set_eq.
Qed.

End DictFacts.

Section EventBusWindow.
Import EventBus.

(** X3.  For a count of at least 1, [get_recent_events(count)] returns the
    last [count] stored events, oldest first, and all of them when fewer are
    stored.  For a negative count the slice [-count:] starts at the index
    |count|: the result is the history without its first |count| events. *)
Theorem get_recent_events_window (bus : ArcaneEventBus) (count : Z) :
  let history := _event_history bus in
  ((1 ≤ count)%Z →
   get_recent_events count bus
   = to_dict <$> drop (length history - Z.to_nat count) history)
  ∧ ((count < 0)%Z →
     get_recent_events count bus = to_dict <$> drop (Z.to_nat (- count)) history).
Proof.
  intros history. subst history. unfold get_recent_events, slice_from.
  generalize (_event_history bus) as history. intros history. split; intros Hc.
  - destruct (- count <? 0)%Z eqn:E; [|apply Z.ltb_ge in E; lia].
    do 2 f_equal. clear E. lia.
  - destruct (- count <? 0)%Z eqn:E; [apply Z.ltb_lt in E; lia|].
    f_equal.
    destruct (Z_le_gt_dec (- count) (Z.of_nat (length history))) as [Hle|Hgt].
    + do 2 f_equal. clear E. lia.
    + clear E. rewrite !drop_ge by lia. reflexivity.
Qed.

Lemma get_recent_events_window_witness :
  let bus := emit_all (numbered_event <$> seq 0 5) init in
  get_recent_events 2 bus = to_dict <$> (numbered_event <$> [3; 4])
  ∧ get_recent_events (-2) bus = to_dict <$> (numbered_event <$> [2; 3; 4]).
Proof.
  destruct (get_recent_events_window (emit_all (numbered_event <$> seq 0 5) init) 2)
    as [Hpos _].
  destruct (get_recent_events_window (emit_all (numbered_event <$> seq 0 5) init) (-2))
    as [_ Hneg].
  split; [apply Hpos; lia | apply Hneg; lia].
Defined.

(** The event that an emitter puts on the bus *)
Definition emits (kind : SpellType) (ok fantasy : bool) (given : Dict.t)
    (bus bus' : ArcaneEventBus) : Prop :=
  ∃ e, bus' = emit e bus
       ∧ spell_name e = kind ∧ success e = ok
       ∧ Dict.get "sync" (metadata e)
         = Some (default
                   (ADict (_build_sync_directives fantasy ok
                             (Dict.get "failure_phrase" given)))
                   (Dict.get "sync" given)).

Lemma with_sync_get fantasy ok given :
  Dict.get "sync" (with_sync fantasy ok given)
  = Some (default
            (ADict (_build_sync_directives fantasy ok (Dict.get "failure_phrase" given)))
            (Dict.get "sync" given)).
Proof. apply get_setdefault. Qed.

(** X4.  Each of the seven emitters ([emit_route], [emit_summon],
    [emit_invoke], [emit_banish], [emit_reveal], [emit_parse], [emit_voice])
    emits exactly one event, of its own kind and with the success flag it
    was given ([emit_reveal]: always true).  The event's metadata holds under
    "sync" the caller's value when the caller's metadata has that key, and
    otherwise the directives that [_build_sync_directives] builds from the
    current mode, the success flag and the caller's "failure_phrase". *)
Theorem every_emitter_attaches_sync (fantasy : bool) (now : Q)
    (given : Dict.t) (bus : ArcaneEventBus) :
  (∀ daemon ok,
     emits ROUTE ok fantasy given bus (emit_route fantasy now daemon ok given bus))
  ∧ (∀ daemon ok,
       emits SUMMON ok fantasy given bus (emit_summon fantasy now daemon ok given bus))
  ∧ (∀ daemon task ok t,
       emits INVOKE ok fantasy given bus
         (emit_invoke fantasy now daemon task ok t given bus))
  ∧ (∀ daemon n t ok,
       emits BANISH ok fantasy given bus
         (emit_banish fantasy now daemon n t ok given bus))
  ∧ (∀ daemon active description,
       emits REVEAL true fantasy given bus
         (emit_reveal fantasy now daemon active description given bus))
  ∧ (∀ text ok action daemon description,
       emits PARSE ok fantasy given bus
         (emit_parse fantasy now text ok action daemon description given bus))
  ∧ (∀ daemon ok description,
       emits VOICE ok fantasy given bus
         (emit_voice fantasy now daemon ok description given bus)).
Proof.
  repeat split; intros; eexists; (split; [reflexivity|]);
    (split; [reflexivity|]); (split; [reflexivity|]); cbn [metadata];
    rewrite ?get_set_ne by discriminate; apply with_sync_get.
Qed.

End EventBusWindow.

Section EventRoutes.
Import EventBus.

(** [served events bus]: [bus] is what the process's bus has become after
    [events] were emitted in this order, clients subscribing and
    unsubscribing in between. *)
Inductive served : list ArcaneEvent → ArcaneEventBus → Prop :=
| served_init : served [] init
| served_emit events bus e :
    served events bus → served (events ++ [e]) (emit e bus)
| served_subscribe events bus :
    served events bus → served events (fst (subscribe bus))
| served_unsubscribe events bus q :
    served events bus → served events (unsubscribe q bus).

Lemma served_emit_all (past events : list ArcaneEvent) (bus : ArcaneEventBus) :
  served past bus → served (past ++ events) (emit_all events bus).
Proof.
  revert past bus. induction events as [|e es IH]; intros past bus H.
  - rewrite app_nil_r. exact H.
  - change (emit_all (e :: es) bus) with (emit_all es (emit e bus)).
    replace (past ++ e :: es) with ((past ++ [e]) ++ es)
      by (rewrite <- app_assoc; reflexivity).
    apply IH, served_emit, H.
Qed.

(** Subscribers come and go without a trace in the history. *)
Lemma served_history (events : list ArcaneEvent) (bus : ArcaneEventBus) :
  served events bus →
  _max_history bus = 100
  ∧ _event_history bus = drop (length events - 100) events.
Proof.
  induction 1 as [|events bus e _ [Hmax Hhist]|events bus _ IH|events bus q _ IH].
  - split; reflexivity.
  - split; [rewrite emit_max_history; exact Hmax|].
    rewrite <- Hmax. apply emit_keeps_newest. rewrite Hmax. exact Hhist.
  - exact IH.
  - exact IH.
Qed.

Lemma history_length (events : list ArcaneEvent) (bus : ArcaneEventBus) :
  served events bus → length (_event_history bus) = min (length events) 100.
Proof.
  intros H. destruct (served_history events bus H) as [_ ->].
  rewrite length_drop. lia.
Qed.

(** X5.  On the bus of a process in which [events] were emitted, with any
    number of clients subscribed, the route [GET /events/recent] answers
    without changing anything; under "count" it reports the requested count
    capped at 100, whatever the number of events it returns; it returns
    min(count, stored) events for a count of at least 1, and every stored
    event for the count 0.  The route [GET /events/stats] reports the number
    of stored events, at most 100, as "history_size", and the number of
    subscriber queues of the bus as "subscribers". *)
Theorem event_routes_report (events : list ArcaneEvent) (count : Z) (w : World) :
  served events (event_bus w) →
  let stored := min (length events) 100 in
  (∃ response returned,
     Routes.get_recent_events count w = (w, Returned response)
     ∧ Dict.get "count" response = Some (AInt (Z.min count 100))
     ∧ Dict.get "events" response = Some (AList (ADict <$> returned))
     ∧ length returned ≤ stored
     ∧ ((1 ≤ count)%Z → length returned = min (Z.to_nat count) stored)
     ∧ (count = 0%Z → length returned = stored))
  ∧ (∃ stats,
       Routes.get_event_stats w = (w, Returned stats)
       ∧ Dict.get "history_size" stats = Some (AInt (Z.of_nat stored))
       ∧ Dict.get "subscribers" stats
         = Some (AInt (Z.of_nat (size (_subscribers (event_bus w)))))).
Proof.
  intros Hbus stored.
  assert (Hlen : length (_event_history (event_bus w)) = stored)
    by (apply history_length, Hbus).
  split.
  - unfold Routes.get_recent_events. mred.
    eexists _, _. split; [reflexivity|]. split; [reflexivity|].
    split; [reflexivity|].
    unfold get_recent_events, slice_from.
    rewrite length_fmap, length_drop, Hlen.
    assert (stored ≤ 100) by (subst stored; lia).
    destruct (- Z.min count 100 <? 0)%Z eqn:E;
      [apply Z.ltb_lt in E|apply Z.ltb_ge in E];
      (split; [lia|]); split; intros Hc; lia.
  - unfold Routes.get_event_stats. mred.
    eexists. split; [reflexivity|]. split; [|reflexivity].
    cbn [Dict.get String.eqb Ascii.eqb Bool.eqb].
    unfold get_recent_events, slice_from.
    rewrite length_fmap, length_drop, Hlen.
    assert (stored ≤ 100) by (subst stored; lia).
    rewrite (eq_refl : (Z.opp 1000 <? 0)%Z = true).
    do 3 f_equal. lia.
Qed.

Lemma event_routes_report_witness :
  let bus :=
    emit_all (numbered_event <$> seq 0 103)
      (fst (subscribe (fst (subscribe init)))) in
  let w := set_event_bus (fun _ => bus) (Registry.initial_world None) in
  (∃ response returned,
     Routes.get_recent_events 0 w = (w, Returned response)
     ∧ Dict.get "count" response = Some (AInt 0)
     ∧ Dict.get "events" response = Some (AList (ADict <$> returned))
     ∧ length returned = 100)
  ∧ (∃ stats,
       Routes.get_event_stats w = (w, Returned stats)
       ∧ Dict.get "history_size" stats = Some (AInt 100)
       ∧ Dict.get "subscribers" stats = Some (AInt 2)).
Proof.
  intros bus w.
  destruct (event_routes_report (numbered_event <$> seq 0 103) 0 w)
    as [(response & returned & Hrun & Hcount & Hevents & _ & _ & Hzero)
        (stats & Hstats & Hsize & Hsubs)].
  - change (served ([] ++ (numbered_event <$> seq 0 103)) bus).
    apply served_emit_all. do 2 apply served_subscribe. apply served_init.
  - split.
    + exists response, returned. repeat split; try assumption.
      apply Hzero. reflexivity.
    + exists stats. split; [exact Hstats|]. split; [exact Hsize|].
      rewrite Hsubs. vm_compute. reflexivity.
Defined.

End EventRoutes.

Section VeilFacts.
Import EventBus.

Lemma set_veil_enabled_same (w : World) :
  set_veil_enabled (fun _ => veil_enabled w) w = w.
Proof. destruct w; reflexivity. Qed.

Lemma set_veil_run (b : bool) (w : World) :
  Veil.set_veil b w = (set_veil_enabled (fun _ => b) w, Returned b).
Proof.
  unfold Veil.set_veil, bind, gets, modify, logger_call, ret.
  destruct (veil_enabled w) eqn:E, b; cbn; try reflexivity;
    rewrite <- E, set_veil_enabled_same; rewrite E; reflexivity.
Qed.

(** X6.  [set_veil(b)] leaves the veil at [b] and returns the state that
    holds [b], so that [is_fantasy_mode()] answers [b] afterwards;
    [toggle_veil] returns the negated flag, and toggling twice restores the
    world; setting the same value twice is setting it once; and the route
    [POST /veil] always answers with the requested value and the name of its
    mode: its 400 branch is never taken. *)
Theorem veil_switch (w : World) (b : bool) :
  Veil.set_veil b w = (set_veil_enabled (fun _ => b) w, Returned b)
  ∧ is_fantasy_mode (fst (Veil.set_veil b w))
    = (fst (Veil.set_veil b w), Returned b)
  ∧ snd (Veil.toggle_veil w) = Returned (negb (veil_enabled w))
  ∧ fst (Veil.toggle_veil (fst (Veil.toggle_veil w))) = w
  ∧ fst (Veil.set_veil b (fst (Veil.set_veil b w))) = fst (Veil.set_veil b w)
  ∧ Routes.update_veil b w
    = (set_veil_enabled (fun _ => b) w,
       Returned {| Routes.veil := b; Routes.mode := Veil.mode b |}).
Proof.
  assert (Htoggle : ∀ x, Veil.toggle_veil x
            = (set_veil_enabled (fun _ => negb (veil_enabled x)) x,
               Returned (negb (veil_enabled x)))).
  { intros x. unfold Veil.toggle_veil, bind, gets. apply set_veil_run. }
  split; [apply set_veil_run|]. split; [|split; [|split; [|split]]].
  - rewrite set_veil_run. reflexivity.
  - rewrite Htoggle. reflexivity.
  - rewrite !Htoggle. cbn [fst]. destruct w; cbn. rewrite negb_involutive. reflexivity.
  - rewrite !set_veil_run. reflexivity.
  - unfold Routes.update_veil, bind. rewrite set_veil_run.
    destruct b; reflexivity.
Qed.

(** X7.  The routes [POST /reveal] and [POST /reveal/restore] switch the
    veil off, respectively on, answer with the new state, and put exactly one
    REVEAL event with success true on the bus.  The veil is switched before
    the event is built, so the sync directives of the event are those of the
    new mode. *)
Theorem reveal_reports_the_new_mode (w : World) :
  (∃ w1 e,
     Routes.reveal_developer_mode w
     = (w1, Returned {| Routes.veil := false; Routes.mode := "developer" |})
     ∧ veil_enabled w1 = false
     ∧ event_bus w1 = emit e (event_bus w)
     ∧ spell_name e = REVEAL ∧ success e = true
     ∧ description e = "Developer reality unveiled."
     ∧ Dict.get "sync" (metadata e)
       = Some (ADict (_build_sync_directives false true None)))
  ∧ (∃ w1 e,
       Routes.restore_fantasy_mode w
       = (w1, Returned {| Routes.veil := true; Routes.mode := "fantasy" |})
       ∧ veil_enabled w1 = true
       ∧ event_bus w1 = emit e (event_bus w)
       ∧ spell_name e = REVEAL ∧ success e = true
       ∧ description e = "Fantasy veil restored."
       ∧ Dict.get "sync" (metadata e)
         = Some (ADict (_build_sync_directives true true None))).
Proof.
  split.
  - unfold Routes.reveal_developer_mode, bind. rewrite set_veil_run.
    eexists _, _. split; [reflexivity|]. repeat split; reflexivity.
  - unfold Routes.restore_fantasy_mode, bind. rewrite set_veil_run.
    eexists _, _. split; [reflexivity|]. repeat split; reflexivity.
Qed.

End VeilFacts.

(** ** What the operations leave alone *)

Section Preserving.
Import Registry.
Context {env : Env}.

Variable R : World → World → Prop.
Hypothesis R_refl : ∀ w, R w w.
Hypothesis R_trans : ∀ a b c, R a b → R b c → R a c.

(** Whatever [c] returns or raises, the world it leaves is related to the
    one it found. *)
Definition preserves {A} (c : M A) : Prop := ∀ w, R w (fst (c w)).

Lemma preserves_ret {A} (a : A) : preserves (ret a).
Proof. intros w. apply R_refl. Qed.

Lemma preserves_raise {A} (e : Exc) : preserves (raise (A:=A) e).
Proof. intros w. apply R_refl. Qed.

Lemma preserves_gets {A} (f : World → A) : preserves (gets f).
Proof. intros w. apply R_refl. Qed.

Lemma preserves_lift {A} (o : Outcome A) : preserves (lift o).
Proof. intros w. apply R_refl. Qed.

Lemma preserves_bind {A B} (c : M A) (k : A → M B) :
  preserves c → (∀ a, preserves (k a)) → preserves (bind c k).
Proof.
  intros Hc Hk w. unfold bind. specialize (Hc w).
  destruct (c w) as [w1 [a|e]]; cbn [fst] in *; [|exact Hc].
  eapply R_trans; [exact Hc|apply Hk].
Qed.

Lemma preserves_try_except {A} (c : M A) (h : Exc → M A) :
  preserves c → (∀ e, preserves (h e)) → preserves (try_except c h).
Proof.
  intros Hc Hh w. unfold try_except. specialize (Hc w).
  destruct (c w) as [w1 [a|e]]; cbn [fst] in *; [exact Hc|].
  eapply R_trans; [exact Hc|apply Hh].
Qed.

Lemma preserves_modify (f : World → World) :
  (∀ w, R w (f w)) → preserves (modify f).
Proof. intros H w. apply H. Qed.

Lemma safe_create_task_at_world (d : nat) (coro : Coroutine) (w : World) :
  fst (_safe_create_task_at d coro w) = w.
Proof.
  induction d as [|d IH]; [reflexivity|].
  cbn [_safe_create_task_at]. unfold try_except, bind, get_running_loop.
  destruct (running_loop w); [|reflexivity].
  destruct (_safe_create_task_at d coro w) as [w1 [[]|e]]; cbn [fst] in *;
    [exact IH|]. destruct (is_RuntimeError e); exact IH.
Qed.

Lemma preserves_safe_create_task (coro : Coroutine) :
  preserves (_safe_create_task coro).
Proof.
  intros w. unfold _safe_create_task. rewrite safe_create_task_at_world.
  apply R_refl.
Qed.

End Preserving.

Ltac preserving Hrefl Htrans step :=
  repeat
    (cbv zeta;
     lazymatch goal with
     | |- preserves _ (ret _) => apply (preserves_ret _ Hrefl)
     | |- preserves _ (raise _) => apply (preserves_raise _ Hrefl)
     | |- preserves _ (gets _) => apply (preserves_gets _ Hrefl)
     | |- preserves _ (lift _) => apply (preserves_lift _ Hrefl)
     | |- preserves _ (Registry._safe_create_task _) =>
         apply (preserves_safe_create_task _ Hrefl)
     | |- preserves _ (bind _ _) => apply (preserves_bind _ Htrans); [|intros ?]
     | |- preserves _ (try_except _ _) =>
         apply (preserves_try_except _ Htrans); [|intros ?]
     | |- preserves _ (modify _) => apply preserves_modify; intros ?; step
     | |- preserves _ (if ?b then _ else _) => destruct b
     | |- preserves _ (match ?x with _ => _ end) => destruct x
     end).

Section Flags.
Import Registry Router.
Context {env : Env}.

(** Every worker's summoned flag and registered flag, and the tools of the
    MCP client, are as before. *)
Definition flags_same (w w' : World) : Prop :=
  (∀ W, is_summoned <$> _daemons w' !! W = is_summoned <$> _daemons w !! W)
  ∧ (∀ W, mcp_registered <$> _daemon_states w' !! W
          = mcp_registered <$> _daemon_states w !! W)
  ∧ _registered_tools w' = _registered_tools w.

Lemma flags_same_refl w : flags_same w w.
Proof. repeat split. Qed.

Lemma flags_same_trans a b c : flags_same a b → flags_same b c → flags_same a c.
Proof.
  intros (H1 & H2 & H3) (G1 & G2 & G3). split; [|split].
  - intros W. rewrite G1. apply H1.
  - intros W. rewrite G2. apply H2.
  - rewrite G3. exact H3.
Qed.

Lemma flags_same_daemon f W w :
  (∀ x, is_summoned (f x) = is_summoned x) →
  flags_same w (set_daemons (alter f W) w).
Proof.
  intros Hf. split; [|split]; cbn; [|reflexivity..].
  intros W'. rewrite lookup_alter. case_decide; [subst W'|reflexivity].
  destruct (_daemons w !! W); cbn; [rewrite Hf|]; reflexivity.
Qed.

Lemma flags_same_state g W w :
  (∀ s, mcp_registered (g s) = mcp_registered s) →
  flags_same w (set_daemon_states (alter g W) w).
Proof.
  intros Hg. split; [|split]; cbn; [reflexivity| |reflexivity].
  intros W'. rewrite lookup_alter. case_decide; [subst W'|reflexivity].
  destruct (_daemon_states w !! W); cbn; [rewrite Hg|]; reflexivity.
Qed.

(** Every worker's summoned flag is as before, and no worker lost its
    registered flag. *)
Definition registered_grows (w w' : World) : Prop :=
  (∀ W, is_summoned <$> _daemons w' !! W = is_summoned <$> _daemons w !! W)
  ∧ (∀ W s, _daemon_states w !! W = Some s → mcp_registered s = true →
            ∃ s', _daemon_states w' !! W = Some s' ∧ mcp_registered s' = true).

Lemma registered_grows_refl w : registered_grows w w.
Proof. split; [reflexivity|]. intros W s H1 H2. eauto. Qed.

Lemma registered_grows_trans a b c :
  registered_grows a b → registered_grows b c → registered_grows a c.
Proof.
  intros (H1 & H2) (G1 & G2). split.
  - intros W. rewrite G1. apply H1.
  - intros W s Hs Hreg. destruct (H2 W s Hs Hreg) as (s1 & Hs1 & Hreg1).
    apply (G2 W s1 Hs1 Hreg1).
Qed.

Lemma flags_same_grows w w' : flags_same w w' → registered_grows w w'.
Proof.
  intros (H1 & H2 & _). split; [exact H1|]. intros W s Hs Hreg.
  specialize (H2 W). rewrite Hs in H2. cbn in H2.
  destruct (_daemon_states w' !! W) as [s'|]; [|discriminate].
  cbn in H2. injection H2 as H2. exists s'. split; [reflexivity|congruence].
Qed.

Lemma registered_grows_daemon f W w :
  (∀ x, is_summoned (f x) = is_summoned x) →
  registered_grows w (set_daemons (alter f W) w).
Proof. intros Hf. apply flags_same_grows, flags_same_daemon, Hf. Qed.

Lemma registered_grows_state g W w :
  (∀ s, mcp_registered s = true → mcp_registered (g s) = true) →
  registered_grows w (set_daemon_states (alter g W) w).
Proof.
  intros Hg. split; [reflexivity|]. cbn. intros W' s Hs Hreg.
  rewrite lookup_alter. case_decide; [subst W'|eauto].
  rewrite Hs. cbn. eauto.
Qed.

(** Only the worker [W0] may have changed. *)
Definition others_untouched (W0 : DaemonType) (w w' : World) : Prop :=
  ∀ W, W ≠ W0 →
       _daemons w' !! W = _daemons w !! W
       ∧ _daemon_states w' !! W = _daemon_states w !! W.

Lemma others_untouched_refl W0 w : others_untouched W0 w w.
Proof. intros W _. split; reflexivity. Qed.

Lemma others_untouched_trans W0 a b c :
  others_untouched W0 a b → others_untouched W0 b c → others_untouched W0 a c.
Proof.
  intros H G W HW. destruct (H W HW) as [H1 H2], (G W HW) as [G1 G2].
  rewrite G1, G2. auto.
Qed.

Lemma others_untouched_daemon f W0 w :
  others_untouched W0 w (set_daemons (alter f W0) w).
Proof.
  intros W HW. cbn. split; [|reflexivity]. apply lookup_alter_ne. congruence.
Qed.

Lemma others_untouched_state g W0 w :
  others_untouched W0 w (set_daemon_states (alter g W0) w).
Proof.
  intros W HW. cbn. split; [reflexivity|]. apply lookup_alter_ne. congruence.
Qed.

End Flags.

Ltac flags_step :=
  first
    [ apply flags_same_daemon; intros ?; reflexivity
    | apply flags_same_state; intros ?; reflexivity
    | repeat split ].

Ltac grows_step :=
  first
    [ apply registered_grows_daemon; intros x;
      try destruct (metadata x) as [[|? ?]|]; reflexivity
    | apply registered_grows_state; intros ? ?; reflexivity
    | split; [reflexivity|]; intros ? ? ? ?; eauto ].

Ltac untouched_step :=
  first
    [ apply others_untouched_daemon
    | apply others_untouched_state
    | intros ? ?; split; reflexivity ].

Section OperationFlags.
Import Registry Router.
Context {env : Env}.

Lemma invoke_tool_flags tool task params :
  preserves flags_same (invoke_tool tool task params).
Proof.
  unfold invoke_tool, utcnow, elapse, logger_call, new_MCPToolResult, utcnow.
  preserving flags_same_refl flags_same_trans flags_step.
Qed.

Lemma invoke_daemon_flags W task params :
  preserves flags_same (invoke_daemon W task params).
Proof.
  unfold invoke_daemon, on_failure.
  apply (preserves_try_except _ flags_same_trans); [|intros e].
  - apply (preserves_bind _ flags_same_trans);
      [apply (preserves_gets _ flags_same_refl)|intros daemons].
    destruct (daemons !! W) as [daemon|];
      [|apply (preserves_raise _ flags_same_refl)].
    unfold the_state.
    apply (preserves_bind _ flags_same_trans);
      [preserving flags_same_refl flags_same_trans flags_step|intros state].
    destruct (negb (is_summoned daemon));
      [apply (preserves_raise _ flags_same_refl)|].
    destruct (negb (mcp_registered state));
      [apply (preserves_raise _ flags_same_refl)|].
    apply (preserves_bind _ flags_same_trans);
      [apply invoke_tool_flags|intros result].
    unfold record_invocation, record_spell, the_daemon, write_daemon, write_state,
      utcnow, logger_call.
    preserving flags_same_refl flags_same_trans flags_step.
  - preserving flags_same_refl flags_same_trans flags_step.
Qed.

Lemma register_daemon_grows W mdl rl color caps :
  preserves registered_grows (register_daemon W mdl rl color caps).
Proof.
  unfold register_daemon, register_tool, the_daemon, the_state, write_daemon,
    write_state, utcnow, logger_call.
  preserving registered_grows_refl registered_grows_trans grows_step.
Qed.

Lemma register_daemon_untouched W mdl rl color caps :
  preserves (others_untouched W) (register_daemon W mdl rl color caps).
Proof.
  unfold register_daemon, register_tool, the_daemon, the_state, write_daemon,
    write_state, utcnow, logger_call.
  preserving (others_untouched_refl W) (others_untouched_trans W) untouched_step.
Qed.

Lemma summon_untouched W : preserves (others_untouched W) (summon W).
Proof.
  unfold summon, on_failure.
  apply (preserves_try_except _ (others_untouched_trans W)); [|intros e].
  - apply (preserves_bind _ (others_untouched_trans W));
      [apply (preserves_gets _ (others_untouched_refl W))|intros daemons].
    destruct (daemons !! W) as [daemon|];
      [|apply (preserves_raise _ (others_untouched_refl W))].
    unfold the_state.
    apply (preserves_bind _ (others_untouched_trans W));
      [preserving (others_untouched_refl W) (others_untouched_trans W) untouched_step
      |intros state].
    destruct (is_summoned daemon);
      [apply (preserves_raise _ (others_untouched_refl W))|].
    do 4 (apply (preserves_bind _ (others_untouched_trans W));
          [unfold write_daemon, write_state, utcnow;
           preserving (others_untouched_refl W) (others_untouched_trans W)
             untouched_step
          |intros ?]).
    apply (preserves_bind _ (others_untouched_trans W)).
    + destruct (negb (mcp_registered state));
        [|apply (preserves_ret _ (others_untouched_refl W))].
      destruct (MODEL_MAPPINGS W) as [cfg|];
        [|apply (preserves_ret _ (others_untouched_refl W))].
      apply (preserves_bind _ (others_untouched_trans W));
        [apply register_daemon_untouched|intros ?].
      apply (preserves_ret _ (others_untouched_refl W)).
    + intros ?. unfold record_spell, the_daemon, logger_call.
      preserving (others_untouched_refl W) (others_untouched_trans W) untouched_step.
  - preserving (others_untouched_refl W) (others_untouched_trans W) untouched_step.
Qed.

Lemma banish_untouched W : preserves (others_untouched W) (banish_daemon W).
Proof.
  unfold banish_daemon, on_failure, unregister_tool, record_spell, the_daemon,
    the_state, write_daemon, write_state, logger_call.
  preserving (others_untouched_refl W) (others_untouched_trans W) untouched_step.
Qed.

End OperationFlags.

Section Liveness.
Import Registry Router.
Context {env : Env}.

(** A summoned worker is registered with the MCP client. *)
Definition summoned_registered (w : World) : Prop :=
  ∀ W d s, _daemons w !! W = Some d → _daemon_states w !! W = Some s →
           is_summoned d = true → mcp_registered s = true.

Lemma summoned_registered_grows w w' :
  registry_wf w → registered_grows w w' →
  summoned_registered w → summoned_registered w'.
Proof.
  intros (Hd & Hs & _) (H1 & H2) Hinv W d' s' Hd' Hs' Hsum.
  destruct (Hd W) as [d Hdw], (Hs W) as [s Hsw].
  specialize (H1 W). rewrite Hd', Hdw in H1. cbn in H1. injection H1 as H1.
  assert (Hsum0 : is_summoned d = true) by congruence.
  destruct (H2 W s Hsw (Hinv W d s Hdw Hsw Hsum0)) as (s'' & Hs'' & Hreg).
  congruence.
Qed.

Lemma summoned_registered_frame W0 w w' :
  others_untouched W0 w w' →
  (∀ d s, _daemons w' !! W0 = Some d → _daemon_states w' !! W0 = Some s →
          is_summoned d = true → mcp_registered s = true) →
  summoned_registered w → summoned_registered w'.
Proof.
  intros Hframe Hat Hinv W d s Hd Hs Hsum.
  destruct (decide (W = W0)) as [->|Hne]; [exact (Hat d s Hd Hs Hsum)|].
  destruct (Hframe W Hne) as [H1 H2]. rewrite H1 in Hd. rewrite H2 in Hs.
  exact (Hinv W d s Hd Hs Hsum).
Qed.

Lemma summoned_registered_same w w' :
  _daemons w' = _daemons w → _daemon_states w' = _daemon_states w →
  summoned_registered w → summoned_registered w'.
Proof. unfold summoned_registered. intros -> ->. tauto. Qed.

Lemma summon_summoned_registered W w :
  0 < recursion_limit → registry_wf w →
  summoned_registered w → summoned_registered (fst (summon W w)).
Proof.
  intros Hrec (Hd & Hs & _) Hinv.
  destruct (Hd W) as [d Hdw], (Hs W) as [s Hsw].
  destruct (is_summoned d) eqn:Hsum.
  - rewrite (summon_again W w d s Hrec Hdw Hsw Hsum). exact Hinv.
  - apply (summoned_registered_frame W w); [apply summon_untouched| |exact Hinv].
    destruct (summon_fresh W w d s Hrec Hdw Hsw Hsum)
      as (w' & d' & s' & Hrun & Hd' & _ & _ & Hs' & Hreg' & _).
    rewrite Hrun. cbn [fst]. intros d2 s2 Hd2 Hs2 _. congruence.
Qed.

Lemma banish_summoned_registered W w :
  0 < recursion_limit → registry_wf w →
  summoned_registered w → summoned_registered (fst (banish_daemon W w)).
Proof.
  intros Hrec (Hd & Hs & _) Hinv.
  destruct (Hd W) as [d Hdw], (Hs W) as [s Hsw].
  destruct (is_summoned d) eqn:Hsum.
  - apply (summoned_registered_frame W w); [apply banish_untouched| |exact Hinv].
    destruct (banish_present W w d s Hrec Hdw Hsw Hsum)
      as (w' & r & d' & s' & Hrun & _ & Hd' & Hsum' & _).
    rewrite Hrun. cbn [fst]. intros d2 s2 Hd2 Hs2 Hsum2. congruence.
  - rewrite (banish_dormant W w d s Hrec Hdw Hsw Hsum). exact Hinv.
Qed.

Lemma generate_decision_same registered text w :
  _daemons (fst (_generate_decision registered text w)) = _daemons w
  ∧ _daemon_states (fst (_generate_decision registered text w)) = _daemon_states w
  ∧ _registered_tools (fst (_generate_decision registered text w))
    = _registered_tools w.
Proof. apply keeps_generate_decision. Qed.

Lemma route_spell_flags registered text :
  preserves flags_same (route_spell registered text).
Proof.
  intros w. unfold route_spell, bind.
  destruct (generate_decision_same registered text w) as (H1 & H2 & H3).
  destruct (_generate_decision registered text w) as [w1 [decision|e]];
    cbn [fst] in *.
  - assert (Hfirst : flags_same w w1)
      by (split; [|split]; [intros W; rewrite H1|intros W; rewrite H2|];
          congruence).
    apply (flags_same_trans w w1); [exact Hfirst|].
    unfold _execute_decision.
    destruct (target_daemon decision) as [daemon|]; [|apply flags_same_refl].
    pose proof (invoke_daemon_flags daemon (default EmptyString (task decision))
                  (parameters decision) w1) as Hinv.
    destruct (invoke_daemon _ _ _ w1) as [w2 [r|e]]; exact Hinv.
  - split; [|split]; [intros W; rewrite H1|intros W; rewrite H2|]; congruence.
Qed.

Lemma register_archon_tool_grows registered :
  preserves registered_grows (_register_archon_tool registered).
Proof.
  unfold _register_archon_tool, register_tool, utcnow, logger_call.
  preserving registered_grows_refl registered_grows_trans grows_step.
Qed.

Lemma reachable_summoned_registered w :
  0 < recursion_limit → reachable w → summoned_registered w.
Proof.
  intros Hrec. induction 1 as [loop | c w Hw IH].
  - intros [] d s Hd Hs; vm_compute in Hd; injection Hd as <-; discriminate.
  - pose proof (reachable_wf w Hrec Hw) as Hwf.
    destruct c; cbn [after_call].
    + apply summon_summoned_registered; assumption.
    + apply (summoned_registered_grows w); [exact Hwf| |exact IH].
      apply flags_same_grows, invoke_daemon_flags.
    + apply banish_summoned_registered; assumption.
    + apply (summoned_registered_grows w); [exact Hwf| |exact IH].
      apply register_daemon_grows.
    + apply (summoned_registered_grows w); [exact Hwf| |exact IH].
      apply register_archon_tool_grows.
    + destruct (generate_decision_same registered spell_text w) as (H1 & H2 & _).
      apply (summoned_registered_same w); assumption.
    + apply (summoned_registered_grows w); [exact Hwf| |exact IH].
      apply flags_same_grows, route_spell_flags.
    + destruct (set_veil_keeps enabled w) as (H1 & H2 & _).
      apply (summoned_registered_same w); assumption.
    + destruct (reveal_keeps w) as [(H1 & H2 & _) _].
      apply (summoned_registered_same w); assumption.
    + destruct (reveal_keeps w) as [_ (H1 & H2 & _)].
      apply (summoned_registered_same w); assumption.
    + apply (summoned_registered_same w); [reflexivity..|exact IH].
    + apply (summoned_registered_same w); [reflexivity..|exact IH].
    + apply (summoned_registered_same w); [reflexivity..|exact IH].
Qed.

End Liveness.

Section InvokeFacts.
Import Registry Router.
Context {env : Env}.

(** What the backing call made of an invocation *)
Definition backing_success (o : Outcome Any) : bool :=
  match o with Returned _ => true | Raised _ => false end.

Definition backing_result (o : Outcome Any) : Any :=
  match o with
  | Returned v => v
  | Raised e => ADict [("error", AStr (Exc_str e))]
  end.

Lemma invoke_registered (W : DaemonType) (task : string)
    (params : option Dict.t) (w : World) (d : Daemon) (s : DaemonState)
    (cfg : ToolConfig) :
  0 < recursion_limit →
  _daemons w !! W = Some d → is_summoned d = true →
  _daemon_states w !! W = Some s → mcp_registered s = true →
  _registered_tools w !! DaemonType_value W = Some cfg →
  let outcome := backing_call (DaemonType_value W) task params cfg in
  let seconds := backing_seconds (DaemonType_value W) task in
  ∃ w' r s' record entry,
    invoke_daemon W task params w = (w', Returned r)
    ∧ res_success r = backing_success outcome
    ∧ res_result r = backing_result outcome
    ∧ res_execution_time r == seconds
    ∧ res_invocation_number r = (invocation_count d + 1)%Z
    ∧ res_daemon r = with_invocation_count (invocation_count d + 1) d
    ∧ _daemons w' !! W = Some (res_daemon r)
    ∧ _daemon_states w' !! W = Some s'
    ∧ invocation_history s' = invocation_history s ++ [record]
    ∧ rec_task record = task
    ∧ rec_success record = backing_success outcome
    ∧ rec_execution_time record == seconds
    ∧ total_execution_time s' == total_execution_time s + seconds
    ∧ mcp_registered s' = true
    ∧ summoned_at s' = summoned_at s
    ∧ spell_records w' = spell_records w ++ [entry]
    ∧ g_success entry = backing_success outcome
    ∧ g_spell_type entry = Some "invoke"
    ∧ _registered_tools w' = _registered_tools w.
Proof.
  intros Hrec Hd Hsum Hs Hreg Htool outcome seconds.
  assert (Hsec : ∀ t : Q, t + seconds - t == seconds) by (intros t; ring).
  unfold invoke_daemon. mred. rewrite Hd. mred. rewrite Hs. mred.
  rewrite Hsum, Hreg. mred.
  unfold invoke_tool. mred. rewrite Htool. mred.
  fold outcome seconds. destruct outcome as [v|e]; mred;
    unfold record_invocation; look Hd Hs;
    rewrite !safe_create_task_skips by assumption; look Hd Hs;
    do 5 eexists; (split; [reflexivity|]); look Hd Hs;
    cbn [res_success res_result res_execution_time res_invocation_number
         res_daemon invocation_history total_execution_time mcp_registered
         summoned_at rec_task rec_success rec_execution_time g_success
         g_spell_type backing_success backing_result];
    repeat split; try reflexivity; try assumption; try apply Hsec.
  all: cbn [total_execution_time]; rewrite Hsec; reflexivity.
Qed.

End InvokeFacts.

Section ReachableFacts.
Import Registry Router.
Context {env : Env}.

(** X8.  In every world that calls on the registry, the orchestrator, the
    veil and the event bus lead to, each of the three workers is known to the
    registry; a worker that is summoned is flagged as registered with MCP,
    and a worker flagged as registered has its tool in the MCP client. *)
Theorem summoned_workers_are_registered (W : DaemonType) (w : World) :
  0 < recursion_limit → reachable w →
  ∃ d s,
    _daemons w !! W = Some d ∧ _daemon_states w !! W = Some s
    ∧ (is_summoned d = true → mcp_registered s = true)
    ∧ (mcp_registered s = true →
       is_Some (_registered_tools w !! DaemonType_value W)).
Proof.
  intros Hrec Hw.
  destruct (reachable_wf w Hrec Hw) as (Hd & Hs & Ht).
  destruct (Hd W) as [d Hdw], (Hs W) as [s Hsw].
  exists d, s. split; [exact Hdw|]. split; [exact Hsw|]. split.
  - apply (reachable_summoned_registered w Hrec Hw W d s Hdw Hsw).
  - apply (Ht W s Hsw).
Qed.

(** X9.  In every such world, the only exception that [summon] raises is
    the 400 of a worker that is already summoned, the only one that
    [invoke_daemon] raises is the 400 of a worker that is not summoned, and
    the only one that [banish_daemon] raises is the 400 of a worker that is
    not present; each leaves the world exactly as it was.  The 404 and 500
    branches of the three operations are never taken. *)
Theorem lifecycle_errors_in_service (W : DaemonType) (w : World) :
  0 < recursion_limit → reachable w →
  (∀ w' e, summon W w = (w', Raised e) →
           e = HTTPException 400 (already_walks_among_us W) ∧ w' = w)
  ∧ (∀ task params w' e, invoke_daemon W task params w = (w', Raised e) →
           e = HTTPException 400 (slumbers_in_the_void W) ∧ w' = w)
  ∧ (∀ w' e, banish_daemon W w = (w', Raised e) →
           e = HTTPException 400 (not_present_in_this_realm W) ∧ w' = w).
Proof.
  intros Hrec Hw.
  destruct (reachable_wf w Hrec Hw) as (Hd & Hs & Ht).
  pose proof (reachable_summoned_registered w Hrec Hw) as Hinv.
  destruct (Hd W) as [d Hdw], (Hs W) as [s Hsw].
  destruct (is_summoned d) eqn:Hsum; (split; [|split]).
  - intros w' e. rewrite (summon_again W w d s Hrec Hdw Hsw Hsum).
    intros [= <- <-]. split; reflexivity.
  - intros task params w' e.
    pose proof (Hinv W d s Hdw Hsw Hsum) as Hreg.
    destruct (Ht W s Hsw Hreg) as [cfg Hcfg].
    destruct (invoke_registered W task params w d s cfg Hrec Hdw Hsum Hsw Hreg Hcfg)
      as (w1 & r & ? & ? & ? & Hrun & _).
    rewrite Hrun. discriminate.
  - intros w' e.
    destruct (banish_present W w d s Hrec Hdw Hsw Hsum) as (w1 & r & ? & ? & Hrun & _).
    rewrite Hrun. discriminate.
  - intros w' e.
    destruct (summon_fresh W w d s Hrec Hdw Hsw Hsum) as (w1 & ? & ? & Hrun & _).
    rewrite Hrun. discriminate.
  - intros task params w' e.
    rewrite (invoke_dormant W task params w d s Hrec Hdw Hsw Hsum).
    intros [= <- <-]. split; reflexivity.
  - intros w' e. rewrite (banish_dormant W w d s Hrec Hdw Hsw Hsum).
    intros [= <- <-]. split; reflexivity.
Qed.

(** X10.  In every such world, [invoke_daemon] on a summoned worker
    returns.  The result carries the success flag and the payload of the
    backing call (success false and the error when the backing call raised),
    the time the backing call took, and the worker's invocation counter plus
    one, which is stored; one record with the task and the success flag is
    appended to the worker's history, and the total execution time grows by
    the time of this call. *)
Theorem invoking_a_summoned_worker_returns (W : DaemonType) (task : string)
    (params : option Dict.t) (w : World) (d : Daemon) :
  0 < recursion_limit → reachable w →
  _daemons w !! W = Some d → is_summoned d = true →
  ∃ w' r cfg s s' record,
    invoke_daemon W task params w = (w', Returned r)
    ∧ _registered_tools w !! DaemonType_value W = Some cfg
    ∧ res_success r
      = backing_success (backing_call (DaemonType_value W) task params cfg)
    ∧ res_result r
      = backing_result (backing_call (DaemonType_value W) task params cfg)
    ∧ res_execution_time r == backing_seconds (DaemonType_value W) task
    ∧ res_invocation_number r = (invocation_count d + 1)%Z
    ∧ _daemons w' !! W = Some (with_invocation_count (invocation_count d + 1) d)
    ∧ _daemon_states w !! W = Some s
    ∧ _daemon_states w' !! W = Some s'
    ∧ invocation_history s' = invocation_history s ++ [record]
    ∧ rec_task record = task
    ∧ rec_success record = res_success r
    ∧ total_execution_time s'
      == total_execution_time s + backing_seconds (DaemonType_value W) task.
Proof.
  intros Hrec Hw Hdw Hsum.
  destruct (reachable_wf w Hrec Hw) as (_ & Hs & Ht).
  destruct (Hs W) as [s Hsw].
  pose proof (reachable_summoned_registered w Hrec Hw W d s Hdw Hsw Hsum) as Hreg.
  destruct (Ht W s Hsw Hreg) as [cfg Hcfg].
  destruct (invoke_registered W task params w d s cfg Hrec Hdw Hsum Hsw Hreg Hcfg)
    as (w' & r & s' & record & entry & Hrun & Hok & Hres & Htime & Hnum & Hdae
        & Hd' & Hs' & Hhist & Htask & Hrok & _ & Htotal & _).
  exists w', r, cfg, s, s', record.
  rewrite Hdae in Hd'. rewrite Hok.
  repeat split; assumption.
Qed.

End ReachableFacts.

Lemma mock_limit : 0 < recursion_limit (Env:=Builtins.mock_env).
Proof. cbn. lia. Qed.

Lemma summoned_workers_are_registered_witness :
  let w := after_call (env:=Builtins.mock_env) (call_summon GEMINI)
             (Registry.initial_world None) in
  ∃ d s,
    _daemons w !! GEMINI = Some d ∧ _daemon_states w !! GEMINI = Some s
    ∧ (is_summoned d = true → mcp_registered s = true)
    ∧ (mcp_registered s = true → is_Some (_registered_tools w !! "gemini")).
Proof.
  apply (summoned_workers_are_registered (env:=Builtins.mock_env) GEMINI).
  - cbn. lia.
  - apply reachable_call, reachable_initial.
Defined.

Lemma lifecycle_errors_in_service_witness :
  let w := after_call (env:=Builtins.mock_env) (call_summon GEMINI)
             (Registry.initial_world None) in
  (∀ w' e, Registry.summon (env:=Builtins.mock_env) GEMINI w = (w', Raised e) →
           e = HTTPException 400 (already_walks_among_us GEMINI) ∧ w' = w)
  ∧ (∀ task params w' e,
       Registry.invoke_daemon (env:=Builtins.mock_env) GEMINI task params w
       = (w', Raised e) →
       e = HTTPException 400 (slumbers_in_the_void GEMINI) ∧ w' = w)
  ∧ (∀ w' e, Registry.banish_daemon (env:=Builtins.mock_env) GEMINI w
             = (w', Raised e) →
             e = HTTPException 400 (not_present_in_this_realm GEMINI) ∧ w' = w).
Proof.
  apply (lifecycle_errors_in_service (env:=Builtins.mock_env) GEMINI).
  - cbn. lia.
  - apply reachable_call, reachable_initial.
Defined.

Lemma invoking_a_summoned_worker_returns_witness :
  let w := after_call (env:=Builtins.mock_env) (call_summon GEMINI)
             (Registry.initial_world None) in
  ∃ w' r,
    Registry.invoke_daemon (env:=Builtins.mock_env) GEMINI "paint" None w
    = (w', Returned r)
    ∧ Registry.res_success r = true
    ∧ Registry.res_invocation_number r = 1%Z
    ∧ Registry.res_execution_time r == 1 # 100.
Proof.
  intros w.
  pose (d := default (Registry.initial_daemon GEMINI) (_daemons w !! GEMINI)).
  destruct (invoking_a_summoned_worker_returns (env:=Builtins.mock_env)
              GEMINI "paint" None w d)
    as (w' & r & cfg & s & s' & record & Hrun & Hcfg & Hok & _ & Htime & Hnum & _).
  - cbn. lia.
  - apply reachable_call, reachable_initial.
  - vm_compute. reflexivity.
  - vm_compute. reflexivity.
  - exists w', r. split; [exact Hrun|]. split; [|split; [exact Hnum|exact Htime]].
    rewrite Hok. vm_compute in Hcfg. injection Hcfg as <-. reflexivity.
Defined.

Section QuietRegistry.
Import Registry Router.
Context {env : Env}.

(** The event bus and the tasks of the running loop are as before. *)
Definition bus_same (w w' : World) : Prop :=
  event_bus w' = event_bus w ∧ running_loop w' = running_loop w.

Lemma bus_same_refl w : bus_same w w.
Proof. split; reflexivity. Qed.

Lemma bus_same_trans a b c : bus_same a b → bus_same b c → bus_same a c.
Proof. intros [H1 H2] [G1 G2]. split; congruence. Qed.

End QuietRegistry.

Ltac bus_step := split; reflexivity.

Section QuietOperations.
Import Registry Router.
Context {env : Env}.

Lemma register_daemon_quiet W mdl rl color caps :
  preserves bus_same (register_daemon W mdl rl color caps).
Proof.
  unfold register_daemon, register_tool, the_daemon, the_state, write_daemon,
    write_state, utcnow, logger_call.
  preserving bus_same_refl bus_same_trans bus_step.
Qed.

Lemma summon_quiet W : preserves bus_same (summon W).
Proof.
  unfold summon, on_failure.
  apply (preserves_try_except _ bus_same_trans); [|intros e].
  - apply (preserves_bind _ bus_same_trans);
      [apply (preserves_gets _ bus_same_refl)|intros daemons].
    destruct (daemons !! W) as [daemon|];
      [|apply (preserves_raise _ bus_same_refl)].
    unfold the_state.
    apply (preserves_bind _ bus_same_trans);
      [preserving bus_same_refl bus_same_trans bus_step|intros state].
    destruct (is_summoned daemon);
      [apply (preserves_raise _ bus_same_refl)|].
    do 4 (apply (preserves_bind _ bus_same_trans);
          [unfold write_daemon, write_state, utcnow;
           preserving bus_same_refl bus_same_trans bus_step
          |intros ?]).
    apply (preserves_bind _ bus_same_trans).
    + destruct (negb (mcp_registered state));
        [|apply (preserves_ret _ bus_same_refl)].
      destruct (MODEL_MAPPINGS W) as [cfg|];
        [|apply (preserves_ret _ bus_same_refl)].
      apply (preserves_bind _ bus_same_trans);
        [apply register_daemon_quiet|intros ?].
      apply (preserves_ret _ bus_same_refl).
    + intros ?. unfold record_spell, the_daemon, logger_call.
      preserving bus_same_refl bus_same_trans bus_step.
  - preserving bus_same_refl bus_same_trans bus_step.
Qed.

Lemma invoke_daemon_quiet W task params :
  preserves bus_same (invoke_daemon W task params).
Proof.
  unfold invoke_daemon, on_failure, invoke_tool, record_invocation, record_spell,
    the_daemon, the_state, write_daemon, write_state, new_MCPToolResult, elapse,
    utcnow, logger_call.
  preserving bus_same_refl bus_same_trans bus_step.
Qed.

Lemma banish_daemon_quiet W : preserves bus_same (banish_daemon W).
Proof.
  unfold banish_daemon, on_failure, unregister_tool, record_spell, the_daemon,
    the_state, write_daemon, write_state, logger_call.
  preserving bus_same_refl bus_same_trans bus_step.
Qed.

(** X11.  No operation of the registry ([summon], [invoke_daemon],
    [banish_daemon], [register_daemon]), whether it returns or raises, puts
    an event on the bus or adds a task to the running loop: every event, of
    success or of failure, is handed to [_safe_create_task], which never
    schedules it. *)
Theorem registry_operations_emit_nothing (W : DaemonType) (task mdl rl : string)
    (params : option Dict.t) (color : option string)
    (caps : option (list string)) (w : World) :
  bus_same w (fst (summon W w))
  ∧ bus_same w (fst (invoke_daemon W task params w))
  ∧ bus_same w (fst (banish_daemon W w))
  ∧ bus_same w (fst (register_daemon W mdl rl color caps w)).
Proof.
  split; [apply summon_quiet|]. split; [apply invoke_daemon_quiet|].
  split; [apply banish_daemon_quiet|]. apply register_daemon_quiet.
Qed.

(** X12.  [route_spell] and [analyze_spell] never change the summoned flag
    of a worker, the registered flag of a worker, or the tools of the MCP
    client, whatever the spell says and whichever of the planner and the
    parser decides: routing a summon or a banish spell neither summons nor
    banishes. *)
Theorem routing_changes_no_flag (registered : bool) (spell_text : string)
    (w : World) :
  flags_same w (fst (route_spell registered spell_text w))
  ∧ flags_same w (fst (analyze_spell registered spell_text w)).
Proof.
  split; [apply route_spell_flags|].
  destruct (generate_decision_same registered spell_text w) as (H1 & H2 & H3).
  unfold analyze_spell.
  split; [|split]; [intros W; rewrite H1|intros W; rewrite H2|]; congruence.
Qed.

End QuietOperations.

Section Records.
Import Registry Router.
Context {env : Env}.

(** The invocation records of every worker, the time they add up to and
    the time of the last invocation are as before. *)
Definition records_same (w w' : World) : Prop :=
  ∀ W,
    (fun s => (invocation_history s, total_execution_time s, last_invoked_at s))
      <$> _daemon_states w' !! W
    = (fun s => (invocation_history s, total_execution_time s, last_invoked_at s))
        <$> _daemon_states w !! W.

Lemma records_same_refl w : records_same w w.
Proof. intros W. reflexivity. Qed.

Lemma records_same_trans a b c : records_same a b → records_same b c → records_same a c.
Proof. intros H G W. rewrite G. apply H. Qed.

Lemma records_same_state g W w :
  (∀ s, invocation_history (g s) = invocation_history s
        ∧ total_execution_time (g s) = total_execution_time s
        ∧ last_invoked_at (g s) = last_invoked_at s) →
  records_same w (set_daemon_states (alter g W) w).
Proof.
  intros Hg W'. cbn. rewrite lookup_alter. case_decide; [subst W'|reflexivity].
  destruct (_daemon_states w !! W) as [s|]; [|reflexivity]. cbn.
  destruct (Hg s) as (-> & -> & ->). reflexivity.
Qed.

End Records.

Ltac records_step :=
  first
    [ apply records_same_state; intros ?; repeat split; reflexivity
    | intros ?; reflexivity ].

Section Summonings.
Import Registry Router.
Context {env : Env}.

Lemma register_daemon_records W mdl rl color caps :
  preserves records_same (register_daemon W mdl rl color caps).
Proof.
  unfold register_daemon, register_tool, the_daemon, the_state, write_daemon,
    write_state, utcnow, logger_call.
  preserving records_same_refl records_same_trans records_step.
Qed.

Lemma summon_records W : preserves records_same (summon W).
Proof.
  unfold summon, on_failure.
  apply (preserves_try_except _ records_same_trans); [|intros e].
  - apply (preserves_bind _ records_same_trans);
      [apply (preserves_gets _ records_same_refl)|intros daemons].
    destruct (daemons !! W) as [daemon|];
      [|apply (preserves_raise _ records_same_refl)].
    unfold the_state.
    apply (preserves_bind _ records_same_trans);
      [preserving records_same_refl records_same_trans records_step|intros state].
    destruct (is_summoned daemon);
      [apply (preserves_raise _ records_same_refl)|].
    do 4 (apply (preserves_bind _ records_same_trans);
          [unfold write_daemon, write_state, utcnow;
           preserving records_same_refl records_same_trans records_step
          |intros ?]).
    apply (preserves_bind _ records_same_trans).
    + destruct (negb (mcp_registered state));
        [|apply (preserves_ret _ records_same_refl)].
      destruct (MODEL_MAPPINGS W) as [cfg|];
        [|apply (preserves_ret _ records_same_refl)].
      apply (preserves_bind _ records_same_trans);
        [apply register_daemon_records|intros ?].
      apply (preserves_ret _ records_same_refl).
    + intros ?. unfold record_spell, the_daemon, logger_call.
      preserving records_same_refl records_same_trans records_step.
  - preserving records_same_refl records_same_trans records_step.
Qed.

Lemma banish_records W : preserves records_same (banish_daemon W).
Proof.
  unfold banish_daemon, on_failure, unregister_tool, record_spell, the_daemon,
    the_state, write_daemon, write_state, logger_call.
  preserving records_same_refl records_same_trans records_step.
Qed.

(** What [banish_daemon] does to a summoned worker *)
Lemma banish_summoned (W : DaemonType) (w : World) (d : Daemon) (s : DaemonState) :
  0 < recursion_limit →
  _daemons w !! W = Some d → _daemon_states w !! W = Some s →
  is_summoned d = true → mcp_registered s = true →
  ∃ w' r entry,
    banish_daemon W w = (w', Returned r)
    ∧ ban_statistics r = get_statistics d s
    ∧ ban_daemon r = with_is_summoned false d
    ∧ _daemons w' !! W = Some (with_is_summoned false d)
    ∧ _daemon_states w' !! W = Some (with_mcp_registered false s)
    ∧ _registered_tools w' = delete (DaemonType_value W) (_registered_tools w)
    ∧ spell_records w' = spell_records w ++ [entry]
    ∧ g_spell_type entry = Some "banish".
Proof.
  intros Hrec Hd Hs Hsum Hreg.
  unfold banish_daemon. mred. rewrite Hd. mred. rewrite Hs. mred.
  rewrite Hsum, Hreg. mred.
  destruct (_registered_tools w !! DaemonType_value W) eqn:Htool; mred;
    rewrite !safe_create_task_skips by assumption; look Hd Hs;
    do 3 eexists; (split; [reflexivity|]); look Hd Hs;
    repeat split; try reflexivity.
  symmetry. apply delete_id, Htool.
Qed.

(** X13.  Banishing a summoned worker returns its statistics, and summoning
    it again resets the invocation counter of the worker to 0 but keeps the
    state: the invocation history, the total execution time and the time of
    the last invocation are those from before the banishment, so that the
    statistics of the new incarnation still count the old invocations. *)
Theorem statistics_outlive_a_banishment (W : DaemonType) (w : World)
    (d : Daemon) (s : DaemonState) :
  0 < recursion_limit → reachable w →
  _daemons w !! W = Some d → _daemon_states w !! W = Some s →
  is_summoned d = true →
  ∃ w1 r w2 d2 s2,
    banish_daemon W w = (w1, Returned r)
    ∧ ban_statistics r = get_statistics d s
    ∧ summon W w1 = (w2, Returned d2)
    ∧ invocation_count d2 = 0%Z
    ∧ is_summoned d2 = true
    ∧ _daemon_states w2 !! W = Some s2
    ∧ invocation_history s2 = invocation_history s
    ∧ total_execution_time s2 = total_execution_time s
    ∧ last_invoked_at s2 = last_invoked_at s
    ∧ Dict.get "total_invocations" (get_statistics d2 s2)
      = Some (AInt (Z.of_nat (length (invocation_history s)))).
Proof.
  intros Hrec Hw Hd Hs Hsum.
  pose proof (reachable_summoned_registered w Hrec Hw W d s Hd Hs Hsum) as Hreg.
  destruct (banish_summoned W w d s Hrec Hd Hs Hsum Hreg)
    as (w1 & r & entry & Hrun1 & Hstats & _ & Hd1 & Hs1 & _).
  destruct (summon_fresh W w1 (with_is_summoned false d)
              (with_mcp_registered false s) Hrec Hd1 Hs1 eq_refl)
    as (w2 & d2 & s2 & Hrun2 & Hd2 & Hsum2 & Hcnt2 & Hs2 & _ & _ & Hhist2 & _).
  pose proof (summon_records W w1 W) as Hrec2.
  rewrite Hrun2 in Hrec2. cbn [fst] in Hrec2. rewrite Hs2, Hs1 in Hrec2.
  cbn in Hrec2. injection Hrec2 as Hh Ht Hl.
  exists w1, r, w2, d2, s2.
  repeat split; try assumption. cbn. rewrite Hh. reflexivity.
Qed.

End Summonings.

Lemma statistics_outlive_a_banishment_witness :
  let w := after_call (env:=Builtins.mock_env) (call_invoke GEMINI "paint" None)
             (after_call (env:=Builtins.mock_env) (call_summon GEMINI)
                (Registry.initial_world None)) in
  ∃ w1 r w2 d2 s2,
    Registry.banish_daemon (env:=Builtins.mock_env) GEMINI w = (w1, Returned r)
    ∧ Dict.get "total_invocations" (Registry.ban_statistics r) = Some (AInt 1)
    ∧ Registry.summon (env:=Builtins.mock_env) GEMINI w1 = (w2, Returned d2)
    ∧ invocation_count d2 = 0%Z
    ∧ _daemon_states w2 !! GEMINI = Some s2
    ∧ length (invocation_history s2) = 1.
Proof.
  intros w.
  pose (d := default (Registry.initial_daemon GEMINI) (_daemons w !! GEMINI)).
  pose (s := default Registry.initial_state (_daemon_states w !! GEMINI)).
  destruct (statistics_outlive_a_banishment (env:=Builtins.mock_env) GEMINI w d s)
    as (w1 & r & w2 & d2 & s2 & Hban & Hstats & Hsum & Hcnt & _ & Hs2 & Hhist & _).
  - cbn. lia.
  - do 2 apply reachable_call. apply reachable_initial.
  - vm_compute. reflexivity.
  - vm_compute. reflexivity.
  - vm_compute. reflexivity.
  - exists w1, r, w2, d2, s2. split; [exact Hban|]. split.
    { rewrite Hstats. vm_compute. reflexivity. }
    split; [exact Hsum|]. split; [exact Hcnt|]. split; [exact Hs2|].
    rewrite Hhist. vm_compute. reflexivity.
Defined.

Section Tools.
Import Registry Router.
Context {env : Env}.

(** The tools of the MCP client other than the one named [tool] are as
    before. *)
Definition other_tools_same (tool : string) (w w' : World) : Prop :=
  ∀ k, k ≠ tool → _registered_tools w' !! k = _registered_tools w !! k.

Lemma other_tools_same_refl tool w : other_tools_same tool w w.
Proof. intros k _. reflexivity. Qed.

Lemma other_tools_same_trans tool a b c :
  other_tools_same tool a b → other_tools_same tool b c → other_tools_same tool a c.
Proof. intros H G k Hk. rewrite (G k Hk). apply (H k Hk). Qed.

Lemma other_tools_same_insert tool cfg w :
  other_tools_same tool w (set_registered_tools (insert tool cfg) w).
Proof. intros k Hk. cbn. apply lookup_insert_ne. congruence. Qed.

Lemma other_tools_same_delete tool w :
  other_tools_same tool w (set_registered_tools (delete tool) w).
Proof. intros k Hk. cbn. apply lookup_delete_ne. congruence. Qed.

End Tools.

Ltac tools_step :=
  first
    [ apply other_tools_same_insert
    | apply other_tools_same_delete
    | intros ? ?; reflexivity ].

Section ToolFacts.
Import Registry Router.
Context {env : Env}.

Lemma register_daemon_tools W mdl rl color caps :
  preserves (other_tools_same (DaemonType_value W))
    (register_daemon W mdl rl color caps).
Proof.
  unfold register_daemon, register_tool, the_daemon, the_state, write_daemon,
    write_state, utcnow, logger_call.
  preserving (other_tools_same_refl (DaemonType_value W))
    (other_tools_same_trans (DaemonType_value W)) tools_step.
Qed.

Lemma summon_tools W :
  preserves (other_tools_same (DaemonType_value W)) (summon W).
Proof.
  set (T := DaemonType_value W).
  unfold summon, on_failure.
  apply (preserves_try_except _ (other_tools_same_trans T)); [|intros e].
  - apply (preserves_bind _ (other_tools_same_trans T));
      [apply (preserves_gets _ (other_tools_same_refl T))|intros daemons].
    destruct (daemons !! W) as [daemon|];
      [|apply (preserves_raise _ (other_tools_same_refl T))].
    unfold the_state.
    apply (preserves_bind _ (other_tools_same_trans T));
      [preserving (other_tools_same_refl T) (other_tools_same_trans T) tools_step
      |intros state].
    destruct (is_summoned daemon);
      [apply (preserves_raise _ (other_tools_same_refl T))|].
    do 4 (apply (preserves_bind _ (other_tools_same_trans T));
          [unfold write_daemon, write_state, utcnow;
           preserving (other_tools_same_refl T) (other_tools_same_trans T)
             tools_step
          |intros ?]).
    apply (preserves_bind _ (other_tools_same_trans T)).
    + destruct (negb (mcp_registered state));
        [|apply (preserves_ret _ (other_tools_same_refl T))].
      destruct (MODEL_MAPPINGS W) as [cfg|];
        [|apply (preserves_ret _ (other_tools_same_refl T))].
      apply (preserves_bind _ (other_tools_same_trans T));
        [apply register_daemon_tools|intros ?].
      apply (preserves_ret _ (other_tools_same_refl T)).
    + intros ?. unfold record_spell, the_daemon, logger_call.
      preserving (other_tools_same_refl T) (other_tools_same_trans T) tools_step.
  - preserving (other_tools_same_refl T) (other_tools_same_trans T) tools_step.
Qed.

(** X14.  Summoning a worker that is not summoned registers its tool with
    the MCP client, and banishing it right away unregisters it: afterwards the
    tools are those from before the summon without the worker's own, the
    worker is neither summoned nor flagged as registered, and the statistics
    that the banishment returned are those taken before the flags were
    cleared (active and registered). *)
Theorem banishment_undoes_the_registration (W : DaemonType) (w : World)
    (d : Daemon) :
  0 < recursion_limit → reachable w →
  _daemons w !! W = Some d → is_summoned d = false →
  ∃ w1 d1 w2 r d2 s2,
    summon W w = (w1, Returned d1)
    ∧ is_Some (_registered_tools w1 !! DaemonType_value W)
    ∧ banish_daemon W w1 = (w2, Returned r)
    ∧ _registered_tools w2 = delete (DaemonType_value W) (_registered_tools w)
    ∧ _daemons w2 !! W = Some d2 ∧ is_summoned d2 = false
    ∧ _daemon_states w2 !! W = Some s2 ∧ mcp_registered s2 = false
    ∧ Dict.get "is_active" (ban_statistics r) = Some (ABool true)
    ∧ Dict.get "mcp_registered" (ban_statistics r) = Some (ABool true).
Proof.
  intros Hrec Hw Hd Hsum.
  destruct (reachable_known W w Hrec Hw) as (d0 & s & Hd0 & Hs).
  assert (d0 = d) as -> by congruence.
  destruct (summon_fresh W w d s Hrec Hd Hs Hsum)
    as (w1 & d1 & s1 & Hrun1 & Hd1 & Hsum1 & _ & Hs1 & Hreg1 & _).
  assert (Hw1 : reachable w1).
  { replace w1 with (after_call (call_summon W) w)
      by (cbn [after_call]; rewrite Hrun1; reflexivity).
    apply reachable_call, Hw. }
  destruct (banish_summoned W w1 d1 s1 Hrec Hd1 Hs1 Hsum1 Hreg1)
    as (w2 & r & entry & Hrun2 & Hstats & _ & Hd2 & Hs2 & Htools & _).
  pose proof (summon_tools W w) as Hother.
  rewrite Hrun1 in Hother. cbn [fst] in Hother.
  exists w1, d1, w2, r, (with_is_summoned false d1), (with_mcp_registered false s1).
  split; [exact Hrun1|]. split; [|split; [exact Hrun2|split]].
  - apply (reachable_registered W w1 s1 Hrec Hw1 Hs1 Hreg1).
  - rewrite Htools. apply map_eq. intros k.
    destruct (decide (k = DaemonType_value W)) as [->|Hne].
    + rewrite !lookup_delete_eq. reflexivity.
    + rewrite !lookup_delete_ne by congruence. apply Hother, Hne.
  - rewrite Hstats. repeat split; try assumption.
    + cbn. rewrite Hsum1. reflexivity.
    + cbn. rewrite Hreg1. reflexivity.
Qed.

End ToolFacts.

Lemma banishment_undoes_the_registration_witness :
  let w := Registry.initial_world None in
  ∃ w1 d1 w2 r,
    Registry.summon (env:=Builtins.mock_env) CLAUDE w = (w1, Returned d1)
    ∧ is_Some (_registered_tools w1 !! "claude")
    ∧ Registry.banish_daemon (env:=Builtins.mock_env) CLAUDE w1 = (w2, Returned r)
    ∧ _registered_tools w2 = delete "claude" (_registered_tools w).
Proof.
  intros w.
  destruct (banishment_undoes_the_registration (env:=Builtins.mock_env) CLAUDE w
              (Registry.initial_daemon CLAUDE))
    as (w1 & d1 & w2 & r & d2 & s2 & Hsum & Htool & Hban & Htools & _).
  - cbn. lia.
  - apply reachable_initial.
  - vm_compute. reflexivity.
  - reflexivity.
  - exists w1, d1, w2, r. repeat split; assumption.
Defined.

Section ClientFacts.
Import Registry Router.
Context {env : Env}.

(** X15.  [register_tool] always returns true and stores, under the tool's
    name, a configuration with the model, the provider's value, the
    capabilities and the time of the call, leaving every other tool as it
    was; [is_tool_registered] then answers true.  [unregister_tool] then
    returns true and removes exactly that entry; afterwards
    [is_tool_registered] answers false and a second [unregister_tool]
    returns false and changes nothing. *)
Theorem tool_registration_round_trip (tool mdl : string) (prov : ModelProvider)
    (caps : list string) (meta : option Dict.t) (w : World) :
  ∃ w1 cfg w2,
    register_tool tool mdl prov caps meta w = (w1, Returned true)
    ∧ _registered_tools w1 !! tool = Some cfg
    ∧ model cfg = mdl ∧ provider cfg = ModelProvider_value prov
    ∧ capabilities cfg = caps ∧ registered_at cfg = clock w
    ∧ is_tool_registered tool w1 = (w1, Returned true)
    ∧ (∀ k, k ≠ tool → _registered_tools w1 !! k = _registered_tools w !! k)
    ∧ unregister_tool tool w1 = (w2, Returned true)
    ∧ _registered_tools w2 = delete tool (_registered_tools w)
    ∧ is_tool_registered tool w2 = (w2, Returned false)
    ∧ unregister_tool tool w2 = (w2, Returned false).
Proof.
  set (cfg := {| tool_name := tool; model := mdl;
                 provider := ModelProvider_value prov; capabilities := caps;
                 tool_metadata := default [] meta; registered_at := clock w |}).
  set (w1 := set_registered_tools (insert tool cfg) w).
  set (w2 := set_registered_tools (delete tool) w1).
  assert (H1 : _registered_tools w1 !! tool = Some cfg) by apply lookup_insert_eq.
  assert (H2 : _registered_tools w2 !! tool = None) by apply lookup_delete_eq.
  exists w1, cfg, w2.
  split; [reflexivity|]. split; [exact H1|]. do 4 (split; [reflexivity|]).
  split.
  { unfold is_tool_registered. mred. rewrite H1.
    rewrite bool_decide_eq_true_2 by (eexists; reflexivity). reflexivity. }
  split; [intros k Hk; apply lookup_insert_ne; congruence|].
  split; [unfold unregister_tool; mred; rewrite H1; reflexivity|].
  split; [apply delete_insert_eq|].
  split.
  { unfold is_tool_registered. mred. rewrite H2.
    rewrite bool_decide_eq_false_2; [reflexivity|]. intros [x Hx]. discriminate. }
  unfold unregister_tool. mred. rewrite H2. reflexivity.
Qed.

(** X16.  [invoke_tool] raises ValueError, and changes nothing, exactly
    when the tool is not registered.  For a registered tool it always
    returns: success and result are those of the backing call (success false
    and the error text when it raised), the execution time is the time the
    backing call took, the metadata names the tool, and the only change to
    the world is the time that passed. *)
Theorem invoke_tool_outcome (tool task : string) (params : option Dict.t)
    (w : World) :
  match _registered_tools w !! tool with
  | None => ∃ msg, invoke_tool tool task params w = (w, Raised (ValueError msg))
  | Some cfg =>
      ∃ w' r,
        invoke_tool tool task params w = (w', Returned r)
        ∧ mcp_success r = backing_success (backing_call tool task params cfg)
        ∧ mcp_result r = backing_result (backing_call tool task params cfg)
        ∧ mcp_execution_time r == backing_seconds tool task
        ∧ w' = set_clock (fun t => (t + backing_seconds tool task)%Q) w
        ∧ Dict.get "tool_name" (mcp_metadata r) = Some (AStr tool)
  end.
Proof.
  assert (Hsec : ∀ t x : Q, t + x - t == x) by (intros; ring).
  unfold invoke_tool. mred.
  destruct (_registered_tools w !! tool) as [cfg|] eqn:Htool; mred.
  - destruct (backing_call tool task params cfg) as [v|e]; mred;
      eexists _, _; (split; [reflexivity|]);
      cbn [mcp_success mcp_result mcp_execution_time mcp_metadata
           backing_success backing_result];
      repeat split; try reflexivity; apply Hsec.
  - eexists. reflexivity.
Qed.

End ClientFacts.

Section StatisticsFacts.
Import Registry Router.
Context {env : Env}.

Lemma three_keys {A} (m : gmap DaemonType A) :
  (∀ W, is_Some (m !! W)) →
  ∃ a b c, m !! CLAUDE = Some a ∧ m !! GEMINI = Some b ∧ m !! LIQUIDMETAL = Some c
           ∧ m = <[CLAUDE:=a]> (<[GEMINI:=b]> (<[LIQUIDMETAL:=c]> ∅)).
Proof.
  intros H. destruct (H CLAUDE) as [a Ha], (H GEMINI) as [b Hb],
    (H LIQUIDMETAL) as [c Hc].
  exists a, b, c. repeat split; try assumption.
  apply map_eq. intros []; [rewrite lookup_insert_eq; exact Ha| |].
  - rewrite lookup_insert_ne by discriminate. rewrite lookup_insert_eq. exact Hb.
  - rewrite !lookup_insert_ne by discriminate. rewrite lookup_insert_eq. exact Hc.
Qed.

Lemma three_keys_size {A} (a b c : A) :
  size (<[CLAUDE:=a]> (<[GEMINI:=b]> (<[LIQUIDMETAL:=c]> (∅ : gmap DaemonType A)))) = 3.
Proof.
  rewrite !map_size_insert_None, map_size_empty; [reflexivity|..].
  - apply lookup_empty.
  - rewrite lookup_insert_ne by discriminate. apply lookup_empty.
  - rewrite !lookup_insert_ne by discriminate. apply lookup_empty.
Qed.

(** X17.  In every world that calls lead to, [get_registry_statistics]
    changes nothing and reports 3 workers in total; the active ones are at
    most as many as the registered ones, which are at most 3; active and
    dormant add up to 3; and there is one entry of statistics per worker.
    [get_active_daemons] returns exactly the workers whose summoned flag is
    set. *)
Theorem registry_statistics_in_service (w : World) :
  0 < recursion_limit → reachable w →
  ∃ stats active,
    get_registry_statistics w = (w, Returned stats)
    ∧ total_daemons stats = 3%Z
    ∧ (0 ≤ active_daemons stats ≤ mcp_registered_daemons stats)%Z
    ∧ (mcp_registered_daemons stats ≤ 3)%Z
    ∧ (active_daemons stats + dormant_daemons stats = 3)%Z
    ∧ (fst <$> daemon_statistics stats) = ["claude"; "gemini"; "liquidmetal"]
    ∧ get_active_daemons w = (w, Returned active)
    ∧ (∀ W d, active !! W = Some d
              ↔ _daemons w !! W = Some d ∧ is_summoned d = true).
Proof.
  intros Hrec Hw.
  destruct (reachable_wf w Hrec Hw) as (Hd & Hs & _).
  pose proof (reachable_summoned_registered w Hrec Hw) as Hinv.
  destruct (three_keys _ Hd) as (dc & dg & dl & Hdc & Hdg & Hdl & Hdm).
  destruct (three_keys _ Hs) as (sc & sg & sl & Hsc & Hsg & Hsl & Hsm).
  pose proof (Hinv CLAUDE dc sc Hdc Hsc) as Ic.
  pose proof (Hinv GEMINI dg sg Hdg Hsg) as Ig.
  pose proof (Hinv LIQUIDMETAL dl sl Hdl Hsl) as Il.
  unfold get_registry_statistics, get_active_daemons. mred.
  eexists _, _. split; [reflexivity|].
  cbn [total_daemons active_daemons dormant_daemons mcp_registered_daemons
       daemon_statistics].
  assert (Hsize : size (_daemons w) = 3) by (rewrite Hdm; apply three_keys_size).
  assert (Hvd : values (_daemons w) = [dc; dg; dl])
    by (unfold values, daemon_keys; cbn [omap list_omap]; rewrite Hdc, Hdg, Hdl; reflexivity).
  assert (Hvs : values (_daemon_states w) = [sc; sg; sl])
    by (unfold values, daemon_keys; cbn [omap list_omap]; rewrite Hsc, Hsg, Hsl; reflexivity).
  rewrite Hsize, Hvd, Hvs. unfold count_where, daemon_keys. cbn [omap list_omap].
  rewrite Hdc, Hdg, Hdl, Hsc, Hsg, Hsl.
  split; [reflexivity|].
  split.
  { cbn [List.filter].
    destruct (is_summoned dc), (is_summoned dg), (is_summoned dl);
      try rewrite (Ic eq_refl); try rewrite (Ig eq_refl); try rewrite (Il eq_refl);
      destruct (mcp_registered sc), (mcp_registered sg), (mcp_registered sl);
      cbn; lia. }
  split.
  { cbn [List.filter].
    destruct (mcp_registered sc), (mcp_registered sg), (mcp_registered sl); cbn; lia. }
  split; [lia|]. split; [reflexivity|]. split; [reflexivity|].
  intros W d. rewrite map_lookup_filter_Some. reflexivity.
Qed.

End StatisticsFacts.

Lemma registry_statistics_in_service_witness :
  let w := after_call (env:=Builtins.mock_env) (call_summon GEMINI)
             (Registry.initial_world None) in
  ∃ stats,
    Registry.get_registry_statistics w = (w, Returned stats)
    ∧ Registry.total_daemons stats = 3%Z
    ∧ Registry.active_daemons stats = 1%Z
    ∧ Registry.mcp_registered_daemons stats = 1%Z.
Proof.
  intros w.
  destruct (registry_statistics_in_service (env:=Builtins.mock_env) w)
    as (stats & active & Hrun & Htotal & _).
  - cbn. lia.
  - apply reachable_call, reachable_initial.
  - exists stats. split; [exact Hrun|]. split; [exact Htotal|].
    vm_compute in Hrun. injection Hrun as <-. split; reflexivity.
Defined.

Section RoutingFacts.
Import Registry Router.
Context {env : Env}.

Lemma bind_gets {A B} (f : World → A) (k : A → M B) (w : World) :
  bind (gets f) k w = k (f w) w.
Proof. reflexivity. Qed.

Lemma try_except_cases {A} (body : M A) (handler : Exc → M A) (w : World) :
  (∃ w' a, body w = (w', Returned a) ∧ try_except body handler w = (w', Returned a))
  ∨ (∃ w' e, body w = (w', Raised e) ∧ try_except body handler w = handler e w').
Proof.
  unfold try_except. destruct (body w) as [w' [a|e]]; [left|right]; eauto.
Qed.

(** What [_decision_from_spell_parser] makes of the parser's exception *)
Definition parser_error (e : Exc) : Exc :=
  match e with
  | ParseError msg => HTTPException 400 (detail_text msg)
  | _ => e
  end.

(** The worker that the parser's daemon name designates *)
Definition parsed_target (parsed : SpellParser.ParsedSpell) : option DaemonType :=
  match SpellParser.daemon parsed with
  | Some d => DaemonType_of_value d
  | None => None
  end.

Lemma decision_from_spell_parser_run (text : string) (w : World) :
  match SpellParser.parse text with
  | Returned parsed =>
      ∃ d, _decision_from_spell_parser text w = (w, Returned d)
           ∧ target_daemon d = parsed_target parsed
           ∧ task d = SpellParser.task parsed
           ∧ parameters d = Some (default [] (SpellParser.parameters parsed))
           ∧ plan d = []
           ∧ fallback_used d = true
  | Raised e => _decision_from_spell_parser text w = (w, Raised (parser_error e))
  end.
Proof.
  unfold _decision_from_spell_parser.
  destruct (SpellParser.parse text) as [parsed|e].
  - mred. eexists. split; [reflexivity|]. cbn. repeat split.
    unfold parsed_target. destruct (SpellParser.daemon parsed) as [d|]; [|reflexivity].
    destruct (Text.truthy d) eqn:E; [reflexivity|].
    destruct d; [reflexivity|discriminate].
  - destruct e; reflexivity.
Qed.

(** X18.  [_generate_decision] never fails because of the planner: when
    the spell parser can parse the text, a decision is returned, whatever the
    planner, the validation of its answer or the latency policy did; and
    when [_generate_decision] raises, it raises what the parser raised, a
    [ParseError] being turned into the HTTP error 400 with the same text. *)
Theorem planner_failure_falls_back (tool_registered : bool) (text : string) (w : World) :
  match SpellParser.parse text with
  | Returned parsed =>
      ∃ w' d, _generate_decision tool_registered text w = (w', Returned d)
  | Raised e =>
      (∃ w' d, _generate_decision tool_registered text w = (w', Returned d)
               ∧ archon_enabled settings && tool_registered = true)
      ∨ (∃ w', _generate_decision tool_registered text w
               = (w', Raised (parser_error e)))
  end.
Proof.
  unfold _generate_decision, is_fantasy_mode. rewrite bind_gets.
  destruct (archon_enabled settings && tool_registered) eqn:Hon.
  - match goal with |- context [try_except ?b ?h w] =>
      destruct (try_except_cases b h w) as [(w1 & d & _ & ->)|(w1 & x & _ & ->)] end.
    + destruct (SpellParser.parse text); [eexists _, _; reflexivity|].
      left. eexists _, _. split; reflexivity.
    + mred. pose proof (decision_from_spell_parser_run text w1) as H.
      destruct (SpellParser.parse text).
      * destruct H as (d & -> & _). eauto.
      * right. rewrite H. eauto.
  - pose proof (decision_from_spell_parser_run text w) as H.
    destruct (SpellParser.parse text).
    + destruct H as (d & -> & _). eauto.
    + right. rewrite H. eauto.
Qed.

(** X19.  When the planner is disabled or its tool is not registered,
    [route_spell] depends only on what the parser makes of the text, and the
    action of the spell plays no part.  A text that does not parse gives
    the 400 of the parser and changes nothing; a parsed spell that names no
    known worker gives the 422 with the plan "No safe execution path
    provided." and changes nothing; a parsed spell that names a worker is
    executed as [invoke_daemon] on that worker with the parsed task and
    parameters, so that a summon spell for a worker that is not summoned is
    answered by the 400 of a worker that is not summoned. *)
Theorem routing_without_planner (tool_registered : bool) (text : string) (w : World) :
  0 < recursion_limit → reachable w →
  archon_enabled settings && tool_registered = false →
  match SpellParser.parse text with
  | Raised e => route_spell tool_registered text w = (w, Raised (parser_error e))
  | Returned parsed =>
      match parsed_target parsed with
      | None =>
          route_spell tool_registered text w
          = (w, Raised (HTTPException 422
                          (detail_plan ["No safe execution path provided."])))
      | Some W =>
          ∃ d, _daemons w !! W = Some d
          ∧ if is_summoned d then
              ∃ w' decision r,
                route_spell tool_registered text w = (w', Returned (decision, r))
                ∧ invoke_daemon W (default EmptyString (SpellParser.task parsed))
                    (Some (default [] (SpellParser.parameters parsed))) w
                  = (w', Returned r)
            else
              route_spell tool_registered text w
              = (w, Raised (HTTPException 400 (slumbers_in_the_void W)))
      end
  end.
Proof.
  intros Hrec Hw Hoff.
  unfold route_spell, _generate_decision. mred. rewrite Hoff.
  pose proof (decision_from_spell_parser_run text w) as H.
  destruct (SpellParser.parse text) as [parsed|e].
  - destruct H as (d & -> & Ht & Htask & Hpar & Hplan & _).
    unfold _execute_decision. rewrite Ht, Htask, Hpar, Hplan.
    destruct (parsed_target parsed) as [W|]; [|reflexivity].
    destruct (reachable_known W w Hrec Hw) as (dm & s & Hd & Hs).
    exists dm. split; [exact Hd|].
    destruct (is_summoned dm) eqn:Hsum.
    + pose proof (reachable_summoned_registered w Hrec Hw W dm s Hd Hs Hsum) as Hreg.
      destruct (reachable_registered W w s Hrec Hw Hs Hreg) as (cfg & Htool).
      destruct (invoke_registered W (default EmptyString (SpellParser.task parsed))
                  (Some (default [] (SpellParser.parameters parsed)))
                  w dm s cfg Hrec Hd Hsum Hs Hreg Htool)
        as (w' & r & s' & record & entry & Hrun & _).
      rewrite Hrun. mred. eexists _, _, _. split; reflexivity.
    + rewrite (invoke_dormant W _ _ w dm s Hrec Hd Hs Hsum). reflexivity.
  - rewrite H. reflexivity.
Qed.

End RoutingFacts.

Lemma routing_without_planner_witness :
  let w := Registry.initial_world None in
  Router.route_spell (env:=Builtins.mock_env) false "summon claude" w
  = (w, Raised (HTTPException 400 (slumbers_in_the_void CLAUDE))).
Proof.
  intros w.
  pose proof (routing_without_planner (env:=Builtins.mock_env) false
                "summon claude" w) as H.
  rewrite parse_summon_claude in H.
  destruct H as (d & Hd & H).
  - cbn. lia.
  - apply reachable_initial.
  - reflexivity.
  - vm_compute in Hd. injection Hd as <-. exact H.
Defined.

Section ValidatedDecisions.
Import Safety.
Context {env : Env}.

(** The line that [_log_rejection] appends *)
Definition rejection (reason : string) (payload : Any) : RejectionLine :=
  {| log_event := "REJECTED_PAYLOAD"; log_reason := reason;
     log_payload := payload |}.

(** The worker that a directive's daemon choice designates *)
Definition chosen (c : DaemonChoice) : option DaemonType :=
  match c with
  | choose_claude => Some CLAUDE
  | choose_gemini => Some GEMINI
  | choose_liquidmetal => Some LIQUIDMETAL
  | choose_none => None
  end.

Lemma as_strs_strings (l : list string) :
  Router.as_strs (Some (AList (AStr <$> l))) = l.
Proof.
  unfold Router.as_strs. induction l as [|x l IH]; [reflexivity|].
  cbn. cbn in IH. rewrite IH. reflexivity.
Qed.

Lemma validate_returns (payload : Any) (fantasy_mode : bool) (w w' : World)
    (cleaned : Dict.t) :
  validate_archon_payload payload fantasy_mode w = (w', Returned cleaned) →
  w' = w
  ∧ ∃ directive,
      parse_obj payload = Some directive
      ∧ (allow_shell (safety directive) = false →
         asks_for_shell (task directive :: plan directive) = false)
      ∧ cleaned
        = if fantasy_mode
          then Dict.set "plan" (AList (AStr <$> (_redact_paths <$> plan directive)))
                 (directive_dict directive)
          else clear_fantasy (directive_dict directive).
Proof.
  unfold validate_archon_payload.
  destruct (parse_obj payload) as [directive|]; [|discriminate].
  destruct (allow_shell (safety directive)) eqn:Hallow; cbn [negb].
  - destruct fantasy_mode; mred; intros [= <- <-]; (split; [reflexivity|]);
      exists directive; (split; [reflexivity|]); (split; [congruence|reflexivity]).
  - destruct (asks_for_shell (task directive :: plan directive)) eqn:Hasks; mred;
      [discriminate|].
    destruct fantasy_mode; mred; intros [= <- <-]; (split; [reflexivity|]);
      exists directive; (split; [reflexivity|]);
      (split; [intros _; exact Hasks|reflexivity]).
Qed.

(** X20.  [validate_archon_payload] has two outcomes.  It returns the
    cleaned directive and changes nothing, which happens exactly when the
    payload fits the schema and either allows the shell or does not mention
    it in its task and plan.  Or it raises ValueError after appending exactly
    one REJECTED_PAYLOAD line that holds the payload as it came, with the
    reason "schema_validation_error" when the payload does not fit the
    schema and "shell_command_disallowed" otherwise. *)
Theorem validation_outcomes (payload : Any) (fantasy_mode : bool) (w : World) :
  (∃ cleaned directive,
     validate_archon_payload payload fantasy_mode w = (w, Returned cleaned)
     ∧ parse_obj payload = Some directive
     ∧ (allow_shell (safety directive) = true
        ∨ asks_for_shell (task directive :: plan directive) = false))
  ∨ (∃ message reason,
       validate_archon_payload payload fantasy_mode w
       = (set_grimoire_file (fun lines => lines ++ [rejection reason payload]) w,
          Raised (ValueError message))
       ∧ ((reason = "schema_validation_error" ∧ parse_obj payload = None)
          ∨ (reason = "shell_command_disallowed"
             ∧ ∃ directive, parse_obj payload = Some directive
                 ∧ allow_shell (safety directive) = false
                 ∧ asks_for_shell (task directive :: plan directive) = true))).
Proof.
  unfold validate_archon_payload.
  destruct (parse_obj payload) as [directive|].
  - destruct (allow_shell (safety directive)) eqn:Hallow; cbn [negb].
    + left. destruct fantasy_mode; eexists _, directive;
        (split; [reflexivity|]); split; auto.
    + destruct (asks_for_shell _) eqn:Hasks.
      * right. eexists _, _. split; [reflexivity|]. right.
        split; [reflexivity|]. exists directive. auto.
      * left. destruct fantasy_mode; eexists _, directive;
          (split; [reflexivity|]); split; auto.
  - right. eexists _, _. split; [reflexivity|]. left. split; reflexivity.
Qed.

(** X21.  The decision that [_decision_from_payload] builds from a
    validated payload takes intent, target worker, task and parameters from
    the directive, and the plan as validation cleaned it.  Its reasoning is
    always empty and its confidence is always None, because the schema has no
    such fields and validation returns the fields of the schema only; its
    narration is the base narration in fantasy mode when the directive's
    style asks for fantasy, and empty otherwise. *)
Theorem planner_decision_fields (payload : Any) (fantasy_mode : bool)
    (w w' : World) (cleaned : Dict.t) (spell_text : string) :
  validate_archon_payload payload fantasy_mode w = (w', Returned cleaned) →
  ∃ directive,
    parse_obj payload = Some directive
    ∧ let decision := Router._decision_from_payload spell_text cleaned in
      Router.intent decision = Intent_value (intent directive)
      ∧ Router.target_daemon decision = chosen (daemon directive)
      ∧ Router.task decision = Some (task directive)
      ∧ Router.parameters decision = parameters directive
      ∧ Router.plan decision
        = (if fantasy_mode then _redact_paths <$> plan directive
           else plan directive)
      ∧ Router.narration decision
        = (if fantasy_mode && fantasy (style directive)
           then archon_base_narration settings else EmptyString)
      ∧ Router.reasoning decision = EmptyString
      ∧ Router.confidence decision = None
      ∧ Router.fallback_used decision = false
      ∧ Router.raw decision = cleaned.
Proof.
  intros Hrun. apply validate_returns in Hrun as (_ & directive & Hparse & _ & ->).
  exists directive. split; [exact Hparse|].
  unfold Router._decision_from_payload.
  destruct fantasy_mode; cbn -[Router.as_strs Text.lower DaemonType_of_value];
    rewrite as_strs_strings;
    destruct (intent directive), (daemon directive), (parameters directive),
      (fantasy (style directive)); repeat split.
Qed.

End ValidatedDecisions.

(** A planner answer that explains itself: the schema has no field for
    "reasoning" and "confidence". *)
Definition reasoned_payload : Any :=
  ADict [ ("intent", AStr "summon"); ("daemon", AStr "gemini");
          ("task", AStr "Wake the dreamer");
          ("safety", ADict [("allow_shell", ABool false); ("allow_net", ABool false)]);
          ("style", ADict [("fantasy", ABool true); ("voice", AStr "gemini")]);
          ("plan", AList [AStr "Summon gemini"]);
          ("reasoning", AStr "The spell names gemini.");
          ("confidence", AFloat (9 # 10)) ].

Lemma planner_decision_fields_witness :
  let w := Registry.initial_world None in
  ∃ cleaned,
    Safety.validate_archon_payload (env:=Builtins.mock_env) reasoned_payload false w
    = (w, Returned cleaned)
    ∧ let decision :=
        Router._decision_from_payload (env:=Builtins.mock_env) "summon gemini" cleaned in
      Router.target_daemon decision = Some GEMINI
      ∧ Router.reasoning decision = EmptyString
      ∧ Router.narration decision = EmptyString
      ∧ Router.confidence decision = None.
Proof.
  intros w.
  destruct (Safety.validate_archon_payload (env:=Builtins.mock_env)
              reasoned_payload false w) as [w1 [cleaned|e]] eqn:Hrun;
    [|vm_compute in Hrun; discriminate].
  destruct (planner_decision_fields (env:=Builtins.mock_env) reasoned_payload false
              w w1 cleaned "summon gemini" Hrun)
    as (directive & Hparse & _ & Htarget & _ & _ & _ & Hnarr & Hreas & Hconf & _).
  destruct (validate_returns (env:=Builtins.mock_env) _ _ _ _ _ Hrun) as [-> _].
  exists cleaned. split; [reflexivity|]. cbv zeta.
  split; [|split; [exact Hreas|split; [exact Hnarr|exact Hconf]]].
  rewrite Htarget. vm_compute in Hparse. injection Hparse as <-. reflexivity.
Defined.

Section MoreRedactionFacts.
Import Safety.
Context {env : Env}.

Lemma no_path_fixed (s : string) :
  ∀ n, has_path s = false → redact_from n s = s.
Proof.
  induction s as [|c t IH]; intros n H; [apply redact_from_nil|].
  cbn [has_path] in H. apply orb_false_iff in H as [Hs Ht].
  rewrite (redact_from_keep _ _ _ Hs), IH by exact Ht. reflexivity.
Qed.

Lemma has_path_holds_path (s : string) : has_path s = true → holds_path s.
Proof.
  induction s as [|c t IH]; [discriminate|].
  cbn [has_path]. destruct (starts_path (String c t)) eqn:Hs.
  - intros _. destruct (redact_from_path 0 _ Hs) as (u & rest & k & Heq & Hu & _).
    exists EmptyString, u, rest. split; [exact Heq|exact Hu].
  - cbn [orb]. intros H. destruct (IH H) as (pre & u & post & -> & Hu).
    exists (String c pre), u, post. split; [reflexivity|exact Hu].
Qed.

(** X22.  [_redact_paths] returns a text unchanged exactly when the text
    holds no path-like substring, and redacting twice is redacting once: the
    marker it writes is never taken for a path. *)
Theorem redaction_fixed_points (text : string) :
  (_redact_paths text = text ↔ ¬ holds_path text)
  ∧ _redact_paths (_redact_paths text) = _redact_paths text.
Proof.
  assert (Hfix : ∀ s, ¬ holds_path s → _redact_paths s = s).
  { intros s Hno. unfold _redact_paths, Re.sub. fold (redact_from 0 s).
    apply no_path_fixed. destruct (has_path s) eqn:E; [|reflexivity].
    destruct Hno. apply has_path_holds_path, E. }
  split; [split|].
  - intros Heq. rewrite <- Heq. apply redact_paths_leaves_no_path.
  - apply Hfix.
  - apply Hfix, redact_paths_leaves_no_path.
Qed.

End MoreRedactionFacts.

Section GrimoireFacts.
Import Registry.
Context {env : Env}.

Lemma rev_drop {A} (k : nat) (l : list A) :
  k ≤ length l → rev (drop k l) = take (length l - k) (rev l).
Proof.
  intros Hk. rewrite firstn_rev. do 2 f_equal. lia.
Qed.

(** [lst[-limit:][::-1]] for a positive [limit] *)
Lemma rev_last_n {A} (limit : Z) (l : list A) :
  (0 < limit)%Z → rev (Grimoire.last_n limit l) = take (Z.to_nat limit) (rev l).
Proof.
  intros Hpos. unfold Grimoire.last_n, EventBus.slice_from.
  rewrite (proj2 (Z.ltb_lt (- limit) 0)) by lia.
  destruct (Z.max_spec 0 (Z.of_nat (length l) + - limit)) as [[Hlt ->]|[Hge ->]].
  - rewrite rev_drop by lia. f_equal. lia.
  - change (Z.to_nat 0) with 0. rewrite drop_0.
    rewrite take_ge; [reflexivity|]. rewrite length_rev. lia.
Qed.

(** X23.  [recall_spells] changes nothing and returns only entries that
    pass its filters, newest first: for a positive limit the [limit] newest
    ones (all when there are fewer), for the limit 0 every passing entry
    (the slice [-0:] is the whole list), and for a negative limit every
    passing entry but the |limit| oldest. *)
Theorem recall_spells_newest_first (limit : Z) (spell_type daemon_name : option string)
    (success_only : bool) (w : World) :
  let passing :=
    List.filter (Grimoire.passes spell_type daemon_name success_only)
      (spell_records w) in
  ∃ result,
    Grimoire.recall_spells limit spell_type daemon_name success_only w
    = (w, Returned result)
    ∧ Forall (fun entry =>
                Grimoire.passes spell_type daemon_name success_only entry = true)
        result
    ∧ ((0 < limit)%Z → result = take (Z.to_nat limit) (rev passing))
    ∧ (limit = 0%Z → result = rev passing)
    ∧ ((limit < 0)%Z → result = rev (drop (Z.to_nat (- limit)) passing)).
Proof.
  intros passing. unfold Grimoire.recall_spells. mred. fold passing.
  eexists. split; [reflexivity|].
  assert (Hpass : Forall (fun entry =>
            Grimoire.passes spell_type daemon_name success_only entry = true) passing).
  { unfold passing. induction (spell_records w) as [|x l IH]; [constructor|].
    cbn [List.filter].
    destruct (Grimoire.passes spell_type daemon_name success_only x) eqn:E;
      [constructor; assumption|exact IH]. }
  split; [|split; [|split]].
  - apply Forall_rev. unfold Grimoire.last_n, EventBus.slice_from.
    apply Forall_drop, Hpass.
  - apply rev_last_n.
  - intros ->. unfold Grimoire.last_n, EventBus.slice_from.
    change (- 0 <? 0)%Z with false. cbv iota.
    rewrite Z.min_l by lia. reflexivity.
  - intros Hneg. unfold Grimoire.last_n, EventBus.slice_from.
    rewrite (proj2 (Z.ltb_ge (- limit) 0)) by lia.
    destruct (Z.min_spec (- limit) (Z.of_nat (length passing))) as [[Hlt ->]|[Hge ->]];
      [reflexivity|].
    rewrite Nat2Z.id, !drop_ge by lia. reflexivity.
Qed.

Lemma recall_after_append (limit : Z) (entry : GrimoireEntry) (w w' : World) :
  spell_records w' = spell_records w ++ [entry] → (0 < limit)%Z →
  Grimoire.recall limit w'
  = (w', Returned (entry :: take (Z.to_nat limit - 1) (rev (spell_records w)))).
Proof.
  intros Happ Hpos. unfold Grimoire.recall, Grimoire.recall_spells. mred.
  do 2 f_equal.
  assert (Hall : ∀ l : list GrimoireEntry,
            List.filter (Grimoire.passes None None false) l = l).
  { induction l as [|x l IH]; [reflexivity|]. cbn. rewrite IH. reflexivity. }
  rewrite Hall, rev_last_n, Happ, rev_app_distr by exact Hpos.
  cbn [rev app]. destruct (Z.to_nat limit) as [|n] eqn:E; [lia|].
  replace (S n - 1) with n by lia. reflexivity.
Qed.

Lemma invoke_records_spell (W : DaemonType) (task : string)
    (params : option Dict.t) (w : World) (d : Daemon) (s : DaemonState)
    (cfg : ToolConfig) :
  0 < recursion_limit →
  _daemons w !! W = Some d → is_summoned d = true →
  _daemon_states w !! W = Some s → mcp_registered s = true →
  _registered_tools w !! DaemonType_value W = Some cfg →
  ∃ w' r entry,
    invoke_daemon W task params w = (w', Returned r)
    ∧ spell_records w' = spell_records w ++ [entry]
    ∧ g_spell_name entry = "invoke_" +:+ DaemonType_value W
    ∧ g_spell_type entry = Some "invoke"
    ∧ g_daemon_name entry = Some (DaemonType_value W)
    ∧ g_success entry = res_success r
    ∧ g_execution_time entry = Some (res_execution_time r)
    ∧ Dict.get "task" (g_command entry) = Some (AStr task)
    ∧ Dict.get "output" (g_result entry) = Some (res_result r).
Proof.
  intros Hrec Hd Hsum Hs Hreg Htool.
  unfold invoke_daemon. mred. rewrite Hd. mred. rewrite Hs. mred.
  rewrite Hsum, Hreg. mred.
  unfold invoke_tool. mred. rewrite Htool. mred.
  destruct (backing_call (DaemonType_value W) task params cfg) as [v|e]; mred;
    unfold record_invocation; look Hd Hs;
    rewrite !safe_create_task_skips by assumption; look Hd Hs;
    do 3 eexists; (split; [reflexivity|]); look Hd Hs;
    repeat split; reflexivity.
Qed.

(** X24.  In every world that calls lead to, invoking a summoned worker
    returns and is written to the spell records: a recall with a positive
    limit made afterwards starts with the entry of this invocation (named
    after the worker, of type "invoke", with the task, the output, the
    success flag and the execution time of the result), followed by the
    [limit - 1] newest entries from before. *)
Theorem last_invocation_is_recalled_first (W : DaemonType) (task : string)
    (params : option Dict.t) (limit : Z) (w : World) (d : Daemon) :
  0 < recursion_limit → reachable w →
  _daemons w !! W = Some d → is_summoned d = true → (0 < limit)%Z →
  ∃ w' r entry,
    invoke_daemon W task params w = (w', Returned r)
    ∧ Grimoire.recall limit w'
      = (w', Returned (entry :: take (Z.to_nat limit - 1) (rev (spell_records w))))
    ∧ g_spell_name entry = "invoke_" +:+ DaemonType_value W
    ∧ g_spell_type entry = Some "invoke"
    ∧ g_daemon_name entry = Some (DaemonType_value W)
    ∧ g_success entry = res_success r
    ∧ g_execution_time entry = Some (res_execution_time r)
    ∧ Dict.get "task" (g_command entry) = Some (AStr task)
    ∧ Dict.get "output" (g_result entry) = Some (res_result r).
Proof.
  intros Hrec Hw Hd Hsum Hpos.
  destruct (reachable_known W w Hrec Hw) as (d0 & s & Hd0 & Hs).
  assert (d0 = d) as -> by congruence.
  pose proof (reachable_summoned_registered w Hrec Hw W d s Hd Hs Hsum) as Hreg.
  destruct (reachable_registered W w s Hrec Hw Hs Hreg) as (cfg & Htool).
  destruct (invoke_records_spell W task params w d s cfg Hrec Hd Hsum Hs Hreg Htool)
    as (w' & r & entry & Hrun & Happ & Hrest).
  exists w', r, entry. split; [exact Hrun|]. split; [|exact Hrest].
  apply recall_after_append; assumption.
Qed.

End GrimoireFacts.

Lemma last_invocation_is_recalled_first_witness :
  let w := after_call (env:=Builtins.mock_env) (call_summon CLAUDE)
             (Registry.initial_world None) in
  ∃ w' r entry,
    Registry.invoke_daemon (env:=Builtins.mock_env) CLAUDE "explain recursion" None w
    = (w', Returned r)
    ∧ Grimoire.recall 2 w' = (w', Returned (entry :: take 1 (rev (spell_records w))))
    ∧ g_spell_name entry = "invoke_claude"
    ∧ g_success entry = Registry.res_success r.
Proof.
  intros w.
  pose (d := default (Registry.initial_daemon CLAUDE) (_daemons w !! CLAUDE)).
  destruct (last_invocation_is_recalled_first (env:=Builtins.mock_env)
              CLAUDE "explain recursion" None 2 w d)
    as (w' & r & entry & Hrun & Hrecall & Hname & _ & _ & Hok & _).
  - cbn. lia.
  - apply reachable_call, reachable_initial.
  - vm_compute. reflexivity.
  - vm_compute. reflexivity.
  - lia.
  - exists w', r, entry. split; [exact Hrun|]. split; [exact Hrecall|].
    split; [exact Hname|exact Hok].
Defined.

Section VoiceFacts.
Import VoiceService.
Variable enabled : bool.
Variable voice_of : DaemonType → string.
Variable synthesize : VoiceProfile → VoiceEvent → string → Outcome string.

(** [override_text or VOICE_LINES[event]] *)
Definition spoken (event : VoiceEvent) (override_text : option string) : string :=
  match override_text with
  | Some text => if Text.truthy text then text else VOICE_LINES event
  | None => VOICE_LINES event
  end.

(** X25.  [play_voice_line] never raises and always puts exactly one VOICE
    event for the worker on the bus, whose success flag, also stored under
    "success" in its metadata, is the one of the result it returns.  The
    result is a success exactly when the veil is on, the service is enabled
    and the synthesis returned a path, which is then the audio path of the
    result; every other result has no audio path and names its error. *)
Theorem play_voice_line_always_answers (daemon : DaemonType) (event : VoiceEvent)
    (override_text : option string) (w : World) :
  ∃ profile result emitted,
    voice_profiles voice_of daemon = Some profile
    ∧ play_voice_line enabled voice_of synthesize daemon event override_text w
      = (set_event_bus (EventBus.emit emitted) w, Returned result)
    ∧ EventBus.spell_name emitted = VOICE
    ∧ EventBus.daemon_name emitted = Some (DaemonType_value daemon)
    ∧ EventBus.success emitted = voice_success result
    ∧ Dict.get "success" (EventBus.metadata emitted)
      = Some (ABool (voice_success result))
    ∧ Dict.get "event" (EventBus.metadata emitted)
      = Some (AStr (VoiceEvent_value event))
    ∧ voice_success result
      = (veil_enabled w && enabled
         && match synthesize profile event (spoken event override_text) with
            | Returned _ => true
            | Raised _ => false
            end)
    ∧ (voice_success result = true →
       audio_path result
       = match synthesize profile event (spoken event override_text) with
         | Returned path => Some path
         | Raised _ => None
         end
       ∧ voice_error result = None
       ∧ fallback_message result = spoken event override_text)
    ∧ (voice_success result = false →
       audio_path result = None ∧ is_Some (voice_error result)).
Proof.
  assert (Hprofile : ∃ profile, voice_profiles voice_of daemon = Some profile)
    by (destruct daemon; eexists; reflexivity).
  destruct Hprofile as [profile Hprofile]. exists profile.
  unfold play_voice_line. fold (spoken event override_text). rewrite Hprofile.
  mred. destruct (veil_enabled w) eqn:Hveil; mred.
  - destruct enabled; mred.
    + destruct (synthesize profile event (spoken event override_text)) as [path|exc];
        unfold _emit_voice_event; mred; rewrite ?Hveil;
        eexists _, _; (split; [reflexivity|]); (split; [reflexivity|]);
        cbn; repeat split; try discriminate; eauto.
    + unfold _emit_voice_event. mred. rewrite ?Hveil.
      eexists _, _. split; [reflexivity|]. split; [reflexivity|].
      cbn. repeat split; try discriminate; eauto.
  - unfold _emit_voice_event. mred. rewrite ?Hveil.
    eexists _, _. split; [reflexivity|]. split; [reflexivity|].
    cbn. repeat split; try discriminate; eauto.
Qed.

End VoiceFacts.

Section ParserOrder.
Import SpellParser.
Context {env : Env}.

(** No pattern of the list has a higher priority than an earlier one. *)
Fixpoint descending (l : list SpellPattern) : Prop :=
  match l with
  | [] => True
  | p :: rest =>
      Forall (fun q => (priority q ≤ priority p)%Z) rest ∧ descending rest
  end.

Lemma insert_by_priority_In (x p : SpellPattern) (l : list SpellPattern) :
  In x (insert_by_priority p l) ↔ x = p ∨ In x l.
Proof.
  induction l as [|q rest IH]; cbn [insert_by_priority].
  - cbn. intuition.
  - destruct (priority q <? priority p)%Z; cbn [In]; [intuition|].
    rewrite IH. intuition.
Qed.

Lemma insert_by_priority_descending (p : SpellPattern) (l : list SpellPattern) :
  descending l → descending (insert_by_priority p l).
Proof.
  induction l as [|q rest IH]; cbn [insert_by_priority].
  - intros _. split; [constructor|exact I].
  - intros [Hq Hrest].
    destruct (priority q <? priority p)%Z eqn:E.
    + apply Z.ltb_lt in E. split; [|split; assumption].
      constructor; [lia|]. eapply Forall_impl; [exact Hq|]. cbn. intros; lia.
    + apply Z.ltb_ge in E. split; [|apply IH, Hrest].
      apply List.Forall_forall. intros x Hx.
      apply insert_by_priority_In in Hx as [->|Hx]; [exact E|].
      rewrite List.Forall_forall in Hq. apply Hq, Hx.
Qed.

Lemma sort_by_priority_spec (l : list SpellPattern) :
  descending (sort_by_priority l) ∧ ∀ x, In x (sort_by_priority l) ↔ In x l.
Proof.
  unfold sort_by_priority.
  assert (H : ∀ acc, descending acc →
            descending (fold_left (fun sorted p => insert_by_priority p sorted) l acc)
            ∧ ∀ x, In x (fold_left (fun sorted p => insert_by_priority p sorted) l acc)
                   ↔ In x acc ∨ In x l).
  { induction l as [|p rest IH]; intros acc Hacc; cbn [fold_left].
    - split; [exact Hacc|]. cbn. intuition.
    - destruct (IH (insert_by_priority p acc)
                  (insert_by_priority_descending p acc Hacc)) as [Hd Hin].
      split; [exact Hd|]. intros x. rewrite Hin, insert_by_priority_In.
      cbn [In]. intuition. }
  destruct (H [] I) as [Hd Hin]. split; [exact Hd|].
  intros x. rewrite Hin. cbn. intuition.
Qed.

(** What [parse] builds from the pattern that matched *)
Definition built_from (p : SpellPattern) (text : string) (parsed : ParsedSpell)
    : Prop :=
  action parsed = pattern_action p
  ∧ confidence parsed = Qmin 1 (inject_Z (priority p) / 100)
  ∧ raw_input parsed = text.

(** [p] matches [text] and no pattern of [ps] that matches it has a higher
    priority *)
Definition best_match (ps : list SpellPattern) (text : string) (p : SpellPattern)
    : Prop :=
  In p ps ∧ is_Some (pattern_match p text)
  ∧ ∀ q, In q ps → is_Some (pattern_match q text) → (priority q ≤ priority p)%Z.

Lemma first_match_spec (ps : list SpellPattern) (text : string) :
  descending ps →
  match first_match ps text with
  | Returned parsed => ∃ p, best_match ps text p ∧ built_from p text parsed
  | Raised e =>
      ((∀ q, In q ps → pattern_match q text = None) ∧ ∃ msg, e = ParseError msg)
      ∨ (∃ p fields raw_task,
           best_match ps text p ∧ pattern_match p text = Some fields
           ∧ field "task" fields = Some raw_task
           ∧ extract_parameters raw_task = Raised e)
  end.
Proof.
  induction ps as [|p rest IH]; intros Hd; cbn [first_match].
  - left. split; [intros q []|]. eexists. reflexivity.
  - destruct Hd as [Hp Hrest]. specialize (IH Hrest).
    assert (Hbest : ∀ fields, pattern_match p text = Some fields →
              best_match (p :: rest) text p).
    { intros fields Hm. split; [left; reflexivity|]. split; [rewrite Hm; eauto|].
      intros q [<-|Hq] _; [lia|]. rewrite List.Forall_forall in Hp. apply Hp, Hq. }
    destruct (pattern_match p text) as [fields|] eqn:Hm.
    + specialize (Hbest fields eq_refl).
      destruct (field "task" fields) as [raw_task|] eqn:Htask.
      * destruct (extract_parameters raw_task) as [[t ps']|e] eqn:Hex.
        -- exists p. split; [exact Hbest|]. repeat split.
        -- right. exists p, fields, raw_task. repeat split; try assumption; apply Hbest.
      * exists p. split; [exact Hbest|]. repeat split.
    + assert (Hlift : ∀ p', best_match rest text p' → best_match (p :: rest) text p').
      { intros p' (Hin & Hsome & Hmax). split; [right; exact Hin|].
        split; [exact Hsome|]. intros q [<-|Hq] Hq'.
        - rewrite Hm in Hq'. destruct Hq' as [? [=]].
        - apply Hmax; assumption. }
      destruct (first_match rest text) as [parsed|e].
      * destruct IH as (p' & Hb & Hbuilt). exists p'. split; [apply Hlift, Hb|exact Hbuilt].
      * destruct IH as [[Hnone Hmsg]|(p' & fields & raw_task & Hb & Hrest')].
        -- left. split; [|exact Hmsg]. intros q [<-|Hq]; [exact Hm|apply Hnone, Hq].
        -- right. exists p', fields, raw_task. split; [apply Hlift, Hb|exact Hrest'].
Qed.

Lemma declared_priorities :
  Forall (fun p => (50 ≤ priority p ≤ 100)%Z) declared_patterns.
Proof. repeat constructor; cbn; lia. Qed.

(** X26.  When [parse] returns, the text (stripped) is matched by a
    declared pattern of which the parse has the action and, divided by 100
    and capped at 1, the priority as confidence, and no declared pattern that
    matches the text has a higher priority; the confidence lies between 0.5
    and 1.  When [parse] raises, either the stripped text is empty, or no
    declared pattern matches it (both a [ParseError]), or the exception comes
    from [extract_parameters] on the task that the best pattern captured. *)
Theorem parse_takes_the_highest_priority (spell_text : string) :
  let text := Text.strip spell_text in
  match parse spell_text with
  | Returned parsed =>
      ∃ p, best_match declared_patterns text p ∧ built_from p text parsed
           ∧ (1 # 2 <= confidence parsed <= 1)%Q
  | Raised e =>
      (Text.truthy text = false ∧ e = ParseError "Empty spell text provided.")
      ∨ ((∀ q, In q declared_patterns → pattern_match q text = None)
         ∧ ∃ msg, e = ParseError msg)
      ∨ (∃ p fields raw_task,
           best_match declared_patterns text p
           ∧ pattern_match p text = Some fields
           ∧ field "task" fields = Some raw_task
           ∧ extract_parameters raw_task = Raised e)
  end.
Proof.
  intros text. unfold parse. fold text.
  destruct (sort_by_priority_spec declared_patterns) as [Hd Hin].
  fold patterns in Hd, Hin.
  assert (Hbest : ∀ p, best_match patterns text p → best_match declared_patterns text p).
  { intros p (Hp & Hsome & Hmax). split; [apply Hin, Hp|]. split; [exact Hsome|].
    intros q Hq. apply Hmax, Hin, Hq. }
  destruct (Text.truthy spell_text) eqn:Hne; cbn [negb orb].
  - destruct (Text.truthy text) eqn:Htext; cbn [negb].
    + pose proof (first_match_spec patterns text Hd) as H.
      destruct (first_match patterns text) as [parsed|e].
      * destruct H as (p & Hb & Hbuilt). exists p.
        split; [apply Hbest, Hb|]. split; [exact Hbuilt|].
        destruct Hbuilt as (_ & -> & _).
        apply Hbest in Hb. destruct Hb as (Hp & _).
        pose proof declared_priorities as Hall.
        rewrite List.Forall_forall in Hall. specialize (Hall p Hp).
        split.
        -- apply Q.min_glb; [discriminate|].
           unfold Qle, Qdiv, Qmult, Qinv, inject_Z. cbn. lia.
        -- apply Q.le_min_l.
      * destruct H as [[Hnone Hmsg]|(p & fields & raw_task & Hb & Hrest)].
        -- right. left. split; [|exact Hmsg].
           intros q Hq. apply Hnone, Hin, Hq.
        -- right. right. exists p, fields, raw_task.
           split; [apply Hbest, Hb|exact Hrest].
    + left. split; reflexivity.
  - left. split; [|reflexivity]. destruct spell_text; [reflexivity|discriminate].
Qed.

(** What [parse_batch] keeps of one text *)
Definition parsed_or_skipped (spell_text : string) : option ParsedSpell :=
  match parse spell_text with
  | Returned parsed => Some parsed
  | Raised _ => None
  end.

(** [parse] returns, or raises [ParseError] *)
Definition parses_or_fails (spell_text : string) : Prop :=
  match parse spell_text with
  | Returned _ => True
  | Raised (ParseError _) => True
  | Raised _ => False
  end.

(** X27.  [parse_batch] returns the parses of the texts that parse, in the
    order of the texts, skipping those that raise [ParseError], as long as no
    text raises anything else; the first text that raises another exception
    (the ValueError that a parameter value can cause) ends the batch with
    that exception, and the parses made so far are lost. *)
Theorem parse_batch_skips_only_parse_errors (spell_texts : list string) :
  (Forall parses_or_fails spell_texts →
   parse_batch spell_texts = Returned (omap parsed_or_skipped spell_texts))
  ∧ (∀ before spell_text after e,
       spell_texts = before ++ spell_text :: after →
       Forall parses_or_fails before →
       parse spell_text = Raised e → ¬ parses_or_fails spell_text →
       parse_batch spell_texts = Raised e).
Proof.
  split.
  - induction 1 as [|t rest Ht _ IH]; [reflexivity|].
    cbn [parse_batch omap list_omap]. unfold parses_or_fails, parsed_or_skipped in *.
    rewrite IH. destruct (parse t) as [parsed|[]]; try reflexivity; contradiction.
  - intros before spell_text after e -> Hbefore Hrun Hbad.
    induction Hbefore as [|t rest Ht _ IH]; cbn [app parse_batch].
    + unfold parses_or_fails in Hbad. rewrite Hrun in *.
      destruct e; try reflexivity. destruct Hbad. exact I.
    + unfold parses_or_fails in Ht. rewrite IH.
      destruct (parse t) as [parsed|[]]; try reflexivity; contradiction.
Qed.

End ParserOrder.

Lemma parse_batch_skips_only_parse_errors_witness :
  SpellParser.parse_batch (env:=Builtins.mock_env)
    ["summon claude"; "xyzzy"; "banish gemini"]
  = Returned (omap (parsed_or_skipped (env:=Builtins.mock_env))
                ["summon claude"; "xyzzy"; "banish gemini"])
  ∧ length (omap (parsed_or_skipped (env:=Builtins.mock_env))
              ["summon claude"; "xyzzy"; "banish gemini"]) = 2
  ∧ ∃ msg,
      SpellParser.parse_batch (env:=Builtins.mock_env)
        ["summon claude";
         "invoke claude to go with n=" +:+ String (ascii_of_N 178) EmptyString;
         "banish gemini"]
      = Raised (ValueError msg).
Proof.
  split; [|split].
  - apply (parse_batch_skips_only_parse_errors (env:=Builtins.mock_env)).
    repeat constructor; vm_compute; exact I.
  - vm_compute. reflexivity.
  - eexists.
    apply (proj2 (parse_batch_skips_only_parse_errors (env:=Builtins.mock_env) _)
             ["summon claude"]
             ("invoke claude to go with n=" +:+ String (ascii_of_N 178) EmptyString)
             ["banish gemini"]).
    + reflexivity.
    + repeat constructor; vm_compute; exact I.
    + vm_compute. reflexivity.
    + vm_compute. intros H. exact H.
Defined.
